(** * pyani: the [anim] subcommand (pyani/scripts/subcommands/subcmd_anim.py)

    A shallow embedding of the ANIm orchestration code: deduplication of
    genome pairs against the comparisons already stored, construction of
    the NUCmer job list, recovery scanning, dispatch, ingestion of results
    and synthesis of the five run matrices.

    Python values are modelled as follows.
    - [int] is [Z]; [float] is IEEE binary64, i.e. Rocq's primitive [float].
    - [str] is [string], one [ascii] for every character: the text is made
      of characters with code points below 256.  [None] is the [None] of an
      [option].
    - Exceptions are an explicit result type threaded through a state and
      error monad; the state holds the ORM session, the [Run] object and a
      trace of the calls made to the external collaborators.
    - The modules [anim], [pyani_orm], [pyani_jobs], [pyani_config],
      [run_multiprocessing], [run_sge] and the file system are not part of
      the verified file; what they return is supplied by an environment
      record [Env]. *)

From Stdlib Require Import ZArith Ascii.
From Stdlib Require Import Floats.PrimFloat Floats.SpecFloat Floats.FloatOps.
From stdpp Require Import gmap strings list sorting pretty.

Local Open Scope Z_scope.

(** ** Exceptions and results *)

Inductive exn : Type :=
  | ZeroDivisionError
  | OverflowError
  | TypeError
  | IndexError
  | OSError
  | PyaniException (msg : string)
  | SystemExit (code : Z)
  | SystemError (code : Z).

Inductive res (A : Type) : Type :=
  | Ok (a : A)
  | Raise (e : exn).
Arguments Ok {A} a.
Arguments Raise {A} e.

(** ** Python arithmetic on [int] and [float] *)

Module PyNum.

(** An [int] read as an unrounded binary number. *)
Definition Z2SF (z : Z) : spec_float :=
  match z with
  | Z0 => S754_zero false
  | Zpos p => S754_finite false p 0
  | Zneg p => S754_finite true p 0
  end.

(** [float(n)]: the nearest binary64 value. *)
Definition float_of_int (z : Z) : float :=
  SF2Prim (binary_normalize prec emax z 0 false).

(** [a / b] on two [int]s is true division: [ZeroDivisionError] when [b]
    is zero, [OverflowError] when the correctly rounded quotient is beyond
    the largest float, and that quotient otherwise. *)
Definition quotient (a b : Z) : float :=
  SF2Prim (SFdiv prec emax (Z2SF a) (Z2SF b)).
Definition overflows (a b : Z) : bool :=
  match SFdiv prec emax (Z2SF a) (Z2SF b) with
  | S754_infinity _ => true
  | _ => false
  end.
Definition truediv (a b : Z) : res float :=
  if decide (b = 0) then Raise ZeroDivisionError
  else if overflows a b then Raise OverflowError
  else Ok (quotient a b).

(** [n - x] and [x * y] with [n] an [int] and [x], [y] floats. *)
Definition int_sub_float (n : Z) (x : float) : float :=
  PrimFloat.sub (float_of_int n) x.
Definition fmul (x y : float) : float := PrimFloat.mul x y.

Definition one : float := float_of_int 1.
Definition NaN : float := PrimFloat.nan.

End PyNum.

(** ** Python strings and [os.path] *)

Module PyStr.

(** Characters for which [str.isspace] holds: the ASCII blanks and
    separators, the next-line control (133) and the no-break space (160). *)
Definition isspace (c : ascii) : bool :=
  match c with
  | "009" | "010" | "011" | "012" | "013"
  | "028" | "029" | "030" | "031" | " "
  | "133" | "160" => true
  | _ => false
  end%char.

(** [s.split()]: the maximal runs of non-space characters, in order. *)
Fixpoint split_go (cur : string) (s : string) : list string :=
  match s with
  | "" => if decide (cur = "") then [] else [String.rev cur]
  | String c s' =>
      if isspace c
      then (if decide (cur = "") then [] else [String.rev cur]) ++ split_go "" s'
      else split_go (String c cur) s'
  end.
Definition split (s : string) : list string := split_go "" s.

(** [posixpath.split(p)[-1]]: what follows the last ["/"]. *)
Fixpoint basename_go (cur : string) (s : string) : string :=
  match s with
  | "" => String.rev cur
  | String c s' =>
      if decide (c = "/"%char) then basename_go "" s'
      else basename_go (String c cur) s'
  end.
Definition basename (p : string) : string := basename_go "" p.

(** [posixpath.splitext(p)[-1]]: the extension starts at the last dot
    of the last path component, unless only dots precede it there. *)
Fixpoint ext_go (seen_nondot : bool) (ext : option string) (s : string)
  : option string :=
  match s with
  | "" => ext
  | String c s' =>
      if decide (c = "."%char) then
        ext_go seen_nondot (if seen_nondot then Some s else ext) s'
      else if decide (c = "/"%char) then ext_go false None s'
      else ext_go true ext s'
  end.
Definition splitext_ext (p : string) : string :=
  default "" (ext_go false None p).

(** [posixpath.join(a, b)]. *)
Definition endswith_slash (a : string) : bool :=
  match String.rev a with
  | String c _ => bool_decide (c = "/"%char)
  | "" => false
  end.
Definition join (a b : string) : string :=
  match b with
  | String "/" _ => b
  | _ => if decide (a = "") then b
         else if endswith_slash a then a +:+ b
         else a +:+ "/" +:+ b
  end.

End PyStr.

(** ** The data model (pyani_orm, pyani_jobs, the namedtuple of this file) *)

Module Genome.
Record t : Type := mk {
  genome_id : Z;
  path : string;
  length : Z;
  description : string
}.
End Genome.
Abbreviation Genome := Genome.t.

(** A [Comparison] row.  The constructor call in [update_comparison_results]
    passes the two [Genome] objects; the columns [query_id] and [subject_id]
    are the identifiers of those objects. *)
Module Comparison.
Record t : Type := mk {
  query : Genome;
  subject : Genome;
  aln_length : Z;
  sim_errs : Z;
  identity : float;
  cov_query : float;
  cov_subject : float;
  program : string;
  version : string;
  fragsize : option Z;
  maxmatch : bool
}.
Definition query_id (c : t) : Z := Genome.genome_id (query c).
Definition subject_id (c : t) : Z := Genome.genome_id (subject c).
End Comparison.
Abbreviation Comparison := Comparison.t.

(** The tuple used as dictionary key in [subcmd_anim]:
    [(query_id, subject_id, program, version, fragsize, maxmatch)]. *)
Abbreviation comparison_key := (Z * Z * string * string * option Z * bool)%type.

Definition key_of (c : Comparison) : comparison_key :=
  (Comparison.query_id c, Comparison.subject_id c, Comparison.program c,
   Comparison.version c, Comparison.fragsize c, Comparison.maxmatch c).

(** [pyani_jobs.Job]: a named command with the jobs it depends on. *)
Local Unset Elimination Schemes.
Inductive Job : Type :=
  | mkJob (name : string) (command : string) (dependencies : list Job).
Local Set Elimination Schemes.

Definition job_name (j : Job) : string := let 'mkJob n _ _ := j in n.
Definition job_command (j : Job) : string := let 'mkJob _ c _ := j in c.
Definition job_dependencies (j : Job) : list Job := let 'mkJob _ _ d := j in d.
Definition add_dependency (j dep : Job) : Job :=
  let 'mkJob n c d := j in mkJob n c (d ++ [dep]).

(** [ComparisonJob = namedtuple("ComparisonJob",
      "query subject filtercmd nucmercmd outfile job")]. *)
Module ComparisonJob.
Record t : Type := mk {
  query : Genome;
  subject : Genome;
  filtercmd : string;
  nucmercmd : string;
  outfile : string;
  job : Job
}.
End ComparisonJob.
Abbreviation ComparisonJob := ComparisonJob.t.

(** The command-line namespace, restricted to the attributes the
    orchestration reads. *)
Module Args.
Record t : Type := mk {
  name : option string;
  cmdline : string;
  dbpath : string;
  indir : string;
  outdir : string;
  nucmer_exe : string;
  filter_exe : string;
  maxmatch : bool;
  nofilter : bool;
  recovery : bool;
  scheduler : string;
  workers : option Z;
  jobprefix : string;
  sgegroupsize : Z;
  sgeargs : string
}.
End Args.
Abbreviation Args := Args.t.

(** ** pandas data frames

    A frame is its row labels, its column labels and the two-dimensional
    block of values.  [pd.DataFrame(index=.., columns=.., dtype=float)]
    starts out with every cell NaN, which is how an unset cell reads. *)
Module DataFrame.
Record t : Type := mk {
  index : list Z;
  columns : list Z;
  values : list (list float)
}.

Definition new (idx cols : list Z) : t :=
  mk idx cols (replicate (length idx) (replicate (length cols) PyNum.NaN)).

(** [np.fill_diagonal(df.values, v)]: positions (i, i) of the block.  A
    frame of one float dtype hands out its own block as [values], so the
    assignment shows in the frame. *)
Definition fill_diagonal (v : float) (df : t) : t :=
  mk (index df) (columns df) (imap (λ i row, <[i := v]> row) (values df)).

(** Setting through [.loc] with a label that is missing enlarges the
    frame by a row or a column of NaN. *)
Definition add_row (r : Z) (df : t) : t :=
  if decide (r ∈ index df) then df
  else mk (index df ++ [r]) (columns df)
          (values df ++ [replicate (length (columns df)) PyNum.NaN]).
Definition add_column (c : Z) (df : t) : t :=
  if decide (c ∈ columns df) then df
  else mk (index df) (columns df ++ [c])
          ((λ row, row ++ [PyNum.NaN]) <$> values df).

(** [df.loc[r, c] = v]: every cell whose row is labelled [r] and whose
    column is labelled [c]. *)
Definition loc_set (r c : Z) (v : float) (df : t) : t :=
  let df := add_column c (add_row r df) in
  mk (index df) (columns df)
     (imap (λ i row,
        if decide (index df !! i = Some r)
        then imap (λ j x, if decide (columns df !! j = Some c) then v else x) row
        else row) (values df)).

(** [df.loc[r, c]] read as a scalar: the cell at the first row labelled
    [r] and first column labelled [c]; [None] for a missing label. *)
Definition position (l : list Z) (x : Z) : option nat :=
  fst <$> list_find (λ y, y = x) l.
Definition loc (df : t) (r c : Z) : option float :=
  i ← position (index df) r;
  j ← position (columns df) c;
  row ← values df !! i;
  row !! j.
End DataFrame.
Abbreviation DataFrame := DataFrame.t.

(** A [Run] row.  The five matrix columns hold [df.to_json()]; the JSON
    text is represented by the frame it serialises, and a column that was
    never assigned is [None]. *)
Module Run.
Record t : Type := mk {
  method : string;
  cmdline : string;
  date : string;
  status : string;
  name : string;
  genomes : list Genome;
  comparisons : list Comparison;
  df_identity : option DataFrame;
  df_coverage : option DataFrame;
  df_alnlength : option DataFrame;
  df_simerrors : option DataFrame;
  df_hadamard : option DataFrame
}.
End Run.
Abbreviation Run := Run.t.

(** ** External collaborators *)

(** Calls that leave the orchestration, in the order they are made. *)
Inductive event : Type :=
  | EvListdir (dirpath : string)
  | EvRunMultiprocessing (jobs : list Job) (workers : option Z)
  | EvRunSGE (jobs : list Job) (jgprefix : string) (sgegroupsize : Z)
             (sgeargs : string)
  | EvParseDelta (outfile : string).

(** What the collaborators answer.  [add_run_genomes] also stands for the
    later [run.genomes.all()]: it gives the genomes registered for the run,
    or fails.  [ALIGNDIR_ANIm] is [pyani_config.ALIGNDIR["ANIm"]]. *)
Record Env : Type := mkEnv {
  get_version : string → string;
  now_isoformat : string;
  get_session : string → bool;
  add_run : bool;
  add_run_genomes : string → res (list Genome);
  ALIGNDIR_ANIm : string;
  makedirs : string → bool;
  construct_nucmer_cmdline :
    string → string → string → string → string → bool → string * string;
  listdir : string → res (list string);
  mp_run_dependency_graph : list Job → option Z → Z;
  parse_delta : string → res (Z * Z)
}.

(** ** Program state and the monad of the orchestration *)

(** [db_comparisons] is the Comparison table as committed; [session_new]
    holds objects the session will insert at the next commit. *)
Record State : Type := mkState {
  db_comparisons : list Comparison;
  session_new : list Comparison;
  run : Run;
  trace : list event
}.

Definition M (A : Type) : Type := State → res A * State.

Definition ret {A} (a : A) : M A := λ st, (Ok a, st).
Definition raise {A} (e : exn) : M A := λ st, (Raise e, st).
Definition bind {A B} (m : M A) (k : A → M B) : M B :=
  λ st, match m st with
        | (Ok a, st') => k a st'
        | (Raise e, st') => (Raise e, st')
        end.
Definition lift {A} (r : res A) : M A := λ st, (r, st).
Definition modify (f : State → State) : M unit := λ st, (Ok tt, f st).
Definition gets {A} (f : State → A) : M A := λ st, (Ok (f st), st).
Definition emit (e : event) : M unit :=
  modify (λ st, mkState (db_comparisons st) (session_new st) (run st)
                        (trace st ++ [e])).

Notation "'let*' x := m 'in' k" := (bind m (λ x, k))
  (at level 10, x pattern, m at level 100, k at level 200, only parsing).
Notation "m ;; k" := (bind m (λ _, k))
  (at level 100, k at level 200, right associativity, only parsing).

(** [for x in l: body(x)] and a loop that updates one local variable. *)
Fixpoint for_each {A} (l : list A) (body : A → M unit) : M unit :=
  match l with
  | [] => ret tt
  | x :: l' => body x ;; for_each l' body
  end.

Fixpoint for_fold {A B} (l : list A) (acc : B) (body : B → A → M B) : M B :=
  match l with
  | [] => ret acc
  | x :: l' => let* acc' := body acc x in for_fold l' acc' body
  end.

(** ** The ORM session and the collaborators, as monadic operations *)

Definition set_run (f : Run → Run) : M unit :=
  modify (λ st, mkState (db_comparisons st) (session_new st) (f (run st))
                        (trace st)).

(** [session.commit()]: pending objects reach the table. *)
Definition session_commit : M unit :=
  modify (λ st, mkState (db_comparisons st ++ session_new st) [] (run st)
                        (trace st)).

(** [session.query(Comparison).all()]: the query flushes first, so pending
    rows are visible too. *)
Definition query_all_comparisons : M (list Comparison) :=
  gets (λ st, db_comparisons st ++ session_new st).

Definition with_comparison (c : Comparison) (r : Run) : Run :=
  Run.mk (Run.method r) (Run.cmdline r) (Run.date r) (Run.status r)
         (Run.name r) (Run.genomes r) (Run.comparisons r ++ [c])
         (Run.df_identity r) (Run.df_coverage r) (Run.df_alnlength r)
         (Run.df_simerrors r) (Run.df_hadamard r).

Definition with_genomes (gs : list Genome) (r : Run) : Run :=
  Run.mk (Run.method r) (Run.cmdline r) (Run.date r) (Run.status r)
         (Run.name r) gs (Run.comparisons r)
         (Run.df_identity r) (Run.df_coverage r) (Run.df_alnlength r)
         (Run.df_simerrors r) (Run.df_hadamard r).

Definition with_matrices (i c a s h : DataFrame) (r : Run) : Run :=
  Run.mk (Run.method r) (Run.cmdline r) (Run.date r) (Run.status r)
         (Run.name r) (Run.genomes r) (Run.comparisons r)
         (Some i) (Some c) (Some a) (Some s) (Some h).

(** [run.comparisons.append(c)] for a row loaded from the store. *)
Definition run_comparisons_append_loaded (c : Comparison) : M unit :=
  set_run (with_comparison c).

(** [run.comparisons.append(Comparison(...))]: the new object joins the
    run's collection and, by cascade, the session's pending objects. *)
Definition run_comparisons_append_new (c : Comparison) : M unit :=
  modify (λ st, mkState (db_comparisons st) (session_new st ++ [c])
                        (with_comparison c (run st)) (trace st)).

Definition os_listdir (env : Env) (dirpath : string) : M (list string) :=
  emit (EvListdir dirpath) ;; lift (listdir env dirpath).

Definition anim_parse_delta (env : Env) (outfile : string) : M (Z * Z) :=
  emit (EvParseDelta outfile) ;; lift (parse_delta env outfile).

Definition run_mp_run_dependency_graph (env : Env) (jobs : list Job)
    (workers : option Z) : M Z :=
  emit (EvRunMultiprocessing jobs workers) ;;
  ret (mp_run_dependency_graph env jobs workers).

Definition run_sge_run_dependency_graph (jobs : list Job) (jgprefix : string)
    (sgegroupsize : Z) (sgeargs : string) : M unit :=
  emit (EvRunSGE jobs jgprefix sgegroupsize sgeargs).

(** ** Python calls

    A [def] binds its positional parameters to the actual arguments; a call
    with the wrong number of arguments raises [TypeError] before the body
    runs.  Only [collect_existing_output] needs this: every other call in
    the file passes as many arguments as the callee declares. *)
Inductive pyval : Type :=
  | VStr (s : string)
  | VArgs (a : Args)
  | VLogger.

Record pyfunction (A : Type) : Type := mkFunction {
  fn_params : list string;
  fn_body : list pyval → M A
}.
Arguments mkFunction {A} fn_params fn_body.
Arguments fn_params {A} p.
Arguments fn_body {A} p.

Definition py_call {A} (f : pyfunction A) (actuals : list pyval) : M A :=
  if decide (length actuals = length (fn_params f))
  then fn_body f actuals
  else raise TypeError.

(** [l[i]] and [x in c] as Python evaluates them. *)
Definition getitem {A} (l : list A) (i : nat) : M A :=
  match l !! i with
  | Some x => ret x
  | None => raise IndexError
  end.

Definition py_in (x : string) (c : option (list string)) : M bool :=
  match c with
  | Some l => ret (bool_decide (x ∈ l))
  | None => raise TypeError
  end.

(** ["%06d" % idx] for a non-negative index. *)
Definition fmt_06d (idx : nat) : string :=
  let s := pretty idx in
  String.concat "" (replicate (6 - String.length s)%nat "0") +:+ s.

(** ** subcmd_anim.py *)

(** *** [collect_existing_output(dirpath, args, logger)] *)

(** The list comprehension of the function: names under [dirpath] whose
    extension is the expected suffix. *)
Definition expected_suffix (args : Args) : string :=
  if Args.nofilter args then ".delta" else ".filter".

Definition existing_output_files (names : list string) (args : Args)
  : list string :=
  filter (λ fname, PyStr.splitext_ext fname = expected_suffix args) names.

(** The body ends after the last logging call: there is no [return], so
    the call evaluates to [None]. *)
Definition collect_existing_output_body (env : Env) (dirpath : string)
    (args : Args) : M (option (list string)) :=
  let suffix := expected_suffix args in
  let* names := os_listdir env dirpath in
  let existingfiles := existing_output_files names args in
  ret None.

Definition collect_existing_output (env : Env)
  : pyfunction (option (list string)) :=
  mkFunction ["dirpath"; "args"; "logger"]
    (λ actuals,
       match actuals with
       | [VStr dirpath; VArgs args; VLogger] =>
           collect_existing_output_body env dirpath args
       | _ => raise TypeError
       end).

(** *** [generate_joblist(comparisons, existingfiles, args, logger)] *)

Definition expected_outfname (outprefix : string) (args : Args) : string :=
  if Args.nofilter args then outprefix +:+ ".delta"
  else outprefix +:+ ".filter".

Definition generate_job (env : Env) (existingfiles : option (list string))
    (args : Args) (joblist : list ComparisonJob)
    (item : nat * (Genome * Genome)) : M (list ComparisonJob) :=
  let '(idx, (query, subject)) := item in
  let '(ncmd, dcmd) :=
    construct_nucmer_cmdline env (Genome.path query) (Genome.path subject)
      (Args.outdir args) (Args.nucmer_exe args) (Args.filter_exe args)
      (Args.maxmatch args) in
  let* outprefix := getitem (PyStr.split ncmd) 3 in
  let outfname := expected_outfname outprefix args in
  let* recovered :=
    (if Args.recovery args
     then py_in (PyStr.basename outfname) existingfiles
     else ret false) in
  if recovered then ret joblist
  else
    let njob :=
      mkJob (Args.jobprefix args +:+ "_" +:+ fmt_06d idx +:+ "-n") ncmd [] in
    let fjob :=
      mkJob (Args.jobprefix args +:+ "_" +:+ fmt_06d idx +:+ "-f") dcmd [] in
    let fjob := add_dependency fjob njob in
    ret (joblist ++ [ComparisonJob.mk query subject dcmd ncmd outfname fjob]).

Definition generate_joblist (env : Env) (comparisons : list (Genome * Genome))
    (existingfiles : option (list string)) (args : Args)
  : M (list ComparisonJob) :=
  for_fold (imap pair comparisons) [] (generate_job env existingfiles args).

(** *** [run_anim_jobs(joblist, args, logger)] *)

Definition run_anim_jobs (env : Env) (joblist : list ComparisonJob)
    (args : Args) : M unit :=
  if decide (Args.scheduler args = "multiprocessing") then
    let* cumval :=
      run_mp_run_dependency_graph env (ComparisonJob.job <$> joblist)
        (Args.workers args) in
    if decide (0 < cumval)
    then raise (PyaniException "Multiprocessing run failed in ANIm")
    else ret tt
  else
    run_sge_run_dependency_graph (ComparisonJob.job <$> joblist)
      (Args.jobprefix args) (Args.sgegroupsize args) (Args.sgeargs args).

(** *** [update_comparison_results(joblist, run, session, nucmer_version,
        args, logger)] *)

Definition ingest_job (env : Env) (nucmer_version : string) (args : Args)
    (job : ComparisonJob) : M unit :=
  let* parsed := anim_parse_delta env (ComparisonJob.outfile job) in
  let '(aln_length, sim_errs) := parsed in
  let* qcov :=
    lift (PyNum.truediv aln_length (Genome.length (ComparisonJob.query job))) in
  let* scov :=
    lift (PyNum.truediv aln_length (Genome.length (ComparisonJob.subject job))) in
  let* err_rate := lift (PyNum.truediv sim_errs aln_length) in
  let pid := PyNum.int_sub_float 1 err_rate in
  run_comparisons_append_new
    (Comparison.mk (ComparisonJob.query job) (ComparisonJob.subject job)
       aln_length sim_errs pid qcov scov "nucmer" nucmer_version None
       (Args.maxmatch args)).

Definition update_comparison_results (env : Env) (joblist : list ComparisonJob)
    (nucmer_version : string) (args : Args) : M unit :=
  for_each joblist (ingest_job env nucmer_version args) ;;
  session_commit.

(** *** [update_comparison_matrices(run, session, args, logger)] *)

Module Matrices.
Record t : Type := mk {
  df_identity : DataFrame;
  df_coverage : DataFrame;
  df_alnlength : DataFrame;
  df_simerrors : DataFrame;
  df_hadamard : DataFrame
}.
End Matrices.
Abbreviation Matrices := Matrices.t.

(** The frames as created, with the four constant diagonals. *)
Definition initial_matrices (genome_ids : list Z) : Matrices :=
  Matrices.mk
    (DataFrame.fill_diagonal 1%float (DataFrame.new genome_ids genome_ids))
    (DataFrame.fill_diagonal 1%float (DataFrame.new genome_ids genome_ids))
    (DataFrame.new genome_ids genome_ids)
    (DataFrame.fill_diagonal 1%float (DataFrame.new genome_ids genome_ids))
    (DataFrame.fill_diagonal 1%float (DataFrame.new genome_ids genome_ids)).

(** One pass of [for genome in run.genomes.all()]. *)
Definition set_genome_length (df_alnlength : DataFrame) (genome : Genome)
  : DataFrame :=
  DataFrame.loc_set (Genome.genome_id genome) (Genome.genome_id genome)
    (PyNum.float_of_int (Genome.length genome)) df_alnlength.

(** One pass of [for cmp in run.comparisons.all()]. *)
Definition fill_comparison (m : Matrices) (cmp : Comparison) : Matrices :=
  let qid := Comparison.query_id cmp in
  let sid := Comparison.subject_id cmp in
  Matrices.mk
    (DataFrame.loc_set sid qid (Comparison.identity cmp)
       (DataFrame.loc_set qid sid (Comparison.identity cmp)
          (Matrices.df_identity m)))
    (DataFrame.loc_set sid qid (Comparison.cov_subject cmp)
       (DataFrame.loc_set qid sid (Comparison.cov_query cmp)
          (Matrices.df_coverage m)))
    (DataFrame.loc_set sid qid (PyNum.float_of_int (Comparison.aln_length cmp))
       (DataFrame.loc_set qid sid (PyNum.float_of_int (Comparison.aln_length cmp))
          (Matrices.df_alnlength m)))
    (DataFrame.loc_set sid qid (PyNum.float_of_int (Comparison.sim_errs cmp))
       (DataFrame.loc_set qid sid (PyNum.float_of_int (Comparison.sim_errs cmp))
          (Matrices.df_simerrors m)))
    (DataFrame.loc_set sid qid
       (PyNum.fmul (Comparison.identity cmp) (Comparison.cov_subject cmp))
       (DataFrame.loc_set qid sid
          (PyNum.fmul (Comparison.identity cmp) (Comparison.cov_query cmp))
          (Matrices.df_hadamard m))).

Definition comparison_matrices (r : Run) : Matrices :=
  let genome_ids := merge_sort Z.le (Genome.genome_id <$> Run.genomes r) in
  let m := initial_matrices genome_ids in
  let m :=
    Matrices.mk (Matrices.df_identity m) (Matrices.df_coverage m)
      (foldl set_genome_length (Matrices.df_alnlength m) (Run.genomes r))
      (Matrices.df_simerrors m) (Matrices.df_hadamard m) in
  foldl fill_comparison m (Run.comparisons r).

Definition update_comparison_matrices (args : Args) : M unit :=
  let* r := gets run in
  let m := comparison_matrices r in
  set_run (with_matrices (Matrices.df_identity m) (Matrices.df_coverage m)
             (Matrices.df_alnlength m) (Matrices.df_simerrors m)
             (Matrices.df_hadamard m)) ;;
  session_commit.

(** *** [subcmd_anim(args, logger)] *)

(** [list(combinations(genomes, 2))]. *)
Fixpoint combinations2 {A} (l : list A) : list (A * A) :=
  match l with
  | [] => []
  | x :: l' => (pair x <$> l') ++ combinations2 l'
  end.

(** The dictionary comprehension over the stored comparisons: a later row
    with the same key replaces an earlier one. *)
Definition existing_comparisons_of (rows : list Comparison)
  : gmap comparison_key Comparison :=
  foldl (λ d c, <[key_of c := c]> d) ∅ rows.

(** The key looked up for a candidate pair. *)
Definition lookup_key (nucmer_version : string) (args : Args)
    (pair : Genome * Genome) : comparison_key :=
  (Genome.genome_id pair.1, Genome.genome_id pair.2, "nucmer",
   nucmer_version, None, Args.maxmatch args).

(** The loop "2. Reduce set of genomes for comparison". *)
Definition reduce_comparison (existing_comparisons : gmap comparison_key Comparison)
    (nucmer_version : string) (args : Args)
    (comparisons_to_run : list (Genome * Genome)) (pair : Genome * Genome)
  : M (list (Genome * Genome)) :=
  match existing_comparisons !! lookup_key nucmer_version args pair with
  | Some c =>
      run_comparisons_append_loaded c ;;
      session_commit ;;
      ret comparisons_to_run
  | None => ret (comparisons_to_run ++ [pair])
  end.

Definition reduce_comparisons (existing_comparisons : gmap comparison_key Comparison)
    (nucmer_version : string) (args : Args)
    (comparisons : list (Genome * Genome)) : M (list (Genome * Genome)) :=
  for_fold comparisons []
    (reduce_comparison existing_comparisons nucmer_version args).

Definition run_name (env : Env) (args : Args) : string :=
  match Args.name args with
  | Some n => if decide (n = "") then "ANIm_" +:+ now_isoformat env else n
  | None => "ANIm_" +:+ now_isoformat env
  end.

Definition new_run (env : Env) (args : Args) : Run :=
  Run.mk "ANIm" (Args.cmdline args) (now_isoformat env) "started"
         (run_name env args) [] [] None None None None None.

Definition subcmd_anim_body (env : Env) (args : Args) : M unit :=
  let nucmer_version := get_version env (Args.nucmer_exe args) in
  (if get_session env (Args.dbpath args) then ret tt
   else raise (SystemExit 1)) ;;
  set_run (λ _, new_run env args) ;;
  (if add_run env then session_commit else raise (SystemExit 1)) ;;
  (match add_run_genomes env (Args.indir args) with
   | Ok gs => set_run (with_genomes gs)
   | Raise _ => raise (SystemExit 1)
   end) ;;
  let deltadir := PyStr.join (Args.outdir args) (ALIGNDIR_ANIm env) in
  (if makedirs env deltadir then ret tt else raise (SystemError 1)) ;;
  let* genomes := gets (λ st, Run.genomes (run st)) in
  let comparisons := combinations2 genomes in
  let* rows := query_all_comparisons in
  let existing_comparisons := existing_comparisons_of rows in
  let* comparisons_to_run :=
    reduce_comparisons existing_comparisons nucmer_version args comparisons in
  if decide (length comparisons_to_run = 0%nat) then
    update_comparison_matrices args
  else
    let* existingfiles :=
      (if Args.recovery args
       then py_call (collect_existing_output env) [VStr deltadir; VArgs args]
       else ret None) in
    let* joblist :=
      generate_joblist env comparisons_to_run existingfiles args in
    run_anim_jobs env joblist args ;;
    update_comparison_results env joblist nucmer_version args ;;
    update_comparison_matrices args.

(** The state in which [subcmd_anim] starts: the Comparison table holds
    [rows], the session is clean and no [Run] object exists yet. *)
Definition no_run : Run :=
  Run.mk "" "" "" "" "" [] [] None None None None None.

Definition start (rows : list Comparison) : State := mkState rows [] no_run [].

Definition subcmd_anim (env : Env) (args : Args) (rows : list Comparison)
  : res unit * State :=
  subcmd_anim_body env args (start rows).

(** ** Vocabulary of the statements *)

(** The part of [subcmd_anim] up to and including the reduction loop; its
    value is [comparisons_to_run].  [subcmd_anim_body_split] below shows
    that [subcmd_anim_body] is this prefix followed by [dispatch]. *)
Definition nucmer_version_of (env : Env) (args : Args) : string :=
  get_version env (Args.nucmer_exe args).

Definition deltadir_of (env : Env) (args : Args) : string :=
  PyStr.join (Args.outdir args) (ALIGNDIR_ANIm env).

Definition deduplicate (env : Env) (args : Args)
  : M (list (Genome * Genome)) :=
  (if get_session env (Args.dbpath args) then ret tt
   else raise (SystemExit 1)) ;;
  set_run (λ _, new_run env args) ;;
  (if add_run env then session_commit else raise (SystemExit 1)) ;;
  (match add_run_genomes env (Args.indir args) with
   | Ok gs => set_run (with_genomes gs)
   | Raise _ => raise (SystemExit 1)
   end) ;;
  (if makedirs env (deltadir_of env args) then ret tt
   else raise (SystemError 1)) ;;
  let* genomes := gets (λ st, Run.genomes (run st)) in
  let* rows := query_all_comparisons in
  reduce_comparisons (existing_comparisons_of rows)
    (nucmer_version_of env args) args (combinations2 genomes).

Definition dispatch (env : Env) (args : Args)
    (comparisons_to_run : list (Genome * Genome)) : M unit :=
  if decide (length comparisons_to_run = 0%nat) then
    update_comparison_matrices args
  else
    let* existingfiles :=
      (if Args.recovery args
       then py_call (collect_existing_output env)
              [VStr (deltadir_of env args); VArgs args]
       else ret None) in
    let* joblist :=
      generate_joblist env comparisons_to_run existingfiles args in
    run_anim_jobs env joblist args ;;
    update_comparison_results env joblist (nucmer_version_of env args) args ;;
    update_comparison_matrices args.

(** A stored row answers the lookup made for a candidate pair. *)
Definition known (rows : list Comparison) (nucmer_version : string)
    (args : Args) (pair : Genome * Genome) : Prop :=
  ∃ c, c ∈ rows ∧ key_of c = lookup_key nucmer_version args pair.

(** The expected final output file of a pair, when the NUCmer command has
    an output prefix at all. *)
Definition expected_outfile (env : Env) (args : Args)
    (pair : Genome * Genome) : option string :=
  let ncmd :=
    (construct_nucmer_cmdline env (Genome.path pair.1) (Genome.path pair.2)
       (Args.outdir args) (Args.nucmer_exe args) (Args.filter_exe args)
       (Args.maxmatch args)).1 in
  (λ outprefix, expected_outfname outprefix args) <$> PyStr.split ncmd !! 3%nat.

(** The record that Section 4.5 of the specification asks for, written
    from its words: coverage is alignment length over genome length,
    identity is one minus errors over alignment length. *)
Definition expected_comparison (nucmer_version : string) (args : Args)
    (job : ComparisonJob) (aln_length sim_errs : Z) : Comparison :=
  {| Comparison.query := ComparisonJob.query job;
     Comparison.subject := ComparisonJob.subject job;
     Comparison.aln_length := aln_length;
     Comparison.sim_errs := sim_errs;
     Comparison.identity :=
       PrimFloat.sub PyNum.one (PyNum.quotient sim_errs aln_length);
     Comparison.cov_query :=
       PyNum.quotient aln_length (Genome.length (ComparisonJob.query job));
     Comparison.cov_subject :=
       PyNum.quotient aln_length (Genome.length (ComparisonJob.subject job));
     Comparison.program := "nucmer";
     Comparison.version := nucmer_version;
     Comparison.fragsize := None;
     Comparison.maxmatch := Args.maxmatch args |}.

(** Two comparisons are about the same unordered pair of genomes. *)
Definition same_pair (c c' : Comparison) : Prop :=
  (Comparison.query_id c = Comparison.query_id c'
   ∧ Comparison.subject_id c = Comparison.subject_id c')
  ∨ (Comparison.query_id c = Comparison.subject_id c'
     ∧ Comparison.subject_id c = Comparison.query_id c').

Fixpoint distinct_pairs (cs : list Comparison) : Prop :=
  match cs with
  | [] => True
  | c :: cs' => Forall (λ c', ¬ same_pair c c') cs' ∧ distinct_pairs cs'
  end.

(** What the store guarantees about a run handed to the matrix step:
    genome identifiers are primary keys, every comparison of the run joins
    two different genomes of the run, and no two comparisons of the run
    are about the same pair. *)
Record run_consistent (r : Run) : Prop := mk_run_consistent {
  genome_ids_unique : NoDup (Genome.genome_id <$> Run.genomes r);
  comparisons_within_run :
    Forall (λ c, Comparison.query_id c ≠ Comparison.subject_id c
                 ∧ Comparison.query_id c ∈ (Genome.genome_id <$> Run.genomes r)
                 ∧ Comparison.subject_id c ∈ (Genome.genome_id <$> Run.genomes r))
           (Run.comparisons r);
  comparisons_distinct : distinct_pairs (Run.comparisons r)
}.

(** A frame is square over the labels [ids]. *)
Definition square_over (ids : list Z) (df : DataFrame) : Prop :=
  DataFrame.index df = ids ∧ DataFrame.columns df = ids
  ∧ length (DataFrame.values df) = length ids
  ∧ Forall (λ row, length row = length ids) (DataFrame.values df).

(** The pairs the reduction loop keeps, the rows it attaches, and the
    state after one row was attached and committed. *)
Definition pairs_to_run (existing : gmap comparison_key Comparison)
    (nucmer_version : string) (args : Args) (pairs : list (Genome * Genome))
  : list (Genome * Genome) :=
  filter (λ p, existing !! lookup_key nucmer_version args p = None) pairs.

Definition rows_reused (existing : gmap comparison_key Comparison)
    (nucmer_version : string) (args : Args) (pairs : list (Genome * Genome))
  : list Comparison :=
  omap (λ p, existing !! lookup_key nucmer_version args p) pairs.

Definition attached (st : State) (c : Comparison) : State :=
  mkState (db_comparisons st ++ session_new st) []
          (with_comparison c (run st)) (trace st).

(** The steps before the reduction loop all succeed, and [genomes] are
    the genomes of the run. *)
Definition setup_succeeds (env : Env) (args : Args) (genomes : list Genome)
  : Prop :=
  get_session env (Args.dbpath args) = true
  ∧ add_run env = true
  ∧ add_run_genomes env (Args.indir args) = Ok genomes
  ∧ makedirs env (deltadir_of env args) = true.

(** The work set and the state once the reduction loop has finished, for a
    store that held [rows] when [subcmd_anim] was entered. *)
Definition work_set (env : Env) (args : Args) (rows : list Comparison)
    (genomes : list Genome) : list (Genome * Genome) :=
  pairs_to_run (existing_comparisons_of rows) (nucmer_version_of env args)
    args (combinations2 genomes).

Definition deduplicated (env : Env) (args : Args) (rows : list Comparison)
    (genomes : list Genome) : State :=
  foldl attached
    (mkState rows [] (with_genomes genomes (new_run env args)) [])
    (rows_reused (existing_comparisons_of rows) (nucmer_version_of env args)
       args (combinations2 genomes)).

(** A job whose delta file parses to [parsed] and whose divisions are all
    defined: no divisor is zero and the three quotients are within the
    range of a float. *)
Definition ingestible (env : Env) (job : ComparisonJob) (parsed : Z * Z)
  : Prop :=
  parse_delta env (ComparisonJob.outfile job) = Ok parsed
  ∧ parsed.1 ≠ 0
  ∧ Genome.length (ComparisonJob.query job) ≠ 0
  ∧ Genome.length (ComparisonJob.subject job) ≠ 0
  ∧ PyNum.overflows parsed.1 (Genome.length (ComparisonJob.query job)) = false
  ∧ PyNum.overflows parsed.1 (Genome.length (ComparisonJob.subject job))
    = false
  ∧ PyNum.overflows parsed.2 parsed.1 = false.

(** The state after one job was ingested with the expected record. *)
Definition ingested (nucmer_version : string) (args : Args) (st : State)
    (jp : ComparisonJob * (Z * Z)) : State :=
  let c := expected_comparison nucmer_version args jp.1 jp.2.1 jp.2.2 in
  mkState (db_comparisons st) (session_new st ++ [c])
          (with_comparison c (run st))
          (trace st ++ [EvParseDelta (ComparisonJob.outfile jp.1)]).

Definition expected_comparisons (nucmer_version : string) (args : Args)
    (joblist : list ComparisonJob) (parsed : list (Z * Z)) : list Comparison :=
  zip_with (λ job p, expected_comparison nucmer_version args job p.1 p.2)
    joblist parsed.

(** The job built for the pair at position [idx] of the work set, when
    the NUCmer command has a fourth word. *)
Definition job_for (env : Env) (args : Args) (item : nat * (Genome * Genome))
  : option ComparisonJob :=
  let '(idx, (query, subject)) := item in
  let cmds :=
    construct_nucmer_cmdline env (Genome.path query) (Genome.path subject)
      (Args.outdir args) (Args.nucmer_exe args) (Args.filter_exe args)
      (Args.maxmatch args) in
  outprefix ← PyStr.split cmds.1 !! 3%nat;
  Some (ComparisonJob.mk query subject cmds.2 cmds.1
          (expected_outfname outprefix args)
          (add_dependency
             (mkJob (Args.jobprefix args +:+ "_" +:+ fmt_06d idx +:+ "-f")
                cmds.2 [])
             (mkJob (Args.jobprefix args +:+ "_" +:+ fmt_06d idx +:+ "-n")
                cmds.1 []))).

(** Recovery finds the job's final output among the existing files. *)
Definition recovered (args : Args) (existingfiles : list string)
    (job : ComparisonJob) : bool :=
  Args.recovery args
  && bool_decide (PyStr.basename (ComparisonJob.outfile job) ∈ existingfiles).

(** The job emitted for an item of the work set, if any. *)
Definition emitted (env : Env) (args : Args) (existingfiles : list string)
    (item : nat * (Genome * Genome)) : option ComparisonJob :=
  job ← job_for env args item;
  if recovered args existingfiles job then None else Some job.

(** A comparison is about the genomes labelled [a] and [b], in either
    role. *)
Definition compares (c : Comparison) (a b : Z) : Prop :=
  (Comparison.query_id c = a ∧ Comparison.subject_id c = b)
  ∨ (Comparison.query_id c = b ∧ Comparison.subject_id c = a).

(** The two assignments one comparison makes to one frame: [f] gives the
    value written at [query, subject], [g] the one at [subject, query]. *)
Definition fill_pair (f g : Comparison → float) (df : DataFrame)
    (cmp : Comparison) : DataFrame :=
  DataFrame.loc_set (Comparison.subject_id cmp) (Comparison.query_id cmp) (g cmp)
    (DataFrame.loc_set (Comparison.query_id cmp) (Comparison.subject_id cmp)
       (f cmp) df).

(** The row and column labels of the run's matrices. *)
Definition genome_ids_of (r : Run) : list Z :=
  merge_sort Z.le (Genome.genome_id <$> Run.genomes r).

(** The unordered pair of two labels, and the one a candidate pair or a
    comparison is about. *)
Definition unordered (a b : Z) : Z * Z := (Z.min a b, Z.max a b).

Definition pair_label (p : Genome * Genome) : Z * Z :=
  unordered (Genome.genome_id p.1) (Genome.genome_id p.2).

Definition comparison_label (c : Comparison) : Z * Z :=
  unordered (Comparison.query_id c) (Comparison.subject_id c).

(** None of the five matrix fields of the run has been assigned. *)
Definition matrices_unset (r : Run) : Prop :=
  Run.df_identity r = None ∧ Run.df_coverage r = None
  ∧ Run.df_alnlength r = None ∧ Run.df_simerrors r = None
  ∧ Run.df_hadamard r = None.

(** All five matrix fields of the run hold a frame. *)
Definition matrices_set (r : Run) : Prop :=
  is_Some (Run.df_identity r) ∧ is_Some (Run.df_coverage r)
  ∧ is_Some (Run.df_alnlength r) ∧ is_Some (Run.df_simerrors r)
  ∧ is_Some (Run.df_hadamard r).

(** Two runs agree on their five matrix fields. *)
Definition same_matrices (r r' : Run) : Prop :=
  Run.df_identity r = Run.df_identity r'
  ∧ Run.df_coverage r = Run.df_coverage r'
  ∧ Run.df_alnlength r = Run.df_alnlength r'
  ∧ Run.df_simerrors r = Run.df_simerrors r'
  ∧ Run.df_hadamard r = Run.df_hadamard r'.

(** The one call [run_anim_jobs] makes for a job list. *)
Definition dispatch_event (args : Args) (joblist : list ComparisonJob) : event :=
  if decide (Args.scheduler args = "multiprocessing")
  then EvRunMultiprocessing (ComparisonJob.job <$> joblist) (Args.workers args)
  else EvRunSGE (ComparisonJob.job <$> joblist) (Args.jobprefix args)
         (Args.sgegroupsize args) (Args.sgeargs args).

(** The two-node chain of one comparison: a filter node whose only
    dependency is the NUCmer node, which depends on nothing; the nodes
    carry the two commands of the job and are named after the job prefix
    and the position [idx] of the pair. *)
Definition chain_of (args : Args) (idx : nat) (cj : ComparisonJob) : Prop :=
  ComparisonJob.job cj
  = mkJob (Args.jobprefix args +:+ "_" +:+ fmt_06d idx +:+ "-f")
      (ComparisonJob.filtercmd cj)
      [mkJob (Args.jobprefix args +:+ "_" +:+ fmt_06d idx +:+ "-n")
         (ComparisonJob.nucmercmd cj) []].

(** The names of the nodes of a job: its own and those of the nodes it
    depends on. *)
Definition node_names (cj : ComparisonJob) : list string :=
  job_name (ComparisonJob.job cj)
  :: (job_name <$> job_dependencies (ComparisonJob.job cj)).

#[global] Instance compares_dec c a b : Decision (compares c a b).
Proof. unfold compares. apply _. Defined.

(** The number of occurrences of a character in a string, and a test on
    all the characters of a string. *)
Fixpoint count_char (c : ascii) (s : string) : nat :=
  match s with
  | "" => 0%nat
  | String c' s' => ((if decide (c' = c) then 1 else 0) + count_char c s')%nat
  end.
Fixpoint all_chars (P : ascii → bool) (s : string) : bool :=
  match s with
  | "" => true
  | String c s' => P c && all_chars P s'
  end.

(** A name that is empty or made of dots only. *)
Definition only_dots (s : string) : bool :=
  all_chars (λ c, bool_decide (c = "."%char)) s.

(** * pyani: downloads from NCBI (pyani/download.py) *)

Module Download.

(** ** Exceptions, results and actions on the outside world

    [HTTPError] is a subclass of [URLError], which is a subclass of
    [OSError]; [IOError] is another name of [OSError]. *)
Inductive exn : Type :=
  | HTTPError
  | URLError
  | OSError
  | ValueError
  | KeyError
  | IndexError
  | NCBIDownloadException (msg : string).

Definition is_URLError (e : exn) : bool :=
  match e with HTTPError | URLError => true | _ => false end.
Definition is_IOError (e : exn) : bool :=
  match e with HTTPError | URLError | OSError => true | _ => false end.
Definition is_KeyError_or_IndexError (e : exn) : bool :=
  match e with KeyError | IndexError => true | _ => false end.

Inductive res (A : Type) : Type :=
  | Ok (a : A)
  | Raise (e : exn).
Arguments Ok {A} a.
Arguments Raise {A} e.

#[global] Instance res_ret : MRet res := λ A a, Ok a.
#[global] Instance res_bind : MBind res := λ A B f m,
  match m with Ok a => f a | Raise e => Raise e end.

(** A call that reaches the network or the file system acts on a world
    [W]: it returns or raises, and leaves a new world. *)
Definition IO (W A : Type) : Type := W → res A * W.

Definition ret {W A} (a : A) : IO W A := λ w, (Ok a, w).
Definition bind {W A B} (m : IO W A) (k : A → IO W B) : IO W B :=
  λ w,
    match m w with
    | (Ok a, w') => k a w'
    | (Raise e, w') => (Raise e, w')
    end.
Definition lift {W A} (r : res A) : IO W A := λ w, (r, w).

Notation "'let!' x := m 'in' k" := (bind m (λ x, k))
  (at level 10, x pattern, m at level 100, k at level 200, only parsing).

(** ** Python primitives *)

(** [d[key]] on a dictionary, [l[i]] on a list and [s[0]] on a string. *)
Definition subscript {A} (v : option A) : res A :=
  match v with Some a => Ok a | None => Raise KeyError end.
Definition getitem {A} (l : list A) (i : nat) : res A :=
  match l !! i with Some a => Ok a | None => Raise IndexError end.
Definition first_char (s : string) : res string :=
  match s with String c _ => Ok (String c "") | "" => Raise IndexError end.

(** [range(start, stop, step)]. *)
Definition py_range (start stop step : Z) : res (list Z) :=
  if decide (step = 0) then Raise ValueError
  else
    let n := if decide (0 < step) then (stop - start + step - 1) `div` step
             else (start - stop - step - 1) `div` (- step) in
    Ok ((λ i : nat, start + Z.of_nat i * step) <$> seq 0 (Z.to_nat n)).

(** [s.split(sep, maxsplit)] for a separator of one character;
    [maxsplit = None] stands for the default [-1]. *)
Fixpoint split_on (sep : ascii) (maxsplit : option nat) (s : string)
  : list string :=
  match s with
  | "" => [""]
  | String c s' =>
      if bool_decide (c = sep) && negb (bool_decide (maxsplit = Some 0%nat))
      then "" :: split_on sep (Nat.pred <$> maxsplit) s'
      else match split_on sep maxsplit s' with
           | h :: t => String c h :: t
           | [] => [String c ""]
           end
  end.

(** [s[i:j]] for non-negative bounds. *)
Definition slice (s : string) (i j : nat) : string :=
  String.substring i (j - i) s.

(** [s.strip()]. *)
Fixpoint lstrip (s : string) : string :=
  match s with
  | String c s' => if PyStr.isspace c then lstrip s' else s
  | "" => ""
  end.
Definition rstrip (s : string) : string :=
  String.rev (lstrip (String.rev s)).
Definition strip (s : string) : string := rstrip (lstrip s).

Fixpoint string_map (f : ascii → ascii) (s : string) : string :=
  match s with
  | "" => ""
  | String c s' => String (f c) (string_map f s')
  end.

Definition tab : string := String "009" "".

(** ** [entrez_retry(func, retries, *fnargs, **fnkwargs)]

    [func] is the call of [func] on the arguments passed through.  The loop runs while no
    call has returned and [tries < retries]; [remaining] is
    [retries - tries].  An exception that is neither [HTTPError] nor
    [URLError] leaves the function. *)
Fixpoint entrez_retry_loop {W A} (func : IO W A) (remaining : nat)
  : IO W A :=
  λ w,
    match remaining with
    | O => (Raise (NCBIDownloadException "Too many Entrez failures"), w)
    | S n =>
        match func w with
        | (Ok output, w') => (Ok output, w')
        | (Raise e, w') =>
            if is_URLError e then entrez_retry_loop func n w'
            else (Raise e, w')
        end
    end.

Definition entrez_retry {W A} (func : IO W A) (retries : Z) : IO W A :=
  entrez_retry_loop func (Z.to_nat retries).

(** ** [entrez_batch_webhistory(record, expected, batchsize, retries, ...)]

    [Entrez.efetch] with the arguments the function fixes ([retstart],
    [retmax], [webenv], [query_key]; the others are passed through and
    are part of [efetch] here), and [Entrez.read] on the handle. *)
Record Entrez (W Handle Item : Type) : Type := mkEntrez {
  efetch : Z → Z → string → string → IO W Handle;
  read : Handle → IO W (list Item)
}.
Arguments efetch {W Handle Item}.
Arguments read {W Handle Item}.

Fixpoint batch_loop {W Handle Item} (E : Entrez W Handle Item)
    (record : gmap string string) (batchsize retries : Z)
    (starts : list Z) (results : list Item) : IO W (list Item) :=
  match starts with
  | [] => ret results
  | start :: starts' =>
      let! webenv := lift (subscript (record !! "WebEnv")) in
      let! query_key := lift (subscript (record !! "QueryKey")) in
      let! batch_handle :=
        entrez_retry (efetch E start batchsize webenv query_key) retries in
      let! batch_record := read E batch_handle in
      batch_loop E record batchsize retries starts' (results ++ batch_record)
  end.

Definition entrez_batch_webhistory {W Handle Item} (E : Entrez W Handle Item)
    (record : gmap string string) (expected batchsize retries : Z)
  : IO W (list Item) :=
  let! starts := lift (py_range 0 expected batchsize) in
  batch_loop E record batchsize retries starts [].

(** ** [split_taxa(taxa)] *)

Definition is_digit (c : ascii) : bool :=
  match c with
  | "0" | "1" | "2" | "3" | "4" | "5" | "6" | "7" | "8" | "9" => true
  | _ => false
  end%char.

(** [taxonregex.match(taxa)] for the pattern [([0-9]\,?){1,}]: the match
    starts at the first character and the group is repeated greedily, a
    digit and then a comma if there is one; the result is the length of
    [match.group()], or [None] if the group does not match once. *)
Fixpoint taxonregex_groups (s : string) : nat :=
  match s with
  | String c s' =>
      if is_digit c then
        match s' with
        | String "," s'' => S (S (taxonregex_groups s''))
        | _ => S (taxonregex_groups s')
        end
      else 0%nat
  | "" => 0%nat
  end.

Definition taxonregex_match (s : string) : option nat :=
  let n := taxonregex_groups s in
  if decide (n = 0%nat) then None else Some n.

Definition split_taxa (taxa : string) : res (list string) :=
  match taxonregex_match taxa with
  | None => Raise ValueError
  | Some n =>
      if decide (n ≠ String.length taxa) then Raise ValueError
      else Ok (filter (λ taxon, String.length taxon ≠ 0%nat)
                 (split_on "," None taxa))
  end.

(** ** The eSummary record

    The keys the module reads, each of which may be missing. *)
Record Infraspecies : Type := mkInfraspecies {
  Sub_value : option string
}.
Record Biosource : Type := mkBiosource {
  InfraspeciesList : option (list Infraspecies)
}.
Record ESummary : Type := mkESummary {
  AssemblyName : option string;
  AssemblyAccession : option string;
  SpeciesName : option string;
  Biosource_ : option Biosource
}.

(** ** [extract_filestem(esummary)] *)

(** The class [[\s/,#\(\)]]. *)
Definition escapes (c : ascii) : bool :=
  PyStr.isspace c
  || match c with
     | "/" | "," | "#" | "(" | ")" => true
     | _ => false
     end%char.

Definition re_sub_escapes (s : string) : string :=
  string_map (λ c, if escapes c then "_"%char else c) s.

Definition extract_filestem (esummary : ESummary) : res string :=
  name ← subscript (AssemblyName esummary);
  let escname := re_sub_escapes name in
  accession ← subscript (AssemblyAccession esummary);
  Ok (String.concat "_" [accession; escname]).

(** ** [get_ncbi_classification(esummary)] *)

Record Classification : Type := mkClassification {
  organism : string;
  genus : string;
  species : string;
  strain : string
}.

Definition infraspecies_sub_value (esummary : ESummary) : res string :=
  biosource ← subscript (Biosource_ esummary);
  infraspecies ← subscript (InfraspeciesList biosource);
  first ← getitem infraspecies 0;
  subscript (Sub_value first).

Definition get_ncbi_classification (esummary : ESummary)
  : res Classification :=
  organism ← subscript (SpeciesName esummary);
  strain ←
    match infraspecies_sub_value esummary with
    | Ok strain => Ok strain
    | Raise e => if is_KeyError_or_IndexError e then Ok "" else Raise e
    end;
  match split_on " " (Some 1%nat) organism with
  | [genus; species] => Ok (mkClassification organism genus species strain)
  | _ => Raise ValueError
  end.

(** ** [compile_url(filestem, suffix, ftpstem)] *)

Definition compile_url (filestem suffix ftpstem : string)
  : res (string * string) :=
  match split_on "_" (Some 2%nat) filestem with
  | [gc; aa; an] =>
      aaval ← getitem (split_on "." None aa) 0;
      starts ← py_range 0 (Z.of_nat (String.length aaval)) 3;
      let subdirs :=
        String.concat "/"
          ((λ i, slice aa (Z.to_nat i) (Z.to_nat (i + 3))) <$> starts) in
      let url :=
        ftpstem +:+ "/" +:+ gc +:+ "/" +:+ subdirs +:+ "/" +:+ filestem
        +:+ "/" +:+ filestem +:+ "_" +:+ suffix in
      let hashurl :=
        ftpstem +:+ "/" +:+ gc +:+ "/" +:+ subdirs +:+ "/" +:+ filestem
        +:+ "/" +:+ "md5checksums.txt" in
      Ok (url, hashurl)
  | _ => Raise ValueError
  end.

(** ** [construct_output_paths(filestem, suffix, outdir)] *)

Definition construct_output_paths (filestem suffix outdir : string)
  : string * string :=
  let outfname := PyStr.join outdir (String.concat "_" [filestem; suffix]) in
  let outfhash :=
    PyStr.join outdir (String.concat "_" [filestem; "hashes.txt"]) in
  (outfname, outfhash).

(** ** [retrieve_genome_and_hash(filestem, suffix, ftpstem, outdir, timeout)]

    [download_url] and [last_exception] are the functions of the module
    that reach the network and the interpreter; [last_exception] gives
    the text of the exception being handled. *)
Record DLStatus : Type := mkDLStatus {
  url : string;
  hashurl : string;
  outfname : string;
  outfhash : string;
  skipped : bool;
  error : option string
}.

Record Net (W : Type) : Type := mkNet {
  download_url : string → string → Z → IO W unit;
  last_exception : exn → string
}.
Arguments download_url {W}.
Arguments last_exception {W}.

(** [try: body except IOError: handler]. *)
Definition try_except_IOError {W A} (body : IO W A) (handler : exn → IO W A)
  : IO W A :=
  λ w,
    match body w with
    | (Ok a, w') => (Ok a, w')
    | (Raise e, w') => if is_IOError e then handler e w' else (Raise e, w')
    end.

Definition retrieve_genome_and_hash {W} (N : Net W)
    (filestem suffix ftpstem outdir : string) (timeout : Z) : IO W DLStatus :=
  let skipped := false in
  let error := None in
  let! urls := lift (compile_url filestem suffix ftpstem) in
  let '(url, hashurl) := urls in
  let '(outfname, outfhash) :=
    construct_output_paths filestem suffix outdir in
  let! error :=
    try_except_IOError
      (let! _ := download_url N url outfname timeout in
       let! _ := download_url N hashurl outfhash timeout in
       ret error)
      (λ e, ret (Some (last_exception N e))) in
  ret (mkDLStatus url hashurl outfname outfhash skipped error).

(** ** [extract_hash(hashfile, name)] and [check_hash(fname, hashfile)]

    [open(hashfile, "r")] gives the lines of the file or raises;
    [create_hash] is the MD5 digest of a file's contents. *)
Record Files : Type := mkFiles {
  readlines : string → res (list string);
  create_hash : string → res string
}.

Definition hash_lines (lines : list string) : list (list string) :=
  (λ l, PyStr.split (strip l))
    <$> filter (λ l, String.length (strip l) ≠ 0%nat) lines.

Fixpoint extract_hash_loop (name : string) (ls : list (list string))
    (filehash : option string) : res (option string) :=
  match ls with
  | [] => Ok filehash
  | l :: ls' =>
      path ← getitem l 1;
      if decide (PyStr.basename path = name)
      then (hash ← getitem l 0; extract_hash_loop name ls' (Some hash))
      else extract_hash_loop name ls' filehash
  end.

Definition extract_hash (F : Files) (hashfile name : string)
  : res (option string) :=
  let filehash := None in
  lines ← readlines F hashfile;
  extract_hash_loop name (hash_lines lines) filehash.

Record Hashstatus : Type := mkHashstatus {
  passed : bool;
  localhash : string;
  filehash : option string
}.

Definition check_hash (F : Files) (fname hashfile : string) : res Hashstatus :=
  localhash ← create_hash F fname;
  let localfname := PyStr.basename fname in
  filehash ← extract_hash F hashfile localfname;
  let passed := bool_decide (filehash = Some localhash) in
  Ok (mkHashstatus passed localhash filehash).

(** ** [create_labels(classification, filestem, hash)] *)

Definition create_labels (classification : Classification)
    (filestem hash : string) : res (string * string) :=
  initial ← first_char (genus classification);
  let labeltxt :=
    hash +:+ tab +:+ filestem +:+ "_genomic" +:+ tab +:+ initial +:+ "."
    +:+ " " +:+ species classification +:+ " " +:+ strain classification in
  let classtxt :=
    hash +:+ tab +:+ filestem +:+ "_genomic" +:+ tab
    +:+ organism classification in
  Ok (labeltxt, classtxt).

(** ** Vocabulary of the statements *)

(** The world after the first [k] calls of [func], and the outcome of the
    call that follows them. *)
Fixpoint world_after {W A} (func : IO W A) (k : nat) (w : W) : W :=
  match k with
  | O => w
  | S k' => world_after func k' (func w).2
  end.
Definition call {W A} (func : IO W A) (k : nat) (w : W) : res A :=
  (func (world_after func k w)).1.
Definition network_failure {A} (r : res A) : Prop :=
  match r with
  | Raise e => is_URLError e = true
  | Ok _ => False
  end.

(** A taxon identifier: one digit or more. *)
Definition taxon (t : string) : Prop :=
  t ≠ "" ∧ all_chars is_digit t = true.

(** [taxa] lists the identifiers [ts], separated by commas, with or
    without a comma after the last one. *)
Definition taxon_list (taxa : string) (ts : list string) : Prop :=
  ts ≠ [] ∧ Forall taxon ts
  ∧ (taxa = String.concat "," ts ∨ taxa = String.concat "," ts +:+ ",").

(** The characters that [extract_filestem] replaces, spelled out: the
    blanks (tab, line feed, vertical tab, form feed, carriage return, the
    four separators 28 to 31, space, next line, no-break space), slash,
    comma, hash and the two round brackets. *)
Definition escaped_class : list ascii :=
  ["009"; "010"; "011"; "012"; "013"; "028"; "029"; "030"; "031"; " ";
   "133"; "160"; "/"; ","; "#"; "("; ")"]%char.

(** The ["Sub_value"] of the first entry of the ["InfraspeciesList"] of
    ["Biosource"], if all of them are there. *)
Definition first_sub_value (esummary : ESummary) : option string :=
  biosource ← Biosource_ esummary;
  infraspecies ← InfraspeciesList biosource;
  first ← head infraspecies;
  Sub_value first.

(** A string cut in pieces of three characters, the last one shorter if
    need be. *)
Fixpoint chunks3 (s : string) : list string :=
  match s with
  | String a (String b (String c s')) =>
      String a (String b (String c "")) :: chunks3 s'
  | "" => []
  | _ => [s]
  end.

(** The hash of a line of the hash file that names [name]. *)
Definition hash_for (name : string) (l : list string) : option string :=
  match l with
  | hash :: path :: _ =>
      if decide (PyStr.basename path = name) then Some hash else None
  | _ => None
  end.

End Download.

(** ** A concrete analysis, used to run the definitions

    Three genomes A, B and C; the store may already hold the comparison of
    A with B.  [nucmer_cmdline] stands in for
    [anim.construct_nucmer_cmdline] and builds commands of the same shape:
    the output prefix is the fourth word of the NUCmer command. *)
Module Scenario.

Definition gA : Genome := Genome.mk 1 "A.fna" 5000000 "genome A".
Definition gB : Genome := Genome.mk 2 "B.fna" 4800000 "genome B".
Definition gC : Genome := Genome.mk 3 "C.fna" 5200000 "genome C".

Definition nucmer_cmdline (fname1 fname2 outdir nucmer_exe filter_exe : string)
    (maxmatch : bool) : string * string :=
  let outprefix :=
    PyStr.join (PyStr.join outdir "nucmer_output")
      (fname1 +:+ "_vs_" +:+ fname2) in
  (nucmer_exe +:+ (if maxmatch then " --maxmatch" else " --mum")
     +:+ " -p " +:+ outprefix +:+ " " +:+ fname1 +:+ " " +:+ fname2,
   "delta_filter_wrapper.py " +:+ filter_exe +:+ " -1 "
     +:+ outprefix +:+ ".delta " +:+ outprefix +:+ ".filter").

(** The collaborators: [genomes] are registered for the run, the local
    executor answers [cumval], and every delta file parses to
    [parsed].  The output directory already holds the filtered output
    of A against C. *)
Definition env (genomes : list Genome) (cumval : Z) (parsed : Z * Z) : Env :=
  {| get_version := λ _, "3.1";
     now_isoformat := "2018-06-01T12:00:00";
     get_session := λ _, true;
     add_run := true;
     add_run_genomes := λ _, Ok genomes;
     ALIGNDIR_ANIm := "nucmer_output";
     makedirs := λ _, true;
     construct_nucmer_cmdline := nucmer_cmdline;
     listdir := λ _, Ok ["A.fna_vs_C.fna.filter"; "notes.txt"];
     mp_run_dependency_graph := λ _ _, cumval;
     parse_delta := λ _, Ok parsed |}.

Definition args (recovery : bool) : Args :=
  {| Args.name := None;
     Args.cmdline := "pyani anim in out";
     Args.dbpath := ".pyani/pyanidb";
     Args.indir := "in";
     Args.outdir := "out";
     Args.nucmer_exe := "nucmer";
     Args.filter_exe := "delta-filter";
     Args.maxmatch := false;
     Args.nofilter := false;
     Args.recovery := recovery;
     Args.scheduler := "multiprocessing";
     Args.workers := None;
     Args.jobprefix := "ANIm";
     Args.sgegroupsize := 10000;
     Args.sgeargs := "" |}.

(** A row as an earlier run left it. *)
Definition cAB : Comparison :=
  {| Comparison.query := gA;
     Comparison.subject := gB;
     Comparison.aln_length := 2400000;
     Comparison.sim_errs := 600000;
     Comparison.identity := 0.75;
     Comparison.cov_query := 0.4375;
     Comparison.cov_subject := 0.5;
     Comparison.program := "nucmer";
     Comparison.version := "3.1";
     Comparison.fragsize := None;
     Comparison.maxmatch := false |}.

Definition job (query subject : Genome) (idx : nat) : ComparisonJob :=
  let cmds :=
    nucmer_cmdline (Genome.path query) (Genome.path subject) "out" "nucmer"
      "delta-filter" false in
  let outprefix :=
    "out/nucmer_output/" +:+ Genome.path query +:+ "_vs_"
      +:+ Genome.path subject in
  {| ComparisonJob.query := query;
     ComparisonJob.subject := subject;
     ComparisonJob.filtercmd := cmds.2;
     ComparisonJob.nucmercmd := cmds.1;
     ComparisonJob.outfile := outprefix +:+ ".filter";
     ComparisonJob.job :=
       mkJob ("ANIm_" +:+ fmt_06d idx +:+ "-f") cmds.2
         [mkJob ("ANIm_" +:+ fmt_06d idx +:+ "-n") cmds.1 []] |}.

(** A run over C, A and B (in the order the store returned them) to
which the stored comparison of A with B is attached. *)
Definition run_CAB : Run :=
with_comparison cAB
  (with_genomes [gC; gA; gB] (new_run (env [gC; gA; gB] 0 (0, 0)) (args false))).

End Scenario.

(** * Properties *)

(** ** Running the monad *)

Lemma bind_Ok {A B} (m : M A) (k : A → M B) st a st' :
  m st = (Ok a, st') → bind m k st = k a st'.
Proof. intros H. unfold bind. by rewrite H. Qed.

Lemma bind_Raise {A B} (m : M A) (k : A → M B) st e st' :
  m st = (Raise e, st') → bind m k st = (Raise e, st').
Proof. intros H. unfold bind. by rewrite H. Qed.

Lemma bind_assoc {A B C} (m : M A) (k : A → M B) (h : B → M C) st :
  bind (bind m k) h st = bind m (λ a, bind (k a) h) st.
Proof. unfold bind. destruct (m st) as [[a|e] st']; [|done]. done. Qed.

Lemma bind_ext {A B} (m : M A) (k1 k2 : A → M B) st :
  (∀ a st', k1 a st' = k2 a st') → bind m k1 st = bind m k2 st.
Proof. intros H. unfold bind. destruct (m st) as [[a|e] st']; [apply H|done]. Qed.

Lemma for_fold_app {A B} (l1 l2 : list A) (acc : B) (body : B → A → M B) st :
  for_fold (l1 ++ l2) acc body st
  = bind (for_fold l1 acc body) (λ acc', for_fold l2 acc' body) st.
Proof.
  revert acc st. induction l1 as [|x l1 IH]; intros acc st; simpl; [done|].
  rewrite bind_assoc. unfold bind at 1 2.
  destruct (body acc x st) as [[acc'|e] st']; [|done].
  by rewrite IH.
Qed.

(** [subcmd_anim] is the deduplication prefix followed by [dispatch]. *)
Lemma subcmd_anim_body_split env args st :
  subcmd_anim_body env args st
  = bind (deduplicate env args) (dispatch env args) st.
Proof.
  unfold subcmd_anim_body, deduplicate, dispatch.
  unfold nucmer_version_of, deltadir_of.
  repeat (rewrite bind_assoc; apply bind_ext; clear st; intros ? st).
  done.
Qed.

(** ** The dictionary of stored comparisons *)

Lemma existing_comparisons_of_snoc rows c :
  existing_comparisons_of (rows ++ [c])
  = <[key_of c := c]> (existing_comparisons_of rows).
Proof. unfold existing_comparisons_of. by rewrite foldl_app. Qed.

(** A hit is a stored row, and it has exactly the key asked for. *)
Lemma existing_comparisons_of_Some rows k c :
  existing_comparisons_of rows !! k = Some c → c ∈ rows ∧ key_of c = k.
Proof.
  induction rows as [|c' rows IH] using rev_ind; [done|].
  rewrite existing_comparisons_of_snoc, lookup_insert.
  case_decide as Hk.
  - intros [= <-]. split; [|done]. apply elem_of_app. right. by left.
  - intros [??]%IH. split; [|done]. apply elem_of_app. by left.
Qed.

(** Every stored row is found under its key. *)
Lemma existing_comparisons_of_known rows c :
  c ∈ rows → is_Some (existing_comparisons_of rows !! key_of c).
Proof.
  induction rows as [|c' rows IH] using rev_ind; [by intros ?%elem_of_nil|].
  rewrite existing_comparisons_of_snoc, lookup_insert.
  intros [Hc | ->%list_elem_of_singleton]%elem_of_app.
  - case_decide; [by eexists | by apply IH].
  - rewrite decide_True by done. by eexists.
Qed.

Lemma existing_comparisons_of_None rows v args p :
  existing_comparisons_of rows !! lookup_key v args p = None
  ↔ ¬ known rows v args p.
Proof.
  split.
  - intros Hnone (c & Hc & Hk).
    destruct (existing_comparisons_of_known rows c Hc) as [c' Hc'].
    rewrite Hk, Hnone in Hc'. done.
  - intros Hn. destruct (_ !! _) as [c|] eqn:Hl; [|done].
    destruct Hn. exists c. by apply existing_comparisons_of_Some.
Qed.

(** ** The reduction loop *)

Lemma reduce_comparison_loop existing v args pairs acc st :
  for_fold pairs acc (reduce_comparison existing v args) st
  = (Ok (acc ++ pairs_to_run existing v args pairs),
     foldl attached st (rows_reused existing v args pairs)).
Proof.
  revert acc st. induction pairs as [|p pairs IH]; intros acc st.
  - simpl. unfold ret. by rewrite app_nil_r.
  - simpl. unfold pairs_to_run, rows_reused. simpl.
    unfold bind at 1. unfold reduce_comparison at 1.
    destruct (existing !! lookup_key v args p) as [c|] eqn:Hl.
    + rewrite filter_cons_False by (rewrite Hl; done).
      simpl. rewrite IH. done.
    + rewrite filter_cons_True by done.
      unfold ret at 1. rewrite IH.
      by rewrite <- app_assoc.
Qed.

Lemma foldl_attached_comparisons st cs :
  Run.comparisons (run (foldl attached st cs)) = Run.comparisons (run st) ++ cs.
Proof.
  revert st. induction cs as [|c cs IH]; intros st; simpl.
  - by rewrite app_nil_r.
  - rewrite IH. simpl. by rewrite <- app_assoc.
Qed.


Lemma foldl_attached_clean st cs :
  session_new st = [] →
  db_comparisons (foldl attached st cs) = db_comparisons st
  ∧ session_new (foldl attached st cs) = [].
Proof.
  revert st. induction cs as [|c cs IH]; intros st Hst; simpl; [done|].
  destruct (IH (attached st c)) as [-> ->]; [done|].
  simpl. by rewrite Hst, app_nil_r.
Qed.

Lemma foldl_attached_other st cs :
  trace (foldl attached st cs) = trace st
  ∧ Run.genomes (run (foldl attached st cs)) = Run.genomes (run st)
  ∧ Run.df_identity (run (foldl attached st cs)) = Run.df_identity (run st)
  ∧ Run.df_coverage (run (foldl attached st cs)) = Run.df_coverage (run st)
  ∧ Run.df_alnlength (run (foldl attached st cs)) = Run.df_alnlength (run st)
  ∧ Run.df_simerrors (run (foldl attached st cs)) = Run.df_simerrors (run st)
  ∧ Run.df_hadamard (run (foldl attached st cs)) = Run.df_hadamard (run st).
Proof.
  revert st. induction cs as [|c cs IH]; intros st; simpl; [done|].
  destruct (IH (attached st c)) as (-> & -> & -> & -> & -> & -> & ->). done.
Qed.

(** ** The deduplication prefix of [subcmd_anim] *)

Lemma deduplicate_run env args rows genomes :
  setup_succeeds env args genomes →
  deduplicate env args (start rows)
  = (Ok (work_set env args rows genomes), deduplicated env args rows genomes).
Proof.
  intros (Hs & Hr & Hg & Hm).
  unfold deduplicate. rewrite Hs, Hr, Hg, Hm.
  unfold bind, ret, set_run, session_commit, modify, gets,
    query_all_comparisons, start; simpl.
  unfold reduce_comparisons. rewrite reduce_comparison_loop.
  unfold work_set, deduplicated. simpl. by rewrite !app_nil_r.
Qed.

Lemma deduplicate_Ok env args rows to_run st1 :
  deduplicate env args (start rows) = (Ok to_run, st1) →
  ∃ genomes, setup_succeeds env args genomes.
Proof.
  unfold deduplicate, setup_succeeds.
  unfold bind, ret, raise, set_run, session_commit, modify, start; simpl.
  destruct (get_session env _); [|done]. simpl.
  destruct (add_run env); [|done]. simpl.
  destruct (add_run_genomes env _) as [gs|e]; [|done]. simpl.
  destruct (makedirs env _); [|done].
  intros _. by exists gs.
Qed.

Lemma deduplicated_state env args rows genomes :
  let st1 := deduplicated env args rows genomes in
  db_comparisons st1 = rows
  ∧ session_new st1 = []
  ∧ trace st1 = []
  ∧ Run.genomes (run st1) = genomes
  ∧ Run.comparisons (run st1)
    = rows_reused (existing_comparisons_of rows) (nucmer_version_of env args)
        args (combinations2 genomes)
  ∧ Run.df_identity (run st1) = None
  ∧ Run.df_coverage (run st1) = None
  ∧ Run.df_alnlength (run st1) = None
  ∧ Run.df_simerrors (run st1) = None
  ∧ Run.df_hadamard (run st1) = None.
Proof.
  unfold deduplicated. simpl.
  set (st0 := mkState rows [] _ []).
  set (cs := rows_reused _ _ _ _).
  destruct (foldl_attached_clean st0 cs) as [-> ->]; [done|].
  destruct (foldl_attached_other st0 cs) as (-> & -> & -> & -> & -> & -> & ->).
  rewrite foldl_attached_comparisons. done.
Qed.

Lemma subcmd_anim_after_deduplicate env args rows genomes :
  setup_succeeds env args genomes →
  subcmd_anim env args rows
  = dispatch env args (work_set env args rows genomes)
      (deduplicated env args rows genomes).
Proof.
  intros Hsetup. unfold subcmd_anim.
  rewrite subcmd_anim_body_split.
  by rewrite (bind_Ok _ _ _ _ _ (deduplicate_run env args rows genomes Hsetup)).
Qed.

(** ** Ingestion *)

Lemma ingest_job_run env v args job parsed st :
  ingestible env job parsed →
  ingest_job env v args job st = (Ok tt, ingested v args st (job, parsed)).
Proof.
  intros (Hp & Ha & Hq & Hs & Hoq & Hos & Hoe).
  destruct parsed as [aln errs]. simpl in *.
  unfold ingest_job, anim_parse_delta, emit, modify, lift, bind. simpl.
  rewrite Hp. unfold PyNum.truediv.
  rewrite !decide_False by done. rewrite Hoq, Hos, Hoe.
  reflexivity.
Qed.

(** ** The range of a true division *)

Lemma digits2_pos_lower (p : positive) :
  2 ^ (Zpos (digits2_pos p) - 1) ≤ Zpos p.
Proof.
  induction p as [p IH|p IH|]; cbn [digits2_pos]; [| |done].
  - rewrite Pos2Z.inj_succ.
    replace (Z.succ (Z.pos (digits2_pos p)) - 1)
      with (Z.succ (Z.pos (digits2_pos p) - 1)) by lia.
    rewrite Z.pow_succ_r by lia. lia.
  - rewrite Pos2Z.inj_succ.
    replace (Z.succ (Z.pos (digits2_pos p)) - 1)
      with (Z.succ (Z.pos (digits2_pos p) - 1)) by lia.
    rewrite Z.pow_succ_r by lia. lia.
Qed.

Lemma Zdigits2_bound (m k : Z) :
  0 ≤ m → 0 ≤ k → m < 2 ^ k → Zdigits2 m ≤ k.
Proof.
  intros Hm Hk Hlt. destruct m as [|p|p]; [done| |lia].
  cbn [Zdigits2]. pose proof (digits2_pos_lower p) as Hlow.
  destruct (decide (Zpos (digits2_pos p) ≤ k)) as [|Hgt]; [done|].
  assert (2 ^ k ≤ 2 ^ (Zpos (digits2_pos p) - 1))
    by (apply Z.pow_le_mono_r; lia).
  lia.
Qed.

Lemma shr_m_shr_1 (mrs : shr_record) :
  0 ≤ shr_m mrs → 0 ≤ shr_m (shr_1 mrs) ∧ shr_m (shr_1 mrs) * 2 ≤ shr_m mrs.
Proof.
  destruct mrs as [m r s]. cbn [shr_m]. intros Hm.
  destruct m as [|[p|p|]|p]; cbn; lia.
Qed.

Lemma shr_m_iter (p : positive) (mrs : shr_record) :
  0 ≤ shr_m mrs →
  0 ≤ shr_m (SpecFloat.iter_pos shr_1 p mrs)
  ∧ shr_m (SpecFloat.iter_pos shr_1 p mrs) * 2 ^ Zpos p ≤ shr_m mrs.
Proof.
  revert mrs. induction p as [p IH|p IH|]; intros mrs Hm; cbn [SpecFloat.iter_pos].
  - destruct (shr_m_shr_1 mrs Hm) as [H0 H1].
    destruct (IH _ H0) as [H2 H3]. destruct (IH _ H2) as [H4 H5].
    split; [done|].
    replace (Zpos p~1) with (Z.succ (Zpos p + Zpos p)) by lia.
    rewrite Z.pow_succ_r, Z.pow_add_r by lia.
    assert (0 < 2 ^ Zpos p) by (apply Z.pow_pos_nonneg; lia). nia.
  - destruct (IH _ Hm) as [H2 H3]. destruct (IH _ H2) as [H4 H5].
    split; [done|].
    replace (Zpos p~0) with (Zpos p + Zpos p) by lia.
    rewrite Z.pow_add_r by lia.
    assert (0 < 2 ^ Zpos p) by (apply Z.pow_pos_nonneg; lia). nia.
  - apply shr_m_shr_1 in Hm. by rewrite Z.pow_1_r.
Qed.

Lemma shr_m_record_of_loc (m : Z) (l : location) :
  shr_m (shr_record_of_loc m l) = m.
Proof. by destruct l as [|[]]. Qed.

(** Shifting keeps the value below the bound it had. *)
Lemma shr_fexp_bound (m e : Z) (l : location) (k : Z) :
  0 ≤ m → m < 2 ^ (k - e) → e ≤ k - 53 → -1074 ≤ k - 53 →
  let r := shr_fexp prec emax m e l in
  0 ≤ shr_m r.1 ∧ shr_m r.1 < 2 ^ (k - r.2) ∧ r.2 ≤ k - 53.
Proof.
  intros Hm Hlt He Hk. cbv zeta. unfold shr_fexp, shr.
  assert (Zdigits2 m ≤ k - e) as Hd by (apply Zdigits2_bound; lia).
  assert (fexp prec emax (Zdigits2 m + e) ≤ k - 53) as Hf.
  { unfold fexp, emin, prec, emax. lia. }
  destruct (fexp prec emax (Zdigits2 m + e) - e) as [|n|n] eqn:Hn;
    cbn [fst snd].
  - by rewrite shr_m_record_of_loc.
  - destruct (shr_m_iter n (shr_record_of_loc m l)) as [H0 H1];
      [by rewrite shr_m_record_of_loc|].
    rewrite shr_m_record_of_loc in H1.
    split; [done|]. split; [|lia].
    assert (0 < 2 ^ Zpos n) by (apply Z.pow_pos_nonneg; lia).
    assert (2 ^ (k - e) = 2 ^ (k - (e + Zpos n)) * 2 ^ Zpos n) as Hpow.
    { rewrite <- Z.pow_add_r by lia. f_equal. lia. }
    nia.
  - by rewrite shr_m_record_of_loc.
Qed.

Lemma round_nearest_even_bound (m : Z) (l : location) :
  m ≤ round_nearest_even m l ≤ m + 1.
Proof. destruct l as [|[]]; cbn; try lia. destruct (Z.even m); lia. Qed.

Lemma SFdiv_core_bound (ma mb : positive) :
  Zpos ma < 2 ^ 1023 →
  let r := SFdiv_core_binary prec emax (Zpos ma) 0 (Zpos mb) 0 in
  0 ≤ r.1.1 ∧ r.1.1 < 2 ^ (1023 - r.1.2) ∧ -1074 ≤ r.1.2 ≤ 0.
Proof.
  intros Ha. cbv zeta. unfold SFdiv_core_binary.
  set (e0 := Z.min (fexp prec emax
                      (Zdigits2 (Z.pos ma) + 0 - (Zdigits2 (Z.pos mb) + 0)))
               (0 - 0)).
  assert (e0 ≤ 0) as He0 by (subst e0; lia).
  assert (-1074 ≤ e0) as He0'
    by (subst e0; unfold fexp, emin, prec, emax; lia).
  assert (0 < 2 ^ (- e0)) as Hpow by (apply Z.pow_pos_nonneg; lia).
  assert (2 ^ (1023 - e0) = 2 ^ 1023 * 2 ^ (- e0)) as Hsplit
    by (rewrite <- Z.pow_add_r by lia; f_equal; lia).
  assert (∀ m', 0 ≤ m' → m' < 2 ^ (1023 - e0) →
            0 ≤ (Z.div_eucl m' (Z.pos mb)).1
            ∧ (Z.div_eucl m' (Z.pos mb)).1 < 2 ^ (1023 - e0)) as Hdiv.
  { intros m' Hm0 Hm.
    change ((Z.div_eucl m' (Z.pos mb)).1) with (m' `div` Z.pos mb).
    split; [apply Z.div_pos; lia|].
    eapply Z.le_lt_trans; [|exact Hm].
    apply Z.div_le_upper_bound; [lia|]. nia. }
  destruct (0 - 0 - e0) as [|s|s] eqn:Hs; [| |lia].
  - destruct (Hdiv (Z.pos ma)) as [H0 H1]; [lia|lia|].
    destruct (Z.div_eucl (Z.pos ma) (Z.pos mb)) as [q r]. cbn [fst snd] in *.
    done.
  - rewrite Z.shiftl_mul_pow2 by lia.
    assert (Z.pos s = - e0) as -> by lia.
    destruct (Hdiv (Z.pos ma * 2 ^ (- e0))) as [H0 H1]; [nia|nia|].
    destruct (Z.div_eucl (Z.pos ma * 2 ^ (- e0)) (Z.pos mb)) as [q r].
    cbn [fst snd] in *. done.
Qed.

Lemma SFdiv_finite_bound (sa sb : bool) (ma mb : positive) :
  Zpos ma < 2 ^ 1023 →
  match SFdiv prec emax (S754_finite sa ma 0) (S754_finite sb mb 0) with
  | S754_infinity _ => False
  | _ => True
  end.
Proof.
  intros Ha. cbn [SFdiv].
  pose proof (SFdiv_core_bound ma mb Ha) as Hcore. cbv zeta in Hcore.
  destruct (SFdiv_core_binary prec emax (Z.pos ma) 0 (Z.pos mb) 0)
    as [[q e0] l]. cbn [fst snd] in Hcore.
  destruct Hcore as (Hq0 & Hq & He0' & He0).
  unfold binary_round_aux.
  pose proof (shr_fexp_bound q e0 l 1023 Hq0) as H1. cbv zeta in H1.
  destruct (shr_fexp prec emax q e0 l) as [mrs1 e1]. cbn [fst snd] in H1.
  destruct H1 as (Hm1 & Hm1' & He1); [done|lia|lia|].
  pose proof (round_nearest_even_bound (shr_m mrs1) (loc_of_shr_record mrs1))
    as Hround.
  set (m2 := round_nearest_even (shr_m mrs1) (loc_of_shr_record mrs1)) in *.
  pose proof (shr_fexp_bound m2 e1 loc_Exact 1024) as H2. cbv zeta in H2.
  destruct (shr_fexp prec emax m2 e1 loc_Exact) as [mrs2 e2].
  cbn [fst snd] in H2.
  destruct H2 as (_ & _ & He2); [lia| |lia|lia|].
  { replace (1024 - e1) with (Z.succ (1023 - e1)) by lia.
    rewrite Z.pow_succ_r by lia. lia. }
  destruct (shr_m mrs2); [done| |done].
  replace (e2 <=? emax - prec) with true; [done|].
  symmetry. apply Z.leb_le. unfold emax, prec. lia.
Qed.

(** A quotient whose numerator is below [2 ^ 1023] in magnitude is within
    the range of a float, whatever the divisor. *)
Lemma overflows_bound (a b : Z) :
  Z.abs a < 2 ^ 1023 → b ≠ 0 → PyNum.overflows a b = false.
Proof.
  intros Ha Hb. unfold PyNum.overflows.
  destruct b as [|mb|mb]; [done| |].
  all: destruct a as [|ma|ma]; [done| |].
  all: cbn [PyNum.Z2SF].
  all: match goal with
       | |- context [SFdiv prec emax (S754_finite ?sa ?ma 0)
                       (S754_finite ?sb ?mb 0)] =>
           pose proof (SFdiv_finite_bound sa sb ma mb ltac:(lia)) as H;
           destruct (SFdiv prec emax (S754_finite sa ma 0)
                       (S754_finite sb mb 0))
       end; done.
Qed.

(** Results of ordinary size can be ingested: below [2 ^ 1023] the
    quotients cannot leave the range of a float. *)
Lemma ingestible_in_range env job parsed :
  parse_delta env (ComparisonJob.outfile job) = Ok parsed →
  parsed.1 ≠ 0 →
  Genome.length (ComparisonJob.query job) ≠ 0 →
  Genome.length (ComparisonJob.subject job) ≠ 0 →
  Z.abs parsed.1 < 2 ^ 1023 → Z.abs parsed.2 < 2 ^ 1023 →
  ingestible env job parsed.
Proof.
  intros Hp Ha Hq Hs Hra Hre. unfold ingestible.
  by rewrite !overflows_bound.
Qed.

Lemma overflows_zero b : PyNum.overflows 0 b = false.
Proof. by destruct b. Qed.

(** The three outcomes of a true division. *)
Lemma truediv_outcome a b :
  (PyNum.truediv a b = Raise ZeroDivisionError ∧ b = 0)
  ∨ (PyNum.truediv a b = Raise OverflowError
     ∧ b ≠ 0 ∧ PyNum.overflows a b = true)
  ∨ (PyNum.truediv a b = Ok (PyNum.quotient a b)
     ∧ b ≠ 0 ∧ PyNum.overflows a b = false).
Proof.
  unfold PyNum.truediv. case_decide; [by left|].
  destruct (PyNum.overflows a b); [by right; left|by right; right].
Qed.

(** The divisions of [ingest_job], in the order of the code: [tac] closes
    the case of each fault. *)
Ltac divisions job aln errs tac :=
  destruct (truediv_outcome aln (Genome.length (ComparisonJob.query job)))
    as [[-> ?]|[[-> ?]|[-> [? ?]]]]; simpl; [tac|tac|];
  destruct (truediv_outcome aln (Genome.length (ComparisonJob.subject job)))
    as [[-> ?]|[[-> ?]|[-> [? ?]]]]; simpl; [tac|tac|];
  destruct (truediv_outcome errs aln)
    as [[-> ?]|[[-> ?]|[-> [? ?]]]]; simpl; [tac|tac|].

(** With an alignment length of zero one of the three divisions faults,
    whatever the genome lengths are, and nothing is appended. *)
Lemma ingest_job_zero env v args job errs st :
  parse_delta env (ComparisonJob.outfile job) = Ok (0, errs) →
  ingest_job env v args job st
  = (Raise ZeroDivisionError,
     mkState (db_comparisons st) (session_new st) (run st)
             (trace st ++ [EvParseDelta (ComparisonJob.outfile job)])).
Proof.
  intros Hp.
  unfold ingest_job, anim_parse_delta, emit, modify, lift, bind. simpl.
  rewrite Hp. unfold PyNum.truediv. rewrite !overflows_zero.
  repeat case_decide; done.
Qed.

Lemma for_each_ingest env v args joblist parsed st :
  Forall2 (ingestible env) joblist parsed →
  for_each joblist (ingest_job env v args) st
  = (Ok tt, foldl (ingested v args) st (zip joblist parsed)).
Proof.
  intros H. revert st. induction H as [|job p joblist parsed Hj _ IH]; intros st.
  - done.
  - simpl. rewrite (bind_Ok _ _ _ _ _ (ingest_job_run env v args job p st Hj)).
    apply IH.
Qed.

Lemma for_each_app {A} (l1 l2 : list A) (body : A → M unit) st :
  for_each (l1 ++ l2) body st
  = bind (for_each l1 body) (λ _, for_each l2 body) st.
Proof.
  revert st. induction l1 as [|x l1 IH]; intros st; simpl; [done|].
  rewrite bind_assoc. apply bind_ext. intros _ st'. apply IH.
Qed.

Lemma foldl_ingested v args st jps :
  let st' := foldl (ingested v args) st jps in
  db_comparisons st' = db_comparisons st
  ∧ session_new st'
    = session_new st
      ++ ((λ jp, expected_comparison v args jp.1 jp.2.1 jp.2.2) <$> jps)
  ∧ Run.comparisons (run st')
    = Run.comparisons (run st)
      ++ ((λ jp, expected_comparison v args jp.1 jp.2.1 jp.2.2) <$> jps)
  ∧ Run.genomes (run st') = Run.genomes (run st)
  ∧ trace st'
    = trace st ++ ((λ jp, EvParseDelta (ComparisonJob.outfile jp.1)) <$> jps).
Proof.
  revert st. induction jps as [|jp jps IH]; intros st; simpl.
  - by rewrite !app_nil_r.
  - destruct (IH (ingested v args st jp)) as (-> & -> & -> & -> & ->).
    simpl. by rewrite <- !app_assoc.
Qed.

Lemma expected_comparisons_zip v args joblist parsed :
  (λ jp, expected_comparison v args jp.1 jp.2.1 jp.2.2) <$> zip joblist parsed
  = expected_comparisons v args joblist parsed.
Proof.
  unfold expected_comparisons. revert parsed.
  induction joblist as [|job joblist IH]; intros [|p parsed]; simpl; [done..|].
  by rewrite IH.
Qed.

(** C6.  Every job whose output parses to a non-zero alignment length (and
    whose genomes have a length to divide by, the three quotients being
    within the range of a float) is ingested: the run gains,
    in job order, one Comparison per job with query coverage = alignment
    length / query length, subject coverage = alignment length / subject
    length, identity = 1 - errors / alignment length, program "nucmer", the
    given version, no fragment size and the configured maxmatch flag; the
    commit then writes them to the store. *)
Theorem update_comparison_results_ingests env joblist parsed v args st :
  Forall2 (ingestible env) joblist parsed →
  let r := update_comparison_results env joblist v args st in
  let new := expected_comparisons v args joblist parsed in
  r.1 = Ok tt
  ∧ Run.comparisons (run r.2) = Run.comparisons (run st) ++ new
  ∧ db_comparisons r.2 = db_comparisons st ++ session_new st ++ new
  ∧ session_new r.2 = [].
Proof.
  intros H. unfold update_comparison_results.
  rewrite (bind_Ok _ _ _ _ _ (for_each_ingest env v args joblist parsed st H)).
  unfold session_commit, modify. simpl.
  destruct (foldl_ingested v args st (zip joblist parsed))
    as (-> & -> & -> & _ & _).
  rewrite expected_comparisons_zip. done.
Qed.

Lemma update_comparison_results_ingests_witness :
  let env := Scenario.env [Scenario.gA; Scenario.gC] 0 (2400000, 600000) in
  let joblist := [Scenario.job Scenario.gA Scenario.gC 0] in
  Forall2 (ingestible env) joblist [(2400000, 600000)]
  ∧ (update_comparison_results env joblist "3.1" (Scenario.args false)
       (start [Scenario.cAB])).1 = Ok tt
  ∧ db_comparisons
      (update_comparison_results env joblist "3.1" (Scenario.args false)
         (start [Scenario.cAB])).2
    = [Scenario.cAB;
       Comparison.mk Scenario.gA Scenario.gC 2400000 600000 0.75
         0x1.eb851eb851eb8p-2 0x1.d89d89d89d89ep-2 "nucmer" "3.1" None false].
Proof.
  intros env joblist.
  assert (H : Forall2 (ingestible env) joblist [(2400000, 600000)]).
  { repeat constructor; simpl; lia. }
  split; [exact H|].
  destruct (update_comparison_results_ingests env joblist _ "3.1"
              (Scenario.args false) (start [Scenario.cAB]) H)
    as (Hok & _ & Hdb & _).
  split; [exact Hok|]. rewrite Hdb. vm_compute. reflexivity.
Defined.

(** C1, as the code behaves.  A job whose output parses to an alignment
    length of zero makes [update_comparison_results] raise
    [ZeroDivisionError]: no Comparison is recorded for that job, the jobs
    after it are not reached, and the commit is not reached either, so the
    store gains nothing. *)
Theorem zero_alignment_length_raises env pre job post parsed errs v args st :
  Forall2 (ingestible env) pre parsed →
  parse_delta env (ComparisonJob.outfile job) = Ok (0, errs) →
  let r := update_comparison_results env (pre ++ job :: post) v args st in
  r.1 = Raise ZeroDivisionError
  ∧ Run.comparisons (run r.2)
    = Run.comparisons (run st) ++ expected_comparisons v args pre parsed
  ∧ db_comparisons r.2 = db_comparisons st.
Proof.
  intros Hpre Hzero.
  assert (E : update_comparison_results env (pre ++ job :: post) v args st
              = (Raise ZeroDivisionError,
                 let st' := foldl (ingested v args) st (zip pre parsed) in
                 mkState (db_comparisons st') (session_new st') (run st')
                   (trace st' ++ [EvParseDelta (ComparisonJob.outfile job)]))).
  { unfold update_comparison_results.
    apply bind_Raise. rewrite for_each_app.
    rewrite (bind_Ok _ _ _ _ _ (for_each_ingest env v args pre parsed st Hpre)).
    simpl. apply bind_Raise. by apply (ingest_job_zero _ _ _ _ errs). }
  cbv zeta. rewrite E. simpl.
  destruct (foldl_ingested v args st (zip pre parsed))
    as (-> & _ & -> & _ & _).
  rewrite expected_comparisons_zip. done.
Qed.

Lemma zero_alignment_length_raises_witness :
  let env := Scenario.env [Scenario.gA; Scenario.gC] 0 (0, 0) in
  let job := Scenario.job Scenario.gA Scenario.gC 0 in
  parse_delta env (ComparisonJob.outfile job) = Ok (0, 0)
  ∧ (update_comparison_results env [job] "3.1" (Scenario.args false)
       (start [])).1 = Raise ZeroDivisionError
  ∧ Run.comparisons
      (run (update_comparison_results env [job] "3.1" (Scenario.args false)
              (start [])).2) = []
  ∧ db_comparisons
      (update_comparison_results env [job] "3.1" (Scenario.args false)
         (start [])).2 = [].
Proof.
  intros env job. split; [reflexivity|].
  apply (zero_alignment_length_raises env [] job [] [] 0 "3.1"
           (Scenario.args false) (start [])); [constructor | reflexivity].
Defined.

(** ** The recovery scanner *)

(** C2, as the code behaves.  Called with its three arguments,
    [collect_existing_output] lists the directory, builds the collection
    of names with the expected suffix, and returns [None]: the collection
    is never the value of the call. *)
Theorem collect_existing_output_returns_None env dirpath args st :
  (py_call (collect_existing_output env) [VStr dirpath; VArgs args; VLogger]
     st).1
  = match listdir env dirpath with
    | Ok _ => Ok None
    | Raise e => Raise e
    end.
Proof.
  unfold py_call. simpl.
  unfold collect_existing_output_body, os_listdir, emit, modify, lift, bind, ret.
  simpl. by destruct (listdir env dirpath).
Qed.

(** The scenario's output directory holds one filtered output; the
    comprehension finds it and the call still answers [None]. *)
Example collect_existing_output_scenario :
  let env := Scenario.env [Scenario.gA; Scenario.gC] 0 (0, 0) in
  listdir env "out/nucmer_output" = Ok ["A.fna_vs_C.fna.filter"; "notes.txt"]
  ∧ existing_output_files ["A.fna_vs_C.fna.filter"; "notes.txt"]
      (Scenario.args true) = ["A.fna_vs_C.fna.filter"]
  ∧ (py_call (collect_existing_output env)
       [VStr "out/nucmer_output"; VArgs (Scenario.args true); VLogger]
       (start [])).1 = Ok None.
Proof. repeat split; reflexivity. Qed.

(** A call with two arguments never enters the body. *)
Lemma collect_existing_output_two_arguments env dirpath args st :
  py_call (collect_existing_output env) [VStr dirpath; VArgs args] st
  = (Raise TypeError, st).
Proof. reflexivity. Qed.

(** ** [subcmd_anim] after the reduction loop *)

Lemma update_comparison_matrices_run args st :
  update_comparison_matrices args st
  = (Ok tt,
     let m := comparison_matrices (run st) in
     mkState (db_comparisons st ++ session_new st) []
       (with_matrices (Matrices.df_identity m) (Matrices.df_coverage m)
          (Matrices.df_alnlength m) (Matrices.df_simerrors m)
          (Matrices.df_hadamard m) (run st))
       (trace st)).
Proof. reflexivity. Qed.

(** C10.  With the recovery flag set and a non-empty work set,
    [subcmd_anim] calls [collect_existing_output] with two arguments where
    three are declared, so it raises [TypeError] in the state the reduction
    loop left: the store is as it was, no matrix is written, and no
    collaborator was called, so no job was built or dispatched. *)
Theorem recovery_mode_raises_TypeError env args rows genomes :
  setup_succeeds env args genomes →
  work_set env args rows genomes ≠ [] →
  Args.recovery args = true →
  subcmd_anim env args rows
  = (Raise TypeError, deduplicated env args rows genomes)
  ∧ trace (deduplicated env args rows genomes) = []
  ∧ db_comparisons (deduplicated env args rows genomes) = rows.
Proof.
  intros Hsetup Hwork Hrec.
  rewrite (subcmd_anim_after_deduplicate env args rows genomes Hsetup).
  destruct (deduplicated_state env args rows genomes)
    as (Hdb & _ & Htr & _).
  split; [|done].
  unfold dispatch.
  destruct (decide (length (work_set env args rows genomes) = 0%nat))
    as [Hlen|_].
  { by apply nil_length_inv in Hlen. }
  rewrite Hrec. apply bind_Raise. apply collect_existing_output_two_arguments.
Qed.

Lemma recovery_mode_raises_TypeError_witness :
  let env :=
    Scenario.env [Scenario.gA; Scenario.gB; Scenario.gC] 0 (2400000, 600000) in
  let genomes := [Scenario.gA; Scenario.gB; Scenario.gC] in
  setup_succeeds env (Scenario.args true) genomes
  ∧ work_set env (Scenario.args true) [Scenario.cAB] genomes
    = [(Scenario.gA, Scenario.gC); (Scenario.gB, Scenario.gC)]
  ∧ (subcmd_anim env (Scenario.args true) [Scenario.cAB]).1 = Raise TypeError.
Proof.
  intros env genomes.
  assert (Hs : setup_succeeds env (Scenario.args true) genomes)
    by (repeat split; reflexivity).
  assert (Hw : work_set env (Scenario.args true) [Scenario.cAB] genomes
               = [(Scenario.gA, Scenario.gC); (Scenario.gB, Scenario.gC)])
    by (vm_compute; reflexivity).
  split; [exact Hs|]. split; [exact Hw|].
  destruct (recovery_mode_raises_TypeError env (Scenario.args true)
              [Scenario.cAB] genomes Hs) as (-> & _).
  - rewrite Hw. discriminate.
  - reflexivity.
  - reflexivity.
Defined.

(** ** The job builder *)

Lemma generate_job_run env files args joblist item st :
  generate_job env (Some files) args joblist item st
  = (match job_for env args item with
     | Some job =>
         if recovered args files job then Ok joblist else Ok (joblist ++ [job])
     | None => Raise IndexError
     end, st).
Proof.
  destruct item as [idx [query subject]].
  unfold generate_job, job_for, recovered.
  destruct (construct_nucmer_cmdline env _ _ _ _ _ _) as [ncmd dcmd]. simpl.
  unfold getitem, bind.
  destruct (PyStr.split ncmd !! 3%nat) as [outprefix|]; [|done]. simpl.
  destruct (Args.recovery args); simpl; [|done].
  case_bool_decide; done.
Qed.

(** Without the recovery flag the collection is not consulted. *)
Lemma generate_job_no_recovery env ef args joblist item st :
  Args.recovery args = false →
  generate_job env ef args joblist item st
  = generate_job env (Some []) args joblist item st.
Proof.
  intros Hrec. destruct item as [idx [query subject]].
  unfold generate_job.
  destruct (construct_nucmer_cmdline env _ _ _ _ _ _) as [ncmd dcmd].
  rewrite Hrec. done.
Qed.

Lemma generate_job_state env ef args joblist item st :
  (generate_job env ef args joblist item st).2 = st.
Proof.
  destruct item as [idx [query subject]].
  unfold generate_job.
  destruct (construct_nucmer_cmdline env _ _ _ _ _ _) as [ncmd dcmd].
  unfold getitem, bind, py_in.
  destruct (PyStr.split ncmd !! 3%nat) as [outprefix|]; [|done]. simpl.
  destruct (Args.recovery args); [|done].
  destruct ef as [files|]; [|done]. simpl.
  by case_bool_decide.
Qed.

Lemma for_fold_generate_job_state env ef args items acc st :
  (for_fold items acc (generate_job env ef args) st).2 = st.
Proof.
  revert acc st. induction items as [|item items IH]; intros acc st; [done|].
  simpl. unfold bind.
  pose proof (generate_job_state env ef args acc item st) as Hst.
  destruct (generate_job env ef args acc item st) as [[acc'|e] st'];
    simpl in Hst; subst st'; [apply IH | done].
Qed.

Lemma generate_joblist_state env comparisons ef args st :
  (generate_joblist env comparisons ef args st).2 = st.
Proof. apply for_fold_generate_job_state. Qed.

(** When the job list is returned, it is the emitted jobs in order. *)
Lemma for_fold_generate_job_Ok env files args items acc joblist st st' :
  for_fold items acc (generate_job env (Some files) args) st
  = (Ok joblist, st') →
  joblist = acc ++ omap (emitted env args files) items
  ∧ Forall (λ item, is_Some (job_for env args item)) items.
Proof.
  revert acc st. induction items as [|item items IH]; intros acc st.
  - simpl. intros [= <- <-]. by rewrite app_nil_r.
  - simpl. unfold bind. rewrite generate_job_run. unfold emitted.
    destruct (job_for env args item) as [job|] eqn:Hjob; [|done]. simpl.
    destruct (recovered args files job).
    + intros [-> ?]%IH. split; [done|]. constructor; [by eexists|done].
    + intros [-> ?]%IH. split; [by rewrite <- app_assoc|].
      constructor; [by eexists|done].
Qed.

Lemma for_fold_generate_job_total env files args items acc st :
  Forall (λ item, is_Some (job_for env args item)) items →
  for_fold items acc (generate_job env (Some files) args) st
  = (Ok (acc ++ omap (emitted env args files) items), st).
Proof.
  intros H. revert acc st.
  induction H as [|item items [job Hjob] _ IH]; intros acc st.
  - simpl. unfold ret. by rewrite app_nil_r.
  - simpl. unfold bind. rewrite generate_job_run. unfold emitted.
    rewrite Hjob. simpl.
    destruct (recovered args files job); rewrite IH; [done|].
    by rewrite <- app_assoc.
Qed.

(** ** Outcomes of [subcmd_anim] *)

(** C9, counterexample.  Genomes A and B with their comparison already
    stored: the work set is empty and [subcmd_anim] returns normally. *)
Lemma empty_work_set_returns_normally :
  let env := Scenario.env [Scenario.gA; Scenario.gB] 0 (0, 0) in
  work_set env (Scenario.args false) [Scenario.cAB] [Scenario.gA; Scenario.gB]
  = []
  ∧ (subcmd_anim env (Scenario.args false) [Scenario.cAB]).1 = Ok tt
  ∧ ∀ e, (subcmd_anim env (Scenario.args false) [Scenario.cAB]).1 ≠ Raise e.
Proof. vm_compute. repeat split; done. Qed.

(** C9, amended.  When the work set is empty, [subcmd_anim] writes the five
    matrices computed from the reused rows and returns normally: nothing is
    dispatched or parsed and the store gains no Comparison. *)
Theorem empty_work_set_updates_matrices env args rows genomes :
  setup_succeeds env args genomes →
  work_set env args rows genomes = [] →
  let r := subcmd_anim env args rows in
  let m := comparison_matrices (run (deduplicated env args rows genomes)) in
  r.1 = Ok tt
  ∧ db_comparisons r.2 = rows
  ∧ trace r.2 = []
  ∧ Run.comparisons (run r.2)
    = rows_reused (existing_comparisons_of rows) (nucmer_version_of env args)
        args (combinations2 genomes)
  ∧ Run.df_identity (run r.2) = Some (Matrices.df_identity m)
  ∧ Run.df_coverage (run r.2) = Some (Matrices.df_coverage m)
  ∧ Run.df_alnlength (run r.2) = Some (Matrices.df_alnlength m)
  ∧ Run.df_simerrors (run r.2) = Some (Matrices.df_simerrors m)
  ∧ Run.df_hadamard (run r.2) = Some (Matrices.df_hadamard m).
Proof.
  intros Hsetup Hwork. cbv zeta.
  rewrite (subcmd_anim_after_deduplicate env args rows genomes Hsetup).
  unfold dispatch. rewrite Hwork. rewrite decide_True by done.
  rewrite update_comparison_matrices_run. simpl.
  destruct (deduplicated_state env args rows genomes)
    as (-> & -> & -> & _ & -> & _).
  by rewrite app_nil_r.
Qed.

Lemma empty_work_set_updates_matrices_witness :
  let env := Scenario.env [Scenario.gA; Scenario.gB] 0 (0, 0) in
  let genomes := [Scenario.gA; Scenario.gB] in
  let r := subcmd_anim env (Scenario.args false) [Scenario.cAB] in
  setup_succeeds env (Scenario.args false) genomes
  ∧ work_set env (Scenario.args false) [Scenario.cAB] genomes = []
  ∧ r.1 = Ok tt
  ∧ db_comparisons r.2 = [Scenario.cAB]
  ∧ trace r.2 = [].
Proof.
  intros env genomes r.
  assert (Hs : setup_succeeds env (Scenario.args false) genomes)
    by (repeat split; reflexivity).
  assert (Hw : work_set env (Scenario.args false) [Scenario.cAB] genomes = [])
    by (vm_compute; reflexivity).
  destruct (empty_work_set_updates_matrices env (Scenario.args false)
              [Scenario.cAB] genomes Hs Hw) as (H1 & H2 & H3 & _).
  repeat split; assumption.
Defined.





(** ** Deduplication *)


(** The scenario of Section 8 of the specification: with A-B stored, the
    work set is A-C and B-C and the stored row joins the run. *)
Example reduce_comparisons_scenario :
  let r :=
    reduce_comparisons (existing_comparisons_of [Scenario.cAB]) "3.1"
      (Scenario.args false)
      (combinations2 [Scenario.gA; Scenario.gB; Scenario.gC]) (start []) in
  r.1 = Ok [(Scenario.gA, Scenario.gC); (Scenario.gB, Scenario.gC)]
  ∧ Run.comparisons (run r.2) = [Scenario.cAB].
Proof. vm_compute. done. Qed.

(** ** Recovery and ingestion *)

Lemma ingest_job_comparisons env v args job st :
  let r := ingest_job env v args job st in
  Run.comparisons (run r.2) = Run.comparisons (run st)
  ∨ ∃ c, Run.comparisons (run r.2) = Run.comparisons (run st) ++ [c]
         ∧ Comparison.query c = ComparisonJob.query job
         ∧ Comparison.subject c = ComparisonJob.subject job.
Proof.
  unfold ingest_job, anim_parse_delta, emit, modify, lift, bind. simpl.
  destruct (parse_delta env _) as [[aln errs]|e]; [|by left].
  divisions job aln errs ltac:(by left).
  right. by eexists.
Qed.

Lemma for_each_ingest_comparisons env v args joblist st :
  let r := for_each joblist (ingest_job env v args) st in
  ∃ cs, Run.comparisons (run r.2) = Run.comparisons (run st) ++ cs
        ∧ Forall (λ c, ∃ job, job ∈ joblist
                     ∧ Comparison.query c = ComparisonJob.query job
                     ∧ Comparison.subject c = ComparisonJob.subject job) cs.
Proof.
  revert st. induction joblist as [|job joblist IH]; intros st.
  - exists []. simpl. by rewrite app_nil_r.
  - simpl. unfold bind.
    pose proof (ingest_job_comparisons env v args job st) as Hjob.
    destruct (ingest_job env v args job st) as [[[]|e] st1]; simpl in Hjob.
    + destruct (IH st1) as (cs & Hcs & Hall).
      assert (Hall' : Forall (λ c, ∃ job', job' ∈ job :: joblist
                 ∧ Comparison.query c = ComparisonJob.query job'
                 ∧ Comparison.subject c = ComparisonJob.subject job') cs).
      { eapply Forall_impl; [exact Hall|].
        intros c (job' & ? & ?). exists job'. split; [by right|done]. }
      destruct Hjob as [Hjob|(c & Hjob & Hq & Hs)].
      * exists cs. split; [by rewrite Hcs, Hjob|done].
      * exists (c :: cs). split.
        { rewrite Hcs, Hjob. by rewrite <- app_assoc. }
        constructor; [|done]. exists job. split; [by left|done].
    + destruct Hjob as [Hjob|(c & Hjob & Hq & Hs)].
      * exists []. simpl. by rewrite app_nil_r.
      * exists [c]. split; [done|].
        constructor; [|done]. exists job. split; [by left|done].
Qed.

Lemma update_comparison_results_comparisons env v args joblist st :
  let r := update_comparison_results env joblist v args st in
  ∃ cs, Run.comparisons (run r.2) = Run.comparisons (run st) ++ cs
        ∧ Forall (λ c, ∃ job, job ∈ joblist
                     ∧ Comparison.query c = ComparisonJob.query job
                     ∧ Comparison.subject c = ComparisonJob.subject job) cs.
Proof.
  cbv zeta. unfold update_comparison_results, bind.
  destruct (for_each_ingest_comparisons env v args joblist st)
    as (cs & Hcs & Hall).
  destruct (for_each joblist (ingest_job env v args) st) as [[[]|e] st1];
    exists cs; done.
Qed.

Lemma job_for_pair env args item job :
  job_for env args item = Some job →
  ComparisonJob.query job = item.2.1
  ∧ ComparisonJob.subject job = item.2.2
  ∧ expected_outfile env args item.2 = Some (ComparisonJob.outfile job).
Proof.
  destruct item as [idx [query subject]]. unfold job_for, expected_outfile.
  simpl. destruct (PyStr.split _ !! 3%nat) as [outprefix|]; [|done].
  simpl. by intros [= <-].
Qed.

Lemma emitted_recovered env args files idx q s outfname :
  Args.recovery args = true →
  expected_outfile env args (q, s) = Some outfname →
  PyStr.basename outfname ∈ files →
  emitted env args files (idx, (q, s)) = None.
Proof.
  intros Hrec Hout Hin. unfold emitted.
  destruct (job_for env args (idx, (q, s))) as [job|] eqn:Hjob; [|done].
  simpl. apply job_for_pair in Hjob as (_ & _ & Hjob). simpl in Hjob.
  rewrite Hout in Hjob. injection Hjob as ->.
  unfold recovered. rewrite Hrec. simpl.
  by rewrite bool_decide_eq_true_2.
Qed.

(** C7.  In recovery mode, a pair of the work set whose expected final
    output file has its basename among the existing files gets no job:
    [generate_joblist] (which returns the emitted jobs in order and calls
    no collaborator) emits no ComparisonJob with that query and subject,
    hence builds no nodes for it, and [update_comparison_results], whatever
    its outcome, appends no Comparison with that query and subject. *)
Theorem recovered_pair_is_skipped env comparisons files args st joblist st'
    q s outfname :
  generate_joblist env comparisons (Some files) args st = (Ok joblist, st') →
  Args.recovery args = true →
  (q, s) ∈ comparisons →
  expected_outfile env args (q, s) = Some outfname →
  PyStr.basename outfname ∈ files →
  st' = st
  ∧ joblist = omap (emitted env args files) (imap pair comparisons)
  ∧ (∀ idx, emitted env args files (idx, (q, s)) = None)
  ∧ (∀ job, job ∈ joblist →
       ¬ (ComparisonJob.query job = q ∧ ComparisonJob.subject job = s))
  ∧ ∀ v,
      let r := update_comparison_results env joblist v args st' in
      ∃ cs, Run.comparisons (run r.2) = Run.comparisons (run st') ++ cs
            ∧ Forall (λ c, ¬ (Comparison.query c = q
                              ∧ Comparison.subject c = s)) cs.
Proof.
  intros Hgen Hrec Hin Hout Hfile.
  pose proof (generate_joblist_state env comparisons (Some files) args st) as Hst.
  rewrite Hgen in Hst. simpl in Hst. subst st'.
  apply for_fold_generate_job_Ok in Hgen as [Hjobs _]. simpl in Hjobs.
  assert (Hnone : ∀ idx, emitted env args files (idx, (q, s)) = None).
  { intros idx. by apply (emitted_recovered env args files idx q s outfname). }
  assert (Hno : ∀ job, job ∈ joblist →
            ¬ (ComparisonJob.query job = q ∧ ComparisonJob.subject job = s)).
  { intros job Hjob [Hq Hs]. subst joblist.
    apply list_elem_of_omap in Hjob as ([idx [q' s']] & _ & Hem).
    unfold emitted in Hem.
    destruct (job_for env args (idx, (q', s'))) as [job'|] eqn:Hfor; [|done].
    simpl in Hem. destruct (recovered args files job') eqn:Hr; [done|].
    injection Hem as ->.
    destruct (job_for_pair _ _ _ _ Hfor) as (Hq' & Hs' & _).
    simpl in Hq', Hs'.
    rewrite Hq in Hq'. rewrite Hs in Hs'. subst q' s'.
    specialize (Hnone idx). unfold emitted in Hnone.
    rewrite Hfor in Hnone. simpl in Hnone. by rewrite Hr in Hnone. }
  repeat split; [done..|].
  intros v. cbv zeta.
  destruct (update_comparison_results_comparisons env v args joblist st)
    as (cs & Hcs & Hall).
  exists cs. split; [done|].
  eapply Forall_impl; [exact Hall|].
  intros c (job & Hjob & Hq & Hs) [Hq' Hs'].
  apply (Hno job Hjob). split; congruence.
Qed.

Lemma recovered_pair_is_skipped_witness :
  let env :=
    Scenario.env [Scenario.gA; Scenario.gB; Scenario.gC] 0 (2400000, 600000) in
  let comparisons := [(Scenario.gA, Scenario.gC); (Scenario.gB, Scenario.gC)] in
  let files := ["A.fna_vs_C.fna.filter"; "notes.txt"] in
  let joblist := [Scenario.job Scenario.gB Scenario.gC 1] in
  generate_joblist env comparisons (Some files) (Scenario.args true) (start [])
  = (Ok joblist, start [])
  ∧ expected_outfile env (Scenario.args true) (Scenario.gA, Scenario.gC)
    = Some "out/nucmer_output/A.fna_vs_C.fna.filter"
  ∧ PyStr.basename "out/nucmer_output/A.fna_vs_C.fna.filter" ∈ files
  ∧ ∀ job, job ∈ joblist →
      ¬ (ComparisonJob.query job = Scenario.gA
         ∧ ComparisonJob.subject job = Scenario.gC).
Proof.
  intros env comparisons files joblist.
  assert (Hg : generate_joblist env comparisons (Some files)
                 (Scenario.args true) (start []) = (Ok joblist, start []))
    by (vm_compute; reflexivity).
  assert (Ho : expected_outfile env (Scenario.args true)
                 (Scenario.gA, Scenario.gC)
               = Some "out/nucmer_output/A.fna_vs_C.fna.filter")
    by (vm_compute; reflexivity).
  assert (Hb : PyStr.basename "out/nucmer_output/A.fna_vs_C.fna.filter" ∈ files)
    by (vm_compute; left).
  split; [exact Hg|]. split; [exact Ho|]. split; [exact Hb|].
  destruct (recovered_pair_is_skipped env comparisons files (Scenario.args true)
              (start []) joblist (start []) Scenario.gA Scenario.gC _
              Hg eq_refl ltac:(left) Ho Hb) as (_ & _ & _ & H & _).
  exact H.
Defined.

(** ** Two runs in a row *)

(** What a successful ingestion of one job leaves behind. *)
Lemma ingest_job_Ok env v args job st st' :
  ingest_job env v args job st = (Ok tt, st') →
  ∃ c, db_comparisons st' = db_comparisons st
       ∧ session_new st' = session_new st ++ [c]
       ∧ key_of c
         = lookup_key v args (ComparisonJob.query job, ComparisonJob.subject job)
       ∧ Run.genomes (run st') = Run.genomes (run st)
       ∧ Run.comparisons (run st') = Run.comparisons (run st) ++ [c].
Proof.
  unfold ingest_job, anim_parse_delta, emit, modify, lift, bind. simpl.
  destruct (parse_delta env _) as [[aln errs]|e]; [|done].
  divisions job aln errs ltac:(done).
  intros [= <-]. by eexists.
Qed.

Lemma for_each_ingest_Ok env v args joblist st st' :
  for_each joblist (ingest_job env v args) st = (Ok tt, st') →
  ∃ cs, db_comparisons st' = db_comparisons st
        ∧ session_new st' = session_new st ++ cs
        ∧ Forall2 (λ job c,
             key_of c = lookup_key v args
                          (ComparisonJob.query job, ComparisonJob.subject job))
            joblist cs
        ∧ Run.genomes (run st') = Run.genomes (run st)
        ∧ Run.comparisons (run st') = Run.comparisons (run st) ++ cs.
Proof.
  revert st. induction joblist as [|job joblist IH]; intros st.
  - simpl. intros [= <-]. exists []. by rewrite !app_nil_r.
  - simpl. unfold bind.
    destruct (ingest_job env v args job st) as [[[]|e] st1] eqn:Hjob; [|done].
    apply ingest_job_Ok in Hjob as (c & Hdb & Hnew & Hkey & Hg & Hc).
    intros (cs & Hdb' & Hnew' & Hall & Hg' & Hc')%IH.
    exists (c :: cs). split; [congruence|]. split.
    + rewrite Hnew', Hnew. by rewrite <- app_assoc.
    + split; [by constructor|]. split; [congruence|].
      rewrite Hc', Hc. by rewrite <- app_assoc.
Qed.

Lemma run_anim_jobs_state env joblist args st :
  let r := run_anim_jobs env joblist args st in
  db_comparisons r.2 = db_comparisons st
  ∧ session_new r.2 = session_new st
  ∧ run r.2 = run st.
Proof.
  unfold run_anim_jobs, run_mp_run_dependency_graph,
    run_sge_run_dependency_graph, emit, modify, bind, ret, raise.
  simpl. repeat case_decide; done.
Qed.

Lemma imap_pair_snd {A} (l : list A) : (imap pair l).*2 = l.
Proof.
  assert (H : ∀ g : nat → nat, (imap (λ i x, (g i, x)) l).*2 = l).
  { induction l as [|x l IH]; intros g; [done|].
    simpl. f_equal. apply (IH (g ∘ S)). }
  apply (H id).
Qed.

(** Without recovery every pair of the work set gets its job. *)
Lemma generate_joblist_no_recovery_Ok env comparisons ef args st joblist st' :
  Args.recovery args = false →
  generate_joblist env comparisons ef args st = (Ok joblist, st') →
  Forall2 (λ pair job,
      ComparisonJob.query job = pair.1 ∧ ComparisonJob.subject job = pair.2)
    comparisons joblist.
Proof.
  intros Hrec. unfold generate_joblist.
  assert (Hgen : ∀ items acc st joblist st',
            for_fold items acc (generate_job env ef args) st = (Ok joblist, st')
            → ∃ jobs, joblist = acc ++ jobs
                ∧ Forall2 (λ pair job,
                     ComparisonJob.query job = pair.1
                     ∧ ComparisonJob.subject job = pair.2) items.*2 jobs).
  { clear st joblist st'. induction items as [|item items IH];
      intros acc st joblist st'.
    - simpl. intros [= <- <-]. exists []. by rewrite app_nil_r.
    - simpl. unfold bind.
      rewrite generate_job_no_recovery, generate_job_run by done.
      destruct (job_for env args item) as [job|] eqn:Hjob; [|done].
      unfold recovered. rewrite Hrec. simpl.
      intros (jobs & -> & Hall)%IH.
      exists (job :: jobs). split; [by rewrite <- app_assoc|].
      constructor; [|done].
      by destruct (job_for_pair _ _ _ _ Hjob) as (? & ? & _). }
  intros (jobs & -> & Hall)%Hgen. simpl.
  by rewrite imap_pair_snd in Hall.
Qed.

(** A successful [dispatch] leaves in the store, for every pair of the work
    set, a new row under the very key the reduction loop looks up. *)
Lemma dispatch_Ok env args to_run st st1 :
  dispatch env args to_run st = (Ok tt, st1) →
  ∃ cs, db_comparisons st1 = db_comparisons st ++ session_new st ++ cs
        ∧ Forall2 (λ p c,
             key_of c = lookup_key (nucmer_version_of env args) args p)
            to_run cs
        ∧ Run.genomes (run st1) = Run.genomes (run st)
        ∧ Run.comparisons (run st1) = Run.comparisons (run st) ++ cs.
Proof.
  unfold dispatch. case_decide as Hlen.
  - apply nil_length_inv in Hlen as ->.
    rewrite update_comparison_matrices_run. intros [= <-]. simpl.
    exists []. by rewrite !app_nil_r.
  - destruct (Args.recovery args) eqn:Hrec.
    { rewrite (bind_Raise _ _ _ _ _
                 (collect_existing_output_two_arguments env _ args st)).
      done. }
    unfold bind at 1. unfold ret at 1.
    unfold bind at 1.
    pose proof (generate_joblist_state env to_run None args st) as Hst.
    destruct (generate_joblist env to_run None args st)
      as [[joblist|e] st2] eqn:Hgen; [|done].
    simpl in Hst. subst st2.
    apply (generate_joblist_no_recovery_Ok _ _ _ _ _ _ _ Hrec) in Hgen.
    unfold bind at 1.
    pose proof (run_anim_jobs_state env joblist args st) as (Hdb & Hnew & Hrun).
    destruct (run_anim_jobs env joblist args st) as [[[]|e] st3]; [|done].
    simpl in Hdb, Hnew, Hrun.
    unfold bind at 1. unfold update_comparison_results. unfold bind at 1.
    destruct (for_each joblist _ st3) as [[[]|e] st4] eqn:Hing; [|done].
    apply for_each_ingest_Ok in Hing as (cs & Hdb4 & Hnew4 & Hall & Hg4 & Hc4).
    unfold session_commit, modify. rewrite update_comparison_matrices_run.
    intros [= <-]. simpl.
    exists cs. split.
    + rewrite Hdb4, Hnew4, Hdb, Hnew. by rewrite app_nil_r.
    + rewrite Hg4, Hc4, Hrun. split; [|done].
      clear -Hgen Hall. revert cs Hall.
      induction Hgen as [|p job to_run joblist [Hq Hs] _ IH]; intros cs Hall.
      * inversion Hall. constructor.
      * inversion Hall as [|?? ? cs' Hk Hrest]; subst.
        constructor; [|by apply IH].
        rewrite Hk, Hq, Hs. by destruct p.
Qed.






(** ** Data frames *)

Lemma position_Some l x i :
  DataFrame.position l x = Some i → l !! i = Some x.
Proof.
  unfold DataFrame.position.
  destruct (list_find _ l) as [[j y]|] eqn:Hf; [|done].
  simpl. intros [= <-].
  by apply list_find_Some in Hf as (? & -> & _).
Qed.

Lemma position_elem_of l x :
  x ∈ l → ∃ i, DataFrame.position l x = Some i ∧ l !! i = Some x.
Proof.
  intros Hx. unfold DataFrame.position.
  destruct (list_find_elem_of (λ y, y = x) l x Hx eq_refl) as [[i y] Hf].
  exists i. rewrite Hf. split; [done|].
  by apply list_find_Some in Hf as (? & -> & _).
Qed.

Lemma square_over_new ids : square_over ids (DataFrame.new ids ids).
Proof.
  unfold square_over, DataFrame.new. simpl.
  split; [done|]. split; [done|]. split; [by rewrite length_replicate|].
  apply Forall_forall. intros row [-> _]%elem_of_replicate.
  by rewrite length_replicate.
Qed.

Lemma loc_new ids r c :
  r ∈ ids → c ∈ ids → DataFrame.loc (DataFrame.new ids ids) r c = Some PyNum.NaN.
Proof.
  intros (i & Hi & Hri)%position_elem_of (j & Hj & Hcj)%position_elem_of.
  unfold DataFrame.loc, DataFrame.new. simpl. rewrite Hi, Hj. simpl.
  rewrite lookup_replicate_2 by (by eapply lookup_lt_Some). simpl.
  by rewrite lookup_replicate_2 by (by eapply lookup_lt_Some).
Qed.

Lemma square_over_fill_diagonal ids v df :
  square_over ids df → square_over ids (DataFrame.fill_diagonal v df).
Proof.
  intros (Hi & Hc & Hlen & Hrows). unfold square_over, DataFrame.fill_diagonal.
  simpl. split; [done|]. split; [done|].
  split; [by rewrite length_imap|].
  apply Forall_lookup. intros i row.
  rewrite list_lookup_imap. intros (row0 & Hrow & ->)%fmap_Some.
  rewrite length_insert. by eapply Forall_lookup_1 in Hrows.
Qed.

Lemma loc_fill_diagonal ids v df r c :
  square_over ids df → r ∈ ids → c ∈ ids →
  DataFrame.loc (DataFrame.fill_diagonal v df) r c
  = if decide (r = c) then Some v else DataFrame.loc df r c.
Proof.
  intros (Hi & Hc & Hlen & Hrows)
    (i & Hpi & Hri)%position_elem_of (j & Hpj & Hcj)%position_elem_of.
  unfold DataFrame.loc, DataFrame.fill_diagonal. simpl.
  rewrite Hi, Hc, Hpi, Hpj. simpl.
  rewrite list_lookup_imap.
  destruct (lookup_lt_is_Some_2 (DataFrame.values df) i) as [row Hrow].
  { rewrite Hlen. by eapply lookup_lt_Some. }
  rewrite Hrow. simpl.
  assert (Hrowlen : length row = length ids)
    by (by eapply Forall_lookup_1 in Hrows).
  case_decide as Hrc.
  - subst c. rewrite Hpi in Hpj. injection Hpj as <-.
    apply list_lookup_insert_eq. rewrite Hrowlen. by eapply lookup_lt_Some.
  - apply list_lookup_insert_ne. intros <-. congruence.
Qed.

Lemma loc_set_present r c v df :
  r ∈ DataFrame.index df → c ∈ DataFrame.columns df →
  DataFrame.loc_set r c v df
  = DataFrame.mk (DataFrame.index df) (DataFrame.columns df)
      (imap (λ i row,
         if decide (DataFrame.index df !! i = Some r)
         then imap (λ j x,
                if decide (DataFrame.columns df !! j = Some c) then v else x)
                row
         else row) (DataFrame.values df)).
Proof.
  intros Hr Hc. unfold DataFrame.loc_set, DataFrame.add_row.
  rewrite decide_True by done.
  unfold DataFrame.add_column. by rewrite decide_True by done.
Qed.

Lemma square_over_loc_set ids r c v df :
  square_over ids df → r ∈ ids → c ∈ ids →
  square_over ids (DataFrame.loc_set r c v df).
Proof.
  intros (Hi & Hc & Hlen & Hrows) Hr Hcin.
  rewrite loc_set_present by (by rewrite ?Hi, ?Hc).
  unfold square_over. simpl. split; [done|]. split; [done|].
  split; [by rewrite length_imap|].
  apply Forall_lookup. intros i row.
  rewrite list_lookup_imap. intros (row0 & Hrow & ->)%fmap_Some.
  eapply Forall_lookup_1 in Hrows; [|done].
  case_decide; [by rewrite length_imap|done].
Qed.

(** Reading after writing: the cell written holds the new value, every
    other cell is as before. *)
Lemma loc_loc_set ids r c v df r' c' :
  square_over ids df → r ∈ ids → c ∈ ids → r' ∈ ids → c' ∈ ids →
  DataFrame.loc (DataFrame.loc_set r c v df) r' c'
  = if decide (r' = r ∧ c' = c) then Some v else DataFrame.loc df r' c'.
Proof.
  intros (Hi & Hc & Hlen & Hrows) Hr Hcin
    (i & Hpi & Hri)%position_elem_of (j & Hpj & Hcj)%position_elem_of.
  rewrite loc_set_present by (by rewrite ?Hi, ?Hc).
  unfold DataFrame.loc. simpl. rewrite Hi, Hc, Hpi, Hpj. simpl.
  rewrite list_lookup_imap.
  destruct (lookup_lt_is_Some_2 (DataFrame.values df) i) as [row Hrow].
  { rewrite Hlen. by eapply lookup_lt_Some. }
  rewrite Hrow. simpl.
  assert (Hrowlen : length row = length ids)
    by (by eapply Forall_lookup_1 in Hrows).
  destruct (lookup_lt_is_Some_2 row j) as [x Hx].
  { rewrite Hrowlen. by eapply lookup_lt_Some. }
  rewrite Hri.
  destruct (decide (Some r' = Some r)) as [[= ->]|Hne].
  - rewrite list_lookup_imap, Hx, Hcj. simpl.
    destruct (decide (Some c' = Some c)) as [[= ->]|Hne].
    + by rewrite decide_True.
    + rewrite decide_False; [done|]. intros [_ ->]. done.
  - rewrite decide_False; [done|]. intros [-> _]. done.
Qed.

(** ** Filling the matrices *)

Lemma square_over_fill_pair ids f g df cmp :
  square_over ids df →
  Comparison.query_id cmp ∈ ids → Comparison.subject_id cmp ∈ ids →
  square_over ids (fill_pair f g df cmp).
Proof.
  intros Hsq Hq Hs. unfold fill_pair.
  by repeat apply square_over_loc_set.
Qed.

Lemma loc_fill_pair ids f g df cmp r c :
  square_over ids df →
  Comparison.query_id cmp ∈ ids → Comparison.subject_id cmp ∈ ids →
  r ∈ ids → c ∈ ids →
  DataFrame.loc (fill_pair f g df cmp) r c
  = if decide (r = Comparison.subject_id cmp ∧ c = Comparison.query_id cmp)
    then Some (g cmp)
    else if decide (r = Comparison.query_id cmp ∧ c = Comparison.subject_id cmp)
         then Some (f cmp)
         else DataFrame.loc df r c.
Proof.
  intros Hsq Hq Hs Hr Hc. unfold fill_pair.
  rewrite (loc_loc_set ids) by (by try apply square_over_loc_set).
  case_decide; [done|].
  by rewrite (loc_loc_set ids).
Qed.

Lemma foldl_fill_pair_square ids f g cs df :
  square_over ids df →
  Forall (λ cmp, Comparison.query_id cmp ∈ ids
                 ∧ Comparison.subject_id cmp ∈ ids) cs →
  square_over ids (foldl (fill_pair f g) df cs).
Proof.
  intros Hsq Hall. revert df Hsq.
  induction Hall as [|cmp cs [Hq Hs] _ IH]; intros df Hsq; simpl; [done|].
  apply IH. by apply square_over_fill_pair.
Qed.

(** A cell no comparison is about keeps its value through the loop. *)
Lemma foldl_fill_pair_untouched ids f g cs df r c :
  square_over ids df →
  Forall (λ cmp, Comparison.query_id cmp ∈ ids
                 ∧ Comparison.subject_id cmp ∈ ids) cs →
  r ∈ ids → c ∈ ids →
  Forall (λ cmp, ¬ compares cmp r c) cs →
  DataFrame.loc (foldl (fill_pair f g) df cs) r c = DataFrame.loc df r c.
Proof.
  intros Hsq Hall Hr Hc Hno. revert df Hsq Hno.
  induction Hall as [|cmp cs [Hq Hs] _ IH]; intros df Hsq Hno; simpl; [done|].
  inversion Hno as [|?? Hcmp Hno']; subst.
  rewrite IH by (done || by apply square_over_fill_pair).
  rewrite (loc_fill_pair ids) by done.
  unfold compares in Hcmp.
  repeat case_decide; [exfalso; apply Hcmp; intuition congruence..|done].
Qed.

Lemma same_pair_compares c c' :
  same_pair c c'
  ↔ compares c' (Comparison.query_id c) (Comparison.subject_id c).
Proof. unfold same_pair, compares. intuition congruence. Qed.

Lemma compares_sym c a b : compares c a b ↔ compares c b a.
Proof. unfold compares. tauto. Qed.

(** With one comparison per pair, the loop leaves each comparison's two
    values in its two cells. *)
Lemma foldl_fill_pair_at ids f g cs df cmp :
  square_over ids df →
  Forall (λ cmp, Comparison.query_id cmp ≠ Comparison.subject_id cmp
                 ∧ Comparison.query_id cmp ∈ ids
                 ∧ Comparison.subject_id cmp ∈ ids) cs →
  distinct_pairs cs →
  cmp ∈ cs →
  DataFrame.loc (foldl (fill_pair f g) df cs)
    (Comparison.query_id cmp) (Comparison.subject_id cmp) = Some (f cmp)
  ∧ DataFrame.loc (foldl (fill_pair f g) df cs)
      (Comparison.subject_id cmp) (Comparison.query_id cmp) = Some (g cmp).
Proof.
  intros Hsq Hall. revert df Hsq.
  induction Hall as [|c0 cs (Hne & Hq & Hs) Hall IH];
    intros df Hsq Hdist Hin; [by apply elem_of_nil in Hin|].
  destruct Hdist as [Hhead Hdist]. simpl.
  assert (Hin' : Forall (λ cmp, Comparison.query_id cmp ∈ ids
                          ∧ Comparison.subject_id cmp ∈ ids) cs).
  { eapply Forall_impl; [exact Hall|]. by intros ? (_ & ? & ?). }
  apply elem_of_cons in Hin as [->|Hin].
  - rewrite !(foldl_fill_pair_untouched ids); try done.
    + rewrite !(loc_fill_pair ids) by done.
      rewrite decide_False by (intros [? ?]; congruence).
      rewrite decide_True by done. by rewrite decide_True by done.
    + by apply square_over_fill_pair.
    + eapply Forall_impl; [exact Hhead|].
      intros c' Hc' Hcmp. apply Hc'. apply same_pair_compares.
      by apply compares_sym.
    + by apply square_over_fill_pair.
    + eapply Forall_impl; [exact Hhead|].
      intros c' Hc' Hcmp. apply Hc'. by apply same_pair_compares.
  - apply IH; [|done..]. by apply square_over_fill_pair.
Qed.

Lemma square_over_set_genome_length ids df g :
  square_over ids df → Genome.genome_id g ∈ ids →
  square_over ids (set_genome_length df g).
Proof. intros. by apply square_over_loc_set. Qed.

Lemma foldl_set_genome_length_square ids gs df :
  square_over ids df →
  Forall (λ g, Genome.genome_id g ∈ ids) gs →
  square_over ids (foldl set_genome_length df gs).
Proof.
  intros Hsq Hall. revert df Hsq.
  induction Hall as [|g gs Hg _ IH]; intros df Hsq; simpl; [done|].
  apply IH. by apply square_over_set_genome_length.
Qed.

Lemma foldl_set_genome_length_untouched ids gs df r c :
  square_over ids df →
  Forall (λ g, Genome.genome_id g ∈ ids) gs →
  r ∈ ids → c ∈ ids →
  Forall (λ g, ¬ (r = Genome.genome_id g ∧ c = Genome.genome_id g)) gs →
  DataFrame.loc (foldl set_genome_length df gs) r c = DataFrame.loc df r c.
Proof.
  intros Hsq Hall Hr Hc Hno. revert df Hsq Hno.
  induction Hall as [|g gs Hg _ IH]; intros df Hsq Hno; simpl; [done|].
  inversion Hno as [|?? Hng Hno']; subst.
  rewrite IH by (done || by apply square_over_set_genome_length).
  unfold set_genome_length. rewrite (loc_loc_set ids) by done.
  by rewrite decide_False.
Qed.

(** With identifiers that are unique, each genome's length ends up in its
    diagonal cell. *)
Lemma foldl_set_genome_length_at ids gs df g :
  square_over ids df →
  Forall (λ g, Genome.genome_id g ∈ ids) gs →
  NoDup (Genome.genome_id <$> gs) →
  g ∈ gs →
  DataFrame.loc (foldl set_genome_length df gs)
    (Genome.genome_id g) (Genome.genome_id g)
  = Some (PyNum.float_of_int (Genome.length g)).
Proof.
  intros Hsq Hall. revert df Hsq.
  induction Hall as [|g0 gs Hg0 Hall IH]; intros df Hsq Hnd Hin;
    [by apply elem_of_nil in Hin|].
  simpl in Hnd. apply NoDup_cons in Hnd as [Hfresh Hnd]. simpl.
  apply elem_of_cons in Hin as [->|Hin].
  - rewrite (foldl_set_genome_length_untouched ids); [|try done..].
    + unfold set_genome_length. rewrite (loc_loc_set ids) by done.
      by rewrite decide_True.
    + by apply square_over_set_genome_length.
    + apply Forall_forall. intros g' Hg' [Heq _]. apply Hfresh.
      rewrite Heq. by apply list_elem_of_fmap_2.
  - apply IH; [|done..]. by apply square_over_set_genome_length.
Qed.

(** The loop over the comparisons acts on each frame separately. *)
Lemma foldl_fill_comparison m cs :
  foldl fill_comparison m cs
  = Matrices.mk
      (foldl (fill_pair Comparison.identity Comparison.identity)
         (Matrices.df_identity m) cs)
      (foldl (fill_pair Comparison.cov_query Comparison.cov_subject)
         (Matrices.df_coverage m) cs)
      (foldl (fill_pair (λ c, PyNum.float_of_int (Comparison.aln_length c))
                        (λ c, PyNum.float_of_int (Comparison.aln_length c)))
         (Matrices.df_alnlength m) cs)
      (foldl (fill_pair (λ c, PyNum.float_of_int (Comparison.sim_errs c))
                        (λ c, PyNum.float_of_int (Comparison.sim_errs c)))
         (Matrices.df_simerrors m) cs)
      (foldl (fill_pair
                (λ c, PyNum.fmul (Comparison.identity c) (Comparison.cov_query c))
                (λ c, PyNum.fmul (Comparison.identity c) (Comparison.cov_subject c)))
         (Matrices.df_hadamard m) cs).
Proof.
  revert m. induction cs as [|c cs IH]; intros m; simpl.
  - by destruct m.
  - by rewrite IH.
Qed.

Lemma elem_of_genome_ids_of r x :
  x ∈ genome_ids_of r ↔ x ∈ Genome.genome_id <$> Run.genomes r.
Proof. unfold genome_ids_of. by rewrite merge_sort_Permutation. Qed.

(** What [run_consistent] gives in terms of the sorted labels. *)
Lemma run_consistent_labels r :
  run_consistent r →
  Forall (λ g, Genome.genome_id g ∈ genome_ids_of r) (Run.genomes r)
  ∧ Forall (λ c, Comparison.query_id c ≠ Comparison.subject_id c
                 ∧ Comparison.query_id c ∈ genome_ids_of r
                 ∧ Comparison.subject_id c ∈ genome_ids_of r)
      (Run.comparisons r)
  ∧ Forall (λ c, Comparison.query_id c ∈ genome_ids_of r
                 ∧ Comparison.subject_id c ∈ genome_ids_of r)
      (Run.comparisons r).
Proof.
  intros [_ Hin _]. split; [|split].
  - apply Forall_forall. intros g Hg.
    apply elem_of_genome_ids_of. by apply list_elem_of_fmap_2.
  - eapply Forall_impl; [exact Hin|]. intros c (? & ? & ?).
    by rewrite !elem_of_genome_ids_of.
  - eapply Forall_impl; [exact Hin|]. intros c (? & ? & ?).
    by rewrite !elem_of_genome_ids_of.
Qed.

(** One frame after the loop over the comparisons of a consistent run. *)
Lemma filled_frame ids f g df cs :
  square_over ids df →
  Forall (λ c, Comparison.query_id c ≠ Comparison.subject_id c
               ∧ Comparison.query_id c ∈ ids
               ∧ Comparison.subject_id c ∈ ids) cs →
  distinct_pairs cs →
  let filled := foldl (fill_pair f g) df cs in
  square_over ids filled
  ∧ (∀ a, a ∈ ids → DataFrame.loc filled a a = DataFrame.loc df a a)
  ∧ (∀ c, c ∈ cs →
       DataFrame.loc filled (Comparison.query_id c) (Comparison.subject_id c)
       = Some (f c)
       ∧ DataFrame.loc filled (Comparison.subject_id c) (Comparison.query_id c)
         = Some (g c))
  ∧ (∀ a b, a ∈ ids → b ∈ ids → Forall (λ c, ¬ compares c a b) cs →
       DataFrame.loc filled a b = DataFrame.loc df a b).
Proof.
  intros Hsq Hall Hdist filled.
  assert (Hin : Forall (λ c, Comparison.query_id c ∈ ids
                         ∧ Comparison.subject_id c ∈ ids) cs).
  { eapply Forall_impl; [exact Hall|]. by intros ? (_ & ? & ?). }
  split; [by apply foldl_fill_pair_square|].
  split; [|split].
  - intros a Ha. apply (foldl_fill_pair_untouched ids); try done.
    eapply Forall_impl; [exact Hall|].
    intros c (Hne & _) [[? ?]|[? ?]]; congruence.
  - intros c Hc. by apply (foldl_fill_pair_at ids).
  - intros a b Ha Hb Hno. by apply (foldl_fill_pair_untouched ids).
Qed.

Lemma loc_diagonal_frame ids a b :
  a ∈ ids → b ∈ ids →
  DataFrame.loc (DataFrame.fill_diagonal 1%float (DataFrame.new ids ids)) a b
  = if decide (a = b) then Some 1%float else Some PyNum.NaN.
Proof.
  intros Ha Hb.
  rewrite (loc_fill_diagonal ids) by (done || apply square_over_new).
  case_decide; [done|]. by apply loc_new.
Qed.

Lemma square_over_diagonal_frame ids :
  square_over ids
    (DataFrame.fill_diagonal 1%float (DataFrame.new ids ids)).
Proof. apply square_over_fill_diagonal, square_over_new. Qed.

Lemma comparison_matrices_unfold r :
  let ids := genome_ids_of r in
  let diag := DataFrame.fill_diagonal 1%float (DataFrame.new ids ids) in
  comparison_matrices r
  = Matrices.mk
      (foldl (fill_pair Comparison.identity Comparison.identity) diag
         (Run.comparisons r))
      (foldl (fill_pair Comparison.cov_query Comparison.cov_subject) diag
         (Run.comparisons r))
      (foldl (fill_pair (λ c, PyNum.float_of_int (Comparison.aln_length c))
                        (λ c, PyNum.float_of_int (Comparison.aln_length c)))
         (foldl set_genome_length (DataFrame.new ids ids) (Run.genomes r))
         (Run.comparisons r))
      (foldl (fill_pair (λ c, PyNum.float_of_int (Comparison.sim_errs c))
                        (λ c, PyNum.float_of_int (Comparison.sim_errs c)))
         diag (Run.comparisons r))
      (foldl (fill_pair
                (λ c, PyNum.fmul (Comparison.identity c) (Comparison.cov_query c))
                (λ c, PyNum.fmul (Comparison.identity c) (Comparison.cov_subject c)))
         diag (Run.comparisons r)).
Proof. unfold comparison_matrices. by rewrite foldl_fill_comparison. Qed.

(** C5.  For a run whose genome identifiers are unique and whose
    comparisons join distinct genomes of the run, one comparison per pair,
    [update_comparison_matrices] returns normally and stores five frames
    that are square over the sorted genome identifiers and such that:
    - the identity, coverage, similarity-error and Hadamard diagonals are
      1.0 and the alignment-length diagonal holds each genome's length;
    - for every comparison (q, s) of the run, identity[q,s] = identity[s,q]
      = its identity, the alignment-length and similarity-error entries are
      its values on both sides, coverage[q,s] is its query coverage and
      coverage[s,q] its subject coverage, Hadamard[q,s] = identity * query
      coverage and Hadamard[s,q] = identity * subject coverage;
    - a cell of two different genomes that no comparison is about is NaN,
      i.e. still unset. *)
Theorem update_comparison_matrices_synthesis args st :
  run_consistent (run st) →
  let r := update_comparison_matrices args st in
  let ids := genome_ids_of (run st) in
  let loc := DataFrame.loc in
  ∃ mi mc ma ms mh,
    r.1 = Ok tt
    ∧ Run.df_identity (run r.2) = Some mi
    ∧ Run.df_coverage (run r.2) = Some mc
    ∧ Run.df_alnlength (run r.2) = Some ma
    ∧ Run.df_simerrors (run r.2) = Some ms
    ∧ Run.df_hadamard (run r.2) = Some mh
    ∧ Sorted Z.le ids
    ∧ ids ≡ₚ Genome.genome_id <$> Run.genomes (run st)
    ∧ square_over ids mi ∧ square_over ids mc ∧ square_over ids ma
    ∧ square_over ids ms ∧ square_over ids mh
    ∧ (∀ g, g ∈ Run.genomes (run st) →
         let i := Genome.genome_id g in
         loc mi i i = Some 1%float
         ∧ loc mc i i = Some 1%float
         ∧ loc ms i i = Some 1%float
         ∧ loc mh i i = Some 1%float
         ∧ loc ma i i = Some (PyNum.float_of_int (Genome.length g)))
    ∧ (∀ c, c ∈ Run.comparisons (run st) →
         let q := Comparison.query_id c in
         let s := Comparison.subject_id c in
         loc mi q s = Some (Comparison.identity c)
         ∧ loc mi s q = Some (Comparison.identity c)
         ∧ loc mc q s = Some (Comparison.cov_query c)
         ∧ loc mc s q = Some (Comparison.cov_subject c)
         ∧ loc ma q s = Some (PyNum.float_of_int (Comparison.aln_length c))
         ∧ loc ma s q = Some (PyNum.float_of_int (Comparison.aln_length c))
         ∧ loc ms q s = Some (PyNum.float_of_int (Comparison.sim_errs c))
         ∧ loc ms s q = Some (PyNum.float_of_int (Comparison.sim_errs c))
         ∧ loc mh q s
           = Some (PyNum.fmul (Comparison.identity c) (Comparison.cov_query c))
         ∧ loc mh s q
           = Some (PyNum.fmul (Comparison.identity c) (Comparison.cov_subject c)))
    ∧ (∀ a b, a ∈ ids → b ∈ ids → a ≠ b →
         Forall (λ c, ¬ compares c a b) (Run.comparisons (run st)) →
         loc mi a b = Some PyNum.NaN
         ∧ loc mc a b = Some PyNum.NaN
         ∧ loc ma a b = Some PyNum.NaN
         ∧ loc ms a b = Some PyNum.NaN
         ∧ loc mh a b = Some PyNum.NaN).
Proof.
  intros Hrun. cbv zeta.
  rewrite update_comparison_matrices_run. simpl.
  rewrite comparison_matrices_unfold. cbv zeta. simpl.
  set (ids := genome_ids_of (run st)).
  set (cs := Run.comparisons (run st)).
  set (diag := DataFrame.fill_diagonal 1%float (DataFrame.new ids ids)).
  set (lens := foldl set_genome_length (DataFrame.new ids ids)
                 (Run.genomes (run st))).
  destruct (run_consistent_labels _ Hrun) as (Hgs & Hcs & _).
  fold ids cs in Hgs, Hcs.
  pose proof (comparisons_distinct _ Hrun) as Hdist. fold cs in Hdist.
  pose proof (genome_ids_unique _ Hrun) as Hnd.
  assert (Hdiag : square_over ids diag) by apply square_over_diagonal_frame.
  assert (Hlens : square_over ids lens).
  { apply foldl_set_genome_length_square; [apply square_over_new|done]. }
  destruct (filled_frame ids Comparison.identity Comparison.identity
              diag cs Hdiag Hcs Hdist) as (Hi1 & Hi2 & Hi3 & Hi4).
  destruct (filled_frame ids Comparison.cov_query Comparison.cov_subject
              diag cs Hdiag Hcs Hdist) as (Hc1 & Hc2 & Hc3 & Hc4).
  destruct (filled_frame ids
              (λ c, PyNum.float_of_int (Comparison.aln_length c))
              (λ c, PyNum.float_of_int (Comparison.aln_length c))
              lens cs Hlens Hcs Hdist) as (Ha1 & Ha2 & Ha3 & Ha4).
  destruct (filled_frame ids
              (λ c, PyNum.float_of_int (Comparison.sim_errs c))
              (λ c, PyNum.float_of_int (Comparison.sim_errs c))
              diag cs Hdiag Hcs Hdist) as (Hs1 & Hs2 & Hs3 & Hs4).
  destruct (filled_frame ids
              (λ c, PyNum.fmul (Comparison.identity c) (Comparison.cov_query c))
              (λ c, PyNum.fmul (Comparison.identity c) (Comparison.cov_subject c))
              diag cs Hdiag Hcs Hdist) as (Hh1 & Hh2 & Hh3 & Hh4).
  eexists _, _, _, _, _.
  do 6 (split; [reflexivity|]).
  split; [apply Sorted_merge_sort, _|].
  split; [apply merge_sort_Permutation|].
  do 5 (split; [assumption|]).
  split; [|split].
  - intros g Hg.
    assert (Hgi : Genome.genome_id g ∈ ids)
      by (by eapply Forall_forall in Hgs).
    rewrite Hi2, Hc2, Hs2, Hh2, Ha2 by done.
    unfold diag. rewrite (loc_diagonal_frame ids) by done.
    rewrite decide_True by done.
    do 4 (split; [done|]).
    apply (foldl_set_genome_length_at ids); try done. apply square_over_new.
  - intros c Hc.
    destruct (Hi3 c Hc) as [-> ->]. destruct (Hc3 c Hc) as [-> ->].
    destruct (Ha3 c Hc) as [-> ->]. destruct (Hs3 c Hc) as [-> ->].
    destruct (Hh3 c Hc) as [-> ->]. done.
  - intros a b Ha Hb Hab Hno.
    rewrite Hi4, Hc4, Ha4, Hs4, Hh4 by done.
    unfold diag. rewrite (loc_diagonal_frame ids) by done.
    rewrite decide_False by done.
    do 2 (split; [done|]). split; [|done].
    unfold lens.
    rewrite (foldl_set_genome_length_untouched ids);
      [by apply loc_new|apply square_over_new|done..|].
    apply Forall_forall. intros g _ [-> ->]. done.
Qed.

Lemma update_comparison_matrices_synthesis_witness :
  let st := mkState [Scenario.cAB] [] Scenario.run_CAB [] in
  let r := update_comparison_matrices (Scenario.args false) st in
  run_consistent (run st)
  ∧ genome_ids_of (run st) = [1; 2; 3]
  ∧ ∃ mc ma,
      Run.df_coverage (run r.2) = Some mc
      ∧ Run.df_alnlength (run r.2) = Some ma
      ∧ DataFrame.loc mc 1 2 = Some 0.4375%float
      ∧ DataFrame.loc mc 2 1 = Some 0.5%float
      ∧ DataFrame.loc mc 1 3 = Some PyNum.NaN
      ∧ DataFrame.loc ma 3 3 = Some 5200000%float.
Proof.
  intros st r.
  assert (Hrun : run_consistent (run st)).
  { split; simpl.
    - repeat (apply NoDup_cons; split; [rewrite ?elem_of_cons, ?elem_of_nil; lia|]).
      apply NoDup_nil_2.
    - apply Forall_cons. split; [|by apply Forall_nil].
      unfold Comparison.query_id, Comparison.subject_id. simpl.
      rewrite !elem_of_cons. split; [lia|].
      split; [right; left; reflexivity | right; right; left; reflexivity].
    - simpl. split; [by apply Forall_nil|done]. }
  split; [exact Hrun|]. split; [reflexivity|].
  destruct (update_comparison_matrices_synthesis (Scenario.args false) st Hrun)
    as (mi & mc & ma & ms & mh & _ & _ & Hc & Ha & _ & _ & _ & _ & _ & _ & _
        & _ & _ & Hdiag & Hcmp & Hunset).
  exists mc, ma. split; [exact Hc|]. split; [exact Ha|].
  destruct (Hcmp Scenario.cAB) as (_ & _ & Hqs & Hsq & _); [left|].
  split; [exact Hqs|]. split; [exact Hsq|].
  destruct (Hunset 1 3) as (_ & Hnan & _).
  - left.
  - right. right. left.
  - lia.
  - apply Forall_cons. split; [|by apply Forall_nil].
    unfold compares, Comparison.query_id, Comparison.subject_id. simpl. lia.
  - split; [exact Hnan|].
    destruct (Hdiag Scenario.gC) as (_ & _ & _ & _ & Hlen); [left|].
    exact Hlen.
Defined.

(** ** The run handed to the matrix step is consistent *)

Lemma unordered_eq a b a' b' :
  unordered a b = unordered a' b' ↔ (a = a' ∧ b = b') ∨ (a = b' ∧ b = a').
Proof. unfold unordered. split; [intros [= ? ?]|intros [[-> ->]|[-> ->]]; f_equal]; lia. Qed.

Lemma same_pair_label c c' :
  same_pair c c' ↔ comparison_label c = comparison_label c'.
Proof. unfold comparison_label. by rewrite unordered_eq. Qed.

Lemma distinct_pairs_NoDup cs :
  NoDup (comparison_label <$> cs) → distinct_pairs cs.
Proof.
  induction cs as [|c cs IH]; simpl; [done|].
  intros [Hc Hnd]%NoDup_cons. split; [|by apply IH].
  apply Forall_forall. intros c' Hc' Hsame%same_pair_label.
  apply Hc. rewrite Hsame. by apply list_elem_of_fmap_2.
Qed.

Lemma combinations2_elem_of {A} (l : list A) p :
  p ∈ combinations2 l → p.1 ∈ l ∧ p.2 ∈ l.
Proof.
  induction l as [|x l IH]; simpl; [by intros ?%elem_of_nil|].
  intros [(y & -> & Hy)%list_elem_of_fmap|Hp]%elem_of_app.
  - simpl. split; [by left|by right].
  - destruct (IH Hp). split; by right.
Qed.

Lemma pair_label_with g gs :
  Genome.genome_id g ∉ Genome.genome_id <$> gs →
  NoDup (Genome.genome_id <$> gs) →
  NoDup ((λ y, pair_label (g, y)) <$> gs).
Proof.
  induction gs as [|y gs IH]; intros Hg Hnd; simpl; [constructor|].
  simpl in Hg, Hnd. apply NoDup_cons in Hnd as [Hy Hnd].
  apply not_elem_of_cons in Hg as [Hgy Hg].
  apply NoDup_cons. split; [|by apply IH].
  intros (y' & Heq & Hy')%list_elem_of_fmap.
  unfold pair_label in Heq. simpl in Heq.
  apply unordered_eq in Heq as [[_ Heq]|[_ Heq]]; [|congruence].
  apply Hy. rewrite Heq. by apply list_elem_of_fmap_2.
Qed.

Lemma combinations2_labels gs :
  NoDup (Genome.genome_id <$> gs) →
  Forall (λ p, Genome.genome_id p.1 ≠ Genome.genome_id p.2)
    (combinations2 gs)
  ∧ NoDup (pair_label <$> combinations2 gs).
Proof.
  induction gs as [|g gs IH]; simpl.
  - intros _. split; constructor.
  - intros [Hg Hnd]%NoDup_cons. destruct (IH Hnd) as [IHne IHnd].
    split.
    + apply Forall_app. split; [|done].
      apply Forall_forall. intros p (y & -> & Hy)%list_elem_of_fmap. simpl.
      intros Heq. apply Hg. rewrite Heq. by apply list_elem_of_fmap_2.
    + rewrite fmap_app. apply NoDup_app. split; [|split; [|done]].
      * rewrite <- list_fmap_compose. by apply pair_label_with.
      * intros lbl (p1 & -> & (y & -> & Hy)%list_elem_of_fmap)%list_elem_of_fmap
               (p2 & Heq & Hp2)%list_elem_of_fmap.
        apply combinations2_elem_of in Hp2 as [H1 H2].
        unfold pair_label in Heq. simpl in Heq.
        apply unordered_eq in Heq as [[Heq _]|[Heq _]];
          apply Hg; rewrite Heq; by apply list_elem_of_fmap_2.
Qed.

Lemma omap_filter_Forall2 {A B} (f : A → option B) (l : list A) :
  Forall2 (λ x y, f x = Some y) (filter (λ x, ¬ f x = None) l) (omap f l).
Proof.
  induction l as [|x l IH]; simpl; [constructor|].
  destruct (f x) as [y|] eqn:Hx.
  - rewrite filter_cons_True by congruence. by constructor.
  - by rewrite filter_cons_False by tauto.
Qed.

(** A successful [dispatch] ends with [update_comparison_matrices], applied
    to a run that holds the reused rows followed by one new comparison per
    pair of the work set. *)
Lemma dispatch_Ok_matrices env args to_run st st1 :
  dispatch env args to_run st = (Ok tt, st1) →
  ∃ st0 cs,
    update_comparison_matrices args st0 = (Ok tt, st1)
    ∧ Run.genomes (run st0) = Run.genomes (run st)
    ∧ Run.comparisons (run st0) = Run.comparisons (run st) ++ cs
    ∧ Forall2 (λ p c,
         key_of c = lookup_key (nucmer_version_of env args) args p)
        to_run cs.
Proof.
  unfold dispatch. case_decide as Hlen.
  - apply nil_length_inv in Hlen as ->. intros Hm.
    exists st, []. rewrite app_nil_r. repeat split; [done|constructor].
  - destruct (Args.recovery args) eqn:Hrec.
    { rewrite (bind_Raise _ _ _ _ _
                 (collect_existing_output_two_arguments env _ args st)).
      done. }
    unfold bind at 1. unfold ret at 1.
    unfold bind at 1.
    pose proof (generate_joblist_state env to_run None args st) as Hst.
    destruct (generate_joblist env to_run None args st)
      as [[joblist|e] st2] eqn:Hgen; [|done].
    simpl in Hst. subst st2.
    apply (generate_joblist_no_recovery_Ok _ _ _ _ _ _ _ Hrec) in Hgen.
    unfold bind at 1.
    pose proof (run_anim_jobs_state env joblist args st) as (_ & _ & Hrun).
    destruct (run_anim_jobs env joblist args st) as [[[]|e] st3]; [|done].
    simpl in Hrun.
    unfold bind at 1.
    destruct (update_comparison_results env joblist _ args st3)
      as [[[]|e] st4] eqn:Hres; [|done].
    intros Hm. unfold update_comparison_results, bind in Hres.
    destruct (for_each joblist _ st3) as [[[]|e] st5] eqn:Hing; [|done].
    apply for_each_ingest_Ok in Hing as (cs & _ & _ & Hall & Hg5 & Hc5).
    unfold session_commit, modify in Hres. injection Hres as <-.
    eexists _, cs. split; [exact Hm|]. simpl.
    rewrite Hg5, Hc5, Hrun. split; [done|]. split; [done|].
    clear -Hgen Hall. revert cs Hall.
    induction Hgen as [|p job to_run joblist [Hq Hs] _ IH]; intros cs Hall.
    + inversion Hall. constructor.
    + inversion Hall as [|?? ? cs' Hk Hrest]; subst.
      constructor; [|by apply IH].
      rewrite Hk, Hq, Hs. by destruct p.
Qed.

Lemma keyed_comparisons_consistent r ps v args :
  NoDup (Genome.genome_id <$> Run.genomes r) →
  ps ≡ₚ combinations2 (Run.genomes r) →
  Forall2 (λ p c, key_of c = lookup_key v args p) ps (Run.comparisons r) →
  run_consistent r.
Proof.
  intros Hnd Hperm Hall.
  destruct (combinations2_labels _ Hnd) as [Hne Hlabels].
  assert (Hlbl : comparison_label <$> Run.comparisons r = pair_label <$> ps).
  { clear -Hall. revert Hall. generalize (Run.comparisons r). intros cs Hall.
    induction Hall as [|p c ps cs Hk _ IH]; [done|].
    rewrite !fmap_cons, IH. f_equal. injection Hk as Hq Hs _ _ _ _.
    unfold comparison_label, pair_label. by rewrite Hq, Hs. }
  split; [done| |].
  - apply Forall_lookup. intros i c Hc.
    destruct (Forall2_lookup_r _ _ _ _ _ Hall Hc) as (p & Hp & Hk).
    injection Hk as Hq Hs _ _ _ _.
    apply list_elem_of_lookup_2 in Hp. rewrite Hperm in Hp.
    rewrite Hq, Hs.
    split; [by eapply Forall_forall in Hne|].
    apply combinations2_elem_of in Hp as [H1 H2].
    split; by apply list_elem_of_fmap_2.
  - apply distinct_pairs_NoDup. rewrite Hlbl. by rewrite Hperm.
Qed.

(** Every run of [subcmd_anim] that returns normally ends with
    [update_comparison_matrices] applied to a consistent run, provided the
    genome identifiers handed out by the store are unique. *)
Lemma subcmd_anim_matrices_consistent env args rows genomes st1 :
  setup_succeeds env args genomes →
  NoDup (Genome.genome_id <$> genomes) →
  subcmd_anim env args rows = (Ok tt, st1) →
  ∃ st0, update_comparison_matrices args st0 = (Ok tt, st1)
         ∧ Run.genomes (run st0) = genomes
         ∧ run_consistent (run st0).
Proof.
  intros Hsetup Hnd Hrun.
  rewrite (subcmd_anim_after_deduplicate _ _ _ _ Hsetup) in Hrun.
  apply dispatch_Ok_matrices in Hrun as (st0 & cs & Hm & Hg & Hc & Hall).
  destruct (deduplicated_state env args rows genomes)
    as (_ & _ & _ & Hgd & Hcd & _).
  rewrite Hgd in Hg. rewrite Hcd in Hc.
  exists st0. split; [done|]. split; [done|].
  set (f := λ p, existing_comparisons_of rows
                   !! lookup_key (nucmer_version_of env args) args p) in *.
  apply (keyed_comparisons_consistent _
           (filter (λ p, ¬ f p = None) (combinations2 genomes)
            ++ work_set env args rows genomes)
           (nucmer_version_of env args) args).
  - by rewrite Hg.
  - rewrite Hg. unfold work_set, pairs_to_run. fold f.
    rewrite (comm (++)). apply filter_app_complement.
  - rewrite Hc. apply Forall2_app; [|done].
    unfold rows_reused. fold f.
    eapply Forall2_impl; [apply omap_filter_Forall2|].
    intros p c Hl. simpl in Hl. unfold f in Hl.
    by apply existing_comparisons_of_Some in Hl as [_ ?].
Qed.

(** ** Checks of the Python primitives *)

Example split_nucmer :
  PyStr.split "nucmer --mum -p out/nucmer_output/A_vs_B a.fna b.fna"
  = ["nucmer"; "--mum"; "-p"; "out/nucmer_output/A_vs_B"; "a.fna"; "b.fna"].
Proof. reflexivity. Qed.

Example split_runs_of_spaces :
  PyStr.split "  nucmer   --mum  " = ["nucmer"; "--mum"].
Proof. reflexivity. Qed.

Example basename_filter :
  PyStr.basename "out/nucmer_output/A_vs_B.filter" = "A_vs_B.filter"
  ∧ PyStr.basename "A_vs_B.filter" = "A_vs_B.filter"
  ∧ PyStr.basename "out/" = "".
Proof. repeat split; reflexivity. Qed.

Example splitext_cases :
  PyStr.splitext_ext "A_vs_B.filter" = ".filter"
  ∧ PyStr.splitext_ext ".filter" = ""
  ∧ PyStr.splitext_ext "a.b/c" = ""
  ∧ PyStr.splitext_ext "x.tar.delta" = ".delta"
  ∧ PyStr.splitext_ext "..delta" = "".
Proof. repeat split; reflexivity. Qed.

Example join_cases :
  PyStr.join "out" "nucmer_output" = "out/nucmer_output"
  ∧ PyStr.join "out/" "nucmer_output" = "out/nucmer_output"
  ∧ PyStr.join "out" "/abs" = "/abs"
  ∧ PyStr.join "" "nucmer_output" = "nucmer_output".
Proof. repeat split; reflexivity. Qed.

Example truediv_cases :
  PyNum.truediv 2400000 4800000 = Ok 0.5%float
  ∧ PyNum.truediv 0 5 = Ok 0%float
  ∧ PyNum.truediv 1 3 = Ok 0x1.5555555555555p-2%float
  ∧ PyNum.truediv 5 0 = Raise ZeroDivisionError
  ∧ PyNum.truediv 0 0 = Raise ZeroDivisionError.
Proof. repeat split; vm_compute; reflexivity. Qed.

Example truediv_overflow_cases :
  let limit := 2 ^ 1024 - 2 ^ 970 in
  PyNum.truediv (10 ^ 400) 5000000 = Raise OverflowError
  ∧ PyNum.truediv (10 ^ 400) (10 ^ 399) = Ok 10%float
  ∧ PyNum.truediv (limit - 1) 1 = Ok 0x1.fffffffffffffp+1023%float
  ∧ PyNum.truediv limit 1 = Raise OverflowError
  ∧ PyNum.truediv (3 * limit - 1) 3 = Ok 0x1.fffffffffffffp+1023%float
  ∧ PyNum.truediv (3 * limit) 3 = Raise OverflowError
  ∧ PyNum.truediv (- limit) 1 = Raise OverflowError
  ∧ PyNum.truediv (1 - limit) 1 = Ok (-0x1.fffffffffffffp+1023)%float.
Proof. repeat split; vm_compute; reflexivity. Qed.

Example split_other_blanks :
  PyStr.split (String "a" (String "160" (String "b" (String "133" "c"))))
  = ["a"; "b"; "c"].
Proof. reflexivity. Qed.

Example fmt_06d_cases :
  fmt_06d 0 = "000000" ∧ fmt_06d 12 = "000012" ∧ fmt_06d 4321 = "004321".
Proof. repeat split; vm_compute; reflexivity. Qed.

Example combinations2_three :
  combinations2 [1; 2; 3] = [(1, 2); (1, 3); (2, 3)].
Proof. reflexivity. Qed.

(** Enlargement through [.loc]: a missing label adds a row and a column. *)
Example loc_set_enlarges :
  DataFrame.loc_set 7 8 1%float (DataFrame.new [7] [7])
  = DataFrame.mk [7] [7; 8] [[PyNum.NaN; 1%float]].
Proof. reflexivity. Qed.

(** The scenario of Section 8 of the specification, run to its end: three
    comparisons in the store, and the alignment-length diagonal holds the
    three genome lengths. *)
Example scenario_three_genomes :
  let env :=
    Scenario.env [Scenario.gA; Scenario.gB; Scenario.gC] 0 (2400000, 600000) in
  let r := subcmd_anim env (Scenario.args false) [Scenario.cAB] in
  r.1 = Ok tt
  ∧ length (db_comparisons r.2) = 3%nat
  ∧ length (Run.comparisons (run r.2)) = 3%nat
  ∧ (λ df, (DataFrame.loc df 1 1, DataFrame.loc df 2 2, DataFrame.loc df 3 3))
      <$> Run.df_alnlength (run r.2)
    = Some (Some 5000000%float, Some 4800000%float, Some 5200000%float).
Proof. vm_compute. repeat split; reflexivity. Qed.

(** * Further properties of subcmd_anim.py *)

(** ** Failing before the reduction loop *)

(** The five matrix fields of a run that were never assigned. *)
Lemma new_run_unset env args :
  let r := new_run env args in
  Run.comparisons r = []
  ∧ Run.df_identity r = None ∧ Run.df_coverage r = None
  ∧ Run.df_alnlength r = None ∧ Run.df_simerrors r = None
  ∧ Run.df_hadamard r = None.
Proof. done. Qed.

(** When one of the steps before the reduction loop fails, [subcmd_anim]
    raises at once: [SystemExit(1)] when the store cannot be reached or the
    run or its genomes cannot be added, [SystemError(1)] when only the
    output directory cannot be created.  The Comparison table is as it was,
    nothing is pending, the run has no comparison and no matrix, and no
    collaborator (directory listing, executor, parser) was called. *)
Theorem setup_failure_aborts env args rows :
  (∀ genomes, ¬ setup_succeeds env args genomes) →
  let r := subcmd_anim env args rows in
  r.1 = Raise
          (if get_session env (Args.dbpath args) && add_run env
              && match add_run_genomes env (Args.indir args) with
                 | Ok _ => true
                 | Raise _ => false
                 end
           then SystemError 1 else SystemExit 1)
  ∧ db_comparisons r.2 = rows
  ∧ session_new r.2 = []
  ∧ trace r.2 = []
  ∧ Run.comparisons (run r.2) = []
  ∧ Run.df_identity (run r.2) = None
  ∧ Run.df_coverage (run r.2) = None
  ∧ Run.df_alnlength (run r.2) = None
  ∧ Run.df_simerrors (run r.2) = None
  ∧ Run.df_hadamard (run r.2) = None.
Proof.
  intros Hfail. cbv zeta. unfold subcmd_anim, subcmd_anim_body.
  unfold bind, ret, raise, set_run, session_commit, modify, start. simpl.
  destruct (get_session env _) eqn:Hs; [|done]. simpl.
  destruct (add_run env) eqn:Hr; [|done]. simpl.
  destruct (add_run_genomes env _) as [gs|e] eqn:Hg; simpl.
  - destruct (makedirs env _) eqn:Hm; [|by rewrite app_nil_r].
    destruct (Hfail gs). by repeat split.
  - by rewrite app_nil_r.
Qed.

Lemma setup_failure_aborts_witness :
  let env := mkEnv (λ _, "3.1") "2018-06-01T12:00:00" (λ _, false) true
               (λ _, Ok [Scenario.gA; Scenario.gB]) "nucmer_output"
               (λ _, true) Scenario.nucmer_cmdline (λ _, Ok [])
               (λ _ _, 0) (λ _, Ok (1, 0)) in
  (∀ genomes, ¬ setup_succeeds env (Scenario.args false) genomes)
  ∧ (subcmd_anim env (Scenario.args false) [Scenario.cAB]).1
    = Raise (SystemExit 1)
  ∧ db_comparisons (subcmd_anim env (Scenario.args false) [Scenario.cAB]).2
    = [Scenario.cAB].
Proof.
  intros env.
  assert (H : ∀ genomes, ¬ setup_succeeds env (Scenario.args false) genomes).
  { intros genomes (Hs & _). discriminate Hs. }
  split; [exact H|].
  destruct (setup_failure_aborts env (Scenario.args false) [Scenario.cAB] H)
    as (H1 & H2 & _).
  split; [exact H1 | exact H2].
Defined.

(** ** A run that fails *)

Lemma same_matrices_refl r : same_matrices r r.
Proof. by repeat split. Qed.

Lemma same_matrices_trans r1 r2 r3 :
  same_matrices r1 r2 → same_matrices r2 r3 → same_matrices r1 r3.
Proof.
  intros (? & ? & ? & ? & ?) (? & ? & ? & ? & ?).
  repeat split; congruence.
Qed.

Lemma same_matrices_unset r r' :
  same_matrices r r' → matrices_unset r' → matrices_unset r.
Proof.
  intros (? & ? & ? & ? & ?) (? & ? & ? & ? & ?).
  repeat split; congruence.
Qed.

(** Ingesting one job, whatever the outcome, touches neither the table
    nor the matrices. *)
Lemma ingest_job_frame env v args job st :
  let r := ingest_job env v args job st in
  db_comparisons r.2 = db_comparisons st
  ∧ Run.genomes (run r.2) = Run.genomes (run st)
  ∧ same_matrices (run r.2) (run st).
Proof.
  unfold ingest_job, anim_parse_delta, emit, modify, lift, bind. simpl.
  destruct (parse_delta env _) as [[aln errs]|e];
    [|split; [done|split; [done|apply same_matrices_refl]]].
  divisions job aln errs
    ltac:(split; [done|split; [done|apply same_matrices_refl]]).
  by repeat split.
Qed.

Lemma for_each_ingest_frame env v args joblist st :
  let r := for_each joblist (ingest_job env v args) st in
  db_comparisons r.2 = db_comparisons st
  ∧ Run.genomes (run r.2) = Run.genomes (run st)
  ∧ same_matrices (run r.2) (run st).
Proof.
  revert st. induction joblist as [|job joblist IH]; intros st.
  - split; [done|split; [done|apply same_matrices_refl]].
  - simpl. unfold bind.
    pose proof (ingest_job_frame env v args job st) as (Hdb & Hg & Hm).
    destruct (ingest_job env v args job st) as [[[]|e] st1];
      simpl in Hdb, Hg, Hm; [|done].
    destruct (IH st1) as (Hdb' & Hg' & Hm').
    split; [congruence|]. split; [congruence|].
    by eapply same_matrices_trans.
Qed.

(** A [dispatch] that raises has committed nothing and written no
    matrix. *)
Lemma dispatch_Raise env args to_run st e st' :
  dispatch env args to_run st = (Raise e, st') →
  db_comparisons st' = db_comparisons st
  ∧ same_matrices (run st') (run st).
Proof.
  unfold dispatch. case_decide as Hlen.
  { by rewrite update_comparison_matrices_run. }
  unfold bind at 1.
  destruct (Args.recovery args).
  { rewrite collect_existing_output_two_arguments.
    intros [= <- <-]. split; [done|apply same_matrices_refl]. }
  unfold ret at 1. unfold bind at 1.
  pose proof (generate_joblist_state env to_run None args st) as Hst.
  destruct (generate_joblist env to_run None args st) as [[joblist|e1] st2];
    simpl in Hst; subst st2.
  2: { intros [= <- <-]. split; [done|apply same_matrices_refl]. }
  unfold bind at 1.
  pose proof (run_anim_jobs_state env joblist args st) as (Hdb & _ & Hrun).
  destruct (run_anim_jobs env joblist args st) as [[[]|e2] st3];
    simpl in Hdb, Hrun.
  2: { intros [= <- <-]. rewrite Hrun. split; [done|apply same_matrices_refl]. }
  unfold bind at 1. unfold update_comparison_results. unfold bind at 1.
  pose proof (for_each_ingest_frame env (nucmer_version_of env args) args
                joblist st3) as (Hdb' & _ & Hm).
  destruct (for_each joblist _ st3) as [[[]|e3] st4]; simpl in Hdb', Hm.
  - unfold session_commit, modify. by rewrite update_comparison_matrices_run.
  - intros [= <- <-]. split; [congruence|]. by rewrite <- Hrun.
Qed.

Lemma deduplicate_Raise env args rows e st' :
  deduplicate env args (start rows) = (Raise e, st') →
  db_comparisons st' = rows ∧ matrices_unset (run st').
Proof.
  unfold deduplicate.
  unfold bind, ret, raise, set_run, session_commit, modify, gets,
    query_all_comparisons, start; simpl.
  destruct (get_session env _); [|by intros [= <- <-]]. simpl.
  destruct (add_run env); [|by intros [= <- <-]]. simpl.
  destruct (add_run_genomes env _) as [gs|e1];
    [|intros [= <- <-]; by rewrite app_nil_r]. simpl.
  destruct (makedirs env _); [|intros [= <- <-]; by rewrite app_nil_r].
  unfold reduce_comparisons. by rewrite reduce_comparison_loop.
Qed.

(** Whatever makes [subcmd_anim] raise, the Comparison table is then
    exactly as it was on entry and the run has no matrix: rows reach the
    table only through the commit that follows a complete ingestion. *)
Theorem failed_run_leaves_store env args rows e :
  (subcmd_anim env args rows).1 = Raise e →
  db_comparisons (subcmd_anim env args rows).2 = rows
  ∧ matrices_unset (run (subcmd_anim env args rows).2).
Proof.
  unfold subcmd_anim. rewrite subcmd_anim_body_split. unfold bind.
  destruct (deduplicate env args (start rows)) as [[to_run|e1] st1] eqn:Hd.
  - destruct (deduplicate_Ok _ _ _ _ _ Hd) as [genomes Hsetup].
    rewrite (deduplicate_run env args rows genomes Hsetup) in Hd.
    injection Hd as <- <-.
    destruct (dispatch env args _ _) as [[[]|e2] st2] eqn:Hdisp; [done|].
    intros _. simpl.
    apply dispatch_Raise in Hdisp as [Hdb Hm].
    destruct (deduplicated_state env args rows genomes)
      as (Hd1 & _ & _ & _ & _ & H1 & H2 & H3 & H4 & H5).
    split; [congruence|].
    eapply same_matrices_unset; [exact Hm|]. by repeat split.
  - intros _. simpl. by apply deduplicate_Raise in Hd.
Qed.

Lemma failed_run_leaves_store_witness :
  let env := Scenario.env [Scenario.gA; Scenario.gB; Scenario.gC] 0 (0, 0) in
  let r := subcmd_anim env (Scenario.args false) [Scenario.cAB] in
  r.1 = Raise ZeroDivisionError
  ∧ db_comparisons r.2 = [Scenario.cAB]
  ∧ matrices_unset (run r.2).
Proof.
  intros env r.
  assert (H : r.1 = Raise ZeroDivisionError) by (vm_compute; reflexivity).
  split; [exact H|].
  exact (failed_run_leaves_store env (Scenario.args false) [Scenario.cAB]
           ZeroDivisionError H).
Defined.

(** ** A run that returns normally *)

Lemma combinations2_length {A} (l : list A) :
  (2 * length (combinations2 l) = length l * (length l - 1))%nat.
Proof.
  induction l as [|x l IH]; [done|].
  cbn [combinations2 length]. rewrite length_app, length_fmap.
  generalize dependent (length (combinations2 l)).
  generalize (length l). clear. intros n c IH.
  destruct n as [|n]; [lia|].
  replace (S n - 1)%nat with n in IH by lia.
  replace (S (S n) - 1)%nat with (S n) by lia. nia.
Qed.

Lemma omap_filter_length {A B} (f : A → option B) (l : list A) :
  (length (omap f l) + length (filter (λ x, f x = None) l) = length l)%nat.
Proof.
  induction l as [|x l IH]; [done|].
  destruct (f x) as [y|] eqn:Hx.
  - rewrite filter_cons_False by congruence.
    change (omap f (x :: l)) with (match f x with
                                   | Some y => y :: omap f l
                                   | None => omap f l
                                   end).
    rewrite Hx. cbn [length]. lia.
  - rewrite filter_cons_True by done.
    change (omap f (x :: l)) with (match f x with
                                   | Some y => y :: omap f l
                                   | None => omap f l
                                   end).
    rewrite Hx. cbn [length]. lia.
Qed.

(** A run of [subcmd_anim] that returns normally has added to the
    Comparison table exactly one new row per pair of its work set, in the
    order of the work set and under the key looked up for the pair; nothing
    is left pending.  The run then holds the reused rows followed by the new
    ones, one comparison per candidate pair, that is n(n-1)/2 of them for n
    genomes, and all five matrix fields are assigned. *)
Theorem successful_run_store env args rows genomes st1 :
  setup_succeeds env args genomes →
  subcmd_anim env args rows = (Ok tt, st1) →
  ∃ new,
    db_comparisons st1 = rows ++ new
    ∧ session_new st1 = []
    ∧ Forall2 (λ p c,
         key_of c = lookup_key (nucmer_version_of env args) args p)
        (work_set env args rows genomes) new
    ∧ Run.comparisons (run st1)
      = rows_reused (existing_comparisons_of rows) (nucmer_version_of env args)
          args (combinations2 genomes) ++ new
    ∧ (2 * length (Run.comparisons (run st1))
       = length genomes * (length genomes - 1))%nat
    ∧ matrices_set (run st1).
Proof.
  intros Hsetup Hrun.
  rewrite (subcmd_anim_after_deduplicate _ _ _ _ Hsetup) in Hrun.
  destruct (deduplicated_state env args rows genomes)
    as (Hdb & Hnew & _ & _ & Hcs & _).
  destruct (dispatch_Ok _ _ _ _ _ Hrun) as (new & Hdb1 & Hall & _ & Hcs1).
  destruct (dispatch_Ok_matrices _ _ _ _ _ Hrun) as (st0 & _ & Hm & _).
  rewrite update_comparison_matrices_run in Hm. injection Hm as <-.
  rewrite Hdb, Hnew in Hdb1. rewrite Hcs in Hcs1. simpl in Hdb1.
  exists new. split; [done|]. split; [done|]. split; [done|].
  split; [done|]. split.
  - simpl in Hcs1. simpl. rewrite Hcs1, length_app.
    rewrite <- (Forall2_length _ _ _ Hall).
    unfold rows_reused, work_set, pairs_to_run.
    rewrite omap_filter_length. apply combinations2_length.
  - simpl. repeat split; by eexists.
Qed.

Lemma successful_run_store_witness :
  let env :=
    Scenario.env [Scenario.gA; Scenario.gB; Scenario.gC] 0 (2400000, 600000) in
  let genomes := [Scenario.gA; Scenario.gB; Scenario.gC] in
  let r := subcmd_anim env (Scenario.args false) [Scenario.cAB] in
  setup_succeeds env (Scenario.args false) genomes
  ∧ r.1 = Ok tt
  ∧ length (Run.comparisons (run r.2)) = 3%nat
  ∧ matrices_set (run r.2).
Proof.
  intros env genomes r.
  assert (Hs : setup_succeeds env (Scenario.args false) genomes)
    by (repeat split; reflexivity).
  assert (Hr : r = (Ok tt, r.2)) by (vm_compute; reflexivity).
  destruct (successful_run_store env (Scenario.args false) [Scenario.cAB]
              genomes r.2 Hs Hr) as (new & _ & _ & _ & _ & Hlen & Hm).
  split; [exact Hs|]. split; [by rewrite Hr|].
  split; [|exact Hm].
  simpl in Hlen. lia.
Defined.

(** ** Key uniqueness *)

Lemma lookup_key_label v args p :
  (λ k : comparison_key, unordered k.1.1.1.1.1 k.1.1.1.1.2)
    (lookup_key v args p) = pair_label p.
Proof. done. Qed.

(** Different candidate pairs of genomes with unique identifiers are
    looked up under different keys. *)
Lemma lookup_keys_NoDup v args genomes :
  NoDup (Genome.genome_id <$> genomes) →
  NoDup (lookup_key v args <$> combinations2 genomes).
Proof.
  intros Hnd. destruct (combinations2_labels _ Hnd) as [_ Hlabels].
  apply (NoDup_fmap_1
           (λ k : comparison_key, unordered k.1.1.1.1.1 k.1.1.1.1.2)).
  by rewrite <- list_fmap_compose.
Qed.

Lemma Forall2_keys v args (ps : list (Genome * Genome)) (cs : list Comparison) :
  Forall2 (λ p c, key_of c = lookup_key v args p) ps cs →
  key_of <$> cs = lookup_key v args <$> ps.
Proof.
  induction 1 as [|p c ps cs Hk _ IH]; [done|].
  by rewrite !fmap_cons, IH, Hk.
Qed.

(** If no two rows of the Comparison table share a key when
    [subcmd_anim] is entered, and the store hands out genomes with unique
    identifiers, then no two rows share a key when it is left, whether it
    returns or raises. *)
Theorem key_uniqueness_preserved env args rows :
  NoDup (key_of <$> rows) →
  (∀ genomes, add_run_genomes env (Args.indir args) = Ok genomes →
     NoDup (Genome.genome_id <$> genomes)) →
  NoDup (key_of <$> db_comparisons (subcmd_anim env args rows).2).
Proof.
  intros Hrows Hids.
  unfold subcmd_anim. rewrite subcmd_anim_body_split. unfold bind.
  destruct (deduplicate env args (start rows)) as [[to_run|e1] st1] eqn:Hd.
  2: { apply deduplicate_Raise in Hd as [Hdb _]. simpl. by rewrite Hdb. }
  destruct (deduplicate_Ok _ _ _ _ _ Hd) as [genomes Hsetup].
  rewrite (deduplicate_run env args rows genomes Hsetup) in Hd.
  injection Hd as <- <-.
  destruct (deduplicated_state env args rows genomes) as (Hdb & Hnew & _).
  destruct (dispatch env args _ _) as [[[]|e2] st2] eqn:Hdisp.
  2: { apply dispatch_Raise in Hdisp as [Hdb2 _]. simpl. congruence. }
  apply dispatch_Ok in Hdisp as (new & Hdb2 & Hall & _).
  simpl. rewrite Hdb2, Hdb, Hnew. simpl.
  rewrite fmap_app. apply NoDup_app. split; [done|].
  rewrite (Forall2_keys _ _ _ _ Hall).
  assert (Hg : NoDup (Genome.genome_id <$> genomes))
    by (apply Hids; apply Hsetup).
  split.
  - intros k (c & -> & Hc)%list_elem_of_fmap (p & Hk & Hp)%list_elem_of_fmap.
    unfold work_set, pairs_to_run in Hp.
    apply list_elem_of_filter in Hp as [Hnone _].
    apply existing_comparisons_of_None in Hnone. apply Hnone.
    by exists c.
  - eapply sublist_NoDup;
      [by apply (lookup_keys_NoDup (nucmer_version_of env args) args genomes)|].
    apply fmap_sublist. apply sublist_filter.
Qed.

Lemma key_uniqueness_preserved_witness :
  let env :=
    Scenario.env [Scenario.gA; Scenario.gB; Scenario.gC] 0 (2400000, 600000) in
  let r := subcmd_anim env (Scenario.args false) [Scenario.cAB] in
  NoDup (key_of <$> [Scenario.cAB])
  ∧ length (db_comparisons r.2) = 3%nat
  ∧ NoDup (key_of <$> db_comparisons r.2).
Proof.
  intros env r.
  assert (H : NoDup (key_of <$> [Scenario.cAB])).
  { apply NoDup_singleton. }
  split; [exact H|]. split; [vm_compute; reflexivity|].
  apply (key_uniqueness_preserved env (Scenario.args false) [Scenario.cAB] H).
  intros genomes [= <-]. simpl.
  repeat (apply NoDup_cons; split; [rewrite ?elem_of_cons, ?elem_of_nil; lia|]).
  apply NoDup_nil_2.
Defined.

(** ** The executors *)

(** [run_anim_jobs] makes exactly one call, to the executor the scheduler
    name selects (any name other than "multiprocessing" selects SGE), and
    touches nothing else.  It raises only on the local path and only for a
    positive cumulative value; the SGE path always returns normally. *)
Theorem run_anim_jobs_outcome env joblist args st :
  let r := run_anim_jobs env joblist args st in
  r.2 = mkState (db_comparisons st) (session_new st) (run st)
          (trace st ++ [dispatch_event args joblist])
  ∧ (r.1 = Ok tt ∨ r.1 = Raise (PyaniException "Multiprocessing run failed in ANIm"))
  ∧ (r.1 = Raise (PyaniException "Multiprocessing run failed in ANIm")
     ↔ Args.scheduler args = "multiprocessing"
       ∧ 0 < mp_run_dependency_graph env (ComparisonJob.job <$> joblist)
               (Args.workers args)).
Proof.
  cbv zeta. unfold run_anim_jobs, dispatch_event.
  unfold run_mp_run_dependency_graph, run_sge_run_dependency_graph,
    emit, modify, bind, ret, raise. simpl.
  destruct (decide (Args.scheduler args = "multiprocessing")) as [Hs|Hs]; simpl.
  - destruct (decide (0 < mp_run_dependency_graph env _ _)) as [Hc|Hc]; simpl.
    + split; [done|]. split; [by right|]. done.
    + split; [done|]. split; [by left|]. split; [done|]. by intros [_ ?].
  - split; [done|]. split; [by left|]. split; [done|]. by intros [? _].
Qed.

(** ** The order of the calls *)

Lemma ingest_job_trace env v args job st :
  trace (ingest_job env v args job st).2
  = trace st ++ [EvParseDelta (ComparisonJob.outfile job)].
Proof.
  unfold ingest_job, anim_parse_delta, emit, modify, lift, bind. simpl.
  destruct (parse_delta env _) as [[aln errs]|e]; [|done].
  divisions job aln errs ltac:(done). done.
Qed.

Lemma for_each_ingest_trace env v args joblist st st' :
  for_each joblist (ingest_job env v args) st = (Ok tt, st') →
  trace st'
  = trace st ++ ((λ job, EvParseDelta (ComparisonJob.outfile job)) <$> joblist).
Proof.
  revert st. induction joblist as [|job joblist IH]; intros st.
  - simpl. intros [= <-]. by rewrite app_nil_r.
  - simpl. unfold bind.
    pose proof (ingest_job_trace env v args job st) as Htr.
    destruct (ingest_job env v args job st) as [[[]|e] st1]; [|done].
    intros ->%IH. simpl in Htr. rewrite Htr. by rewrite <- app_assoc.
Qed.

(** A run that returns normally although pairs were left to compare ran
    without the recovery flag, built one job per pair of the work set,
    handed all of them to the executor in a single call, and only then
    parsed the output files, one per job and in job order.  These are all
    the calls it made. *)
Theorem successful_run_trace env args rows genomes st1 :
  setup_succeeds env args genomes →
  subcmd_anim env args rows = (Ok tt, st1) →
  work_set env args rows genomes ≠ [] →
  Args.recovery args = false
  ∧ ∃ joblist,
      generate_joblist env (work_set env args rows genomes) None args
        (deduplicated env args rows genomes)
      = (Ok joblist, deduplicated env args rows genomes)
      ∧ length joblist = length (work_set env args rows genomes)
      ∧ trace st1
        = dispatch_event args joblist
          :: ((λ job, EvParseDelta (ComparisonJob.outfile job)) <$> joblist).
Proof.
  intros Hsetup Hrun Hwork.
  rewrite (subcmd_anim_after_deduplicate _ _ _ _ Hsetup) in Hrun.
  destruct (deduplicated_state env args rows genomes) as (_ & _ & Htr & _).
  set (st := deduplicated env args rows genomes) in *.
  unfold dispatch in Hrun.
  destruct (decide (length (work_set env args rows genomes) = 0%nat))
    as [Hlen|_]; [by apply nil_length_inv in Hlen|].
  destruct (Args.recovery args) eqn:Hrec.
  { rewrite (bind_Raise _ _ _ _ _
               (collect_existing_output_two_arguments env _ args st)) in Hrun.
    done. }
  split; [done|].
  unfold bind at 1 in Hrun. unfold ret at 1 in Hrun.
  unfold bind at 1 in Hrun.
  pose proof (generate_joblist_state env (work_set env args rows genomes)
                None args st) as Hst.
  destruct (generate_joblist env _ None args st) as [[joblist|e] st2] eqn:Hgen;
    [|done].
  simpl in Hst. subst st2. exists joblist. split; [done|].
  pose proof (generate_joblist_no_recovery_Ok _ _ _ _ _ _ _ Hrec Hgen) as Hjobs.
  split; [symmetry; by eapply Forall2_length|].
  unfold bind at 1 in Hrun.
  pose proof (run_anim_jobs_state env joblist args st) as Hstate.
  assert (Htr3 : trace (run_anim_jobs env joblist args st).2
                 = trace st ++ [dispatch_event args joblist]).
  { unfold run_anim_jobs, dispatch_event, run_mp_run_dependency_graph,
      run_sge_run_dependency_graph, emit, modify, bind, ret, raise. simpl.
    repeat case_decide; done. }
  destruct (run_anim_jobs env joblist args st) as [[[]|e] st3]; [|done].
  simpl in Htr3.
  unfold bind at 1 in Hrun. unfold update_comparison_results in Hrun.
  unfold bind at 1 in Hrun.
  destruct (for_each joblist _ st3) as [[[]|e] st4] eqn:Hing; [|done].
  apply for_each_ingest_trace in Hing.
  unfold session_commit, modify in Hrun.
  rewrite update_comparison_matrices_run in Hrun. injection Hrun as <-.
  simpl. rewrite Hing, Htr3, Htr. done.
Qed.

Lemma successful_run_trace_witness :
  let env :=
    Scenario.env [Scenario.gA; Scenario.gB; Scenario.gC] 0 (2400000, 600000) in
  let genomes := [Scenario.gA; Scenario.gB; Scenario.gC] in
  let r := subcmd_anim env (Scenario.args false) [Scenario.cAB] in
  setup_succeeds env (Scenario.args false) genomes
  ∧ r.1 = Ok tt
  ∧ work_set env (Scenario.args false) [Scenario.cAB] genomes
    = [(Scenario.gA, Scenario.gC); (Scenario.gB, Scenario.gC)]
  ∧ ∃ joblist, length joblist = 2%nat
      ∧ trace r.2 = dispatch_event (Scenario.args false) joblist
                    :: ((λ job, EvParseDelta (ComparisonJob.outfile job))
                          <$> joblist).
Proof.
  intros env genomes r.
  assert (Hs : setup_succeeds env (Scenario.args false) genomes)
    by (repeat split; reflexivity).
  assert (Hr : r = (Ok tt, r.2)) by (vm_compute; reflexivity).
  assert (Hw : work_set env (Scenario.args false) [Scenario.cAB] genomes
               = [(Scenario.gA, Scenario.gC); (Scenario.gB, Scenario.gC)])
    by (vm_compute; reflexivity).
  split; [exact Hs|]. split; [by rewrite Hr|]. split; [exact Hw|].
  destruct (successful_run_trace env (Scenario.args false) [Scenario.cAB]
              genomes r.2 Hs Hr) as (_ & joblist & _ & Hlen & Htr).
  - rewrite Hw. discriminate.
  - exists joblist. split; [by rewrite Hlen, Hw|exact Htr].
Defined.

(** ** The job builder, in full *)

Lemma for_fold_ext {A B} (l : list A) (acc : B) (body body' : B → A → M B) st :
  (∀ acc x st, body acc x st = body' acc x st) →
  for_fold l acc body st = for_fold l acc body' st.
Proof.
  intros H. revert acc st. induction l as [|x l IH]; intros acc st; [done|].
  simpl. unfold bind. rewrite H.
  destruct (body' acc x st) as [[acc'|e] st']; [apply IH|done].
Qed.

Lemma for_fold_generate_job_outcome env files args items acc st :
  for_fold items acc (generate_job env (Some files) args) st
  = (if forallb (λ item, bool_decide (is_Some (job_for env args item))) items
     then Ok (acc ++ omap (emitted env args files) items)
     else Raise IndexError, st).
Proof.
  revert acc st. induction items as [|item items IH]; intros acc st.
  - simpl. unfold ret. by rewrite app_nil_r.
  - cbn [for_fold forallb]. unfold bind. rewrite generate_job_run.
    change (omap (emitted env args files) (item :: items))
      with (match emitted env args files item with
            | Some job => job :: omap (emitted env args files) items
            | None => omap (emitted env args files) items
            end).
    unfold emitted at 1.
    destruct (job_for env args item) as [job|] eqn:Hjob.
    + rewrite bool_decide_eq_true_2 by (by eexists). cbn [andb mbind option_bind].
      destruct (recovered args files job); rewrite IH;
        destruct (forallb _ items); try done.
      by rewrite <- app_assoc.
    + by rewrite bool_decide_eq_false_2 by (by intros [? ?]).
Qed.

Lemma generate_joblist_files env comparisons ef args st :
  Args.recovery args = false ∨ is_Some ef →
  generate_joblist env comparisons ef args st
  = for_fold (imap pair comparisons) []
      (generate_job env (Some (default [] ef)) args) st.
Proof.
  intros Hcase. unfold generate_joblist.
  destruct ef as [files|]; simpl; [done|].
  destruct Hcase as [Hrec|[? ?]]; [|done].
  apply for_fold_ext. intros. by apply generate_job_no_recovery.
Qed.

(** With a list of existing files, or without the recovery flag,
    [generate_joblist] either returns the jobs emitted for the pairs, in
    the order of the pairs, or raises [IndexError] and returns no job at
    all: the latter exactly when the NUCmer command of some pair has fewer
    than four words.  It never changes the state and calls no
    collaborator. *)
Theorem generate_joblist_outcome env comparisons ef args st :
  Args.recovery args = false ∨ is_Some ef →
  generate_joblist env comparisons ef args st
  = (if forallb (λ item, bool_decide (is_Some (job_for env args item)))
          (imap pair comparisons)
     then Ok (omap (emitted env args (default [] ef)) (imap pair comparisons))
     else Raise IndexError, st).
Proof.
  intros Hcase. rewrite generate_joblist_files by done.
  apply for_fold_generate_job_outcome.
Qed.

Lemma generate_joblist_outcome_witness :
  let env :=
    Scenario.env [Scenario.gA; Scenario.gB; Scenario.gC] 0 (2400000, 600000) in
  let comparisons := [(Scenario.gA, Scenario.gC); (Scenario.gB, Scenario.gC)] in
  generate_joblist env comparisons None (Scenario.args false) (start [])
  = (Ok [Scenario.job Scenario.gA Scenario.gC 0;
         Scenario.job Scenario.gB Scenario.gC 1], start []).
Proof.
  intros env comparisons.
  rewrite (generate_joblist_outcome env comparisons None (Scenario.args false)
             (start []) (or_introl eq_refl)).
  vm_compute. reflexivity.
Defined.

Lemma elem_of_imap_pair {A} (l : list A) (item : nat * A) :
  item ∈ imap pair l ↔ l !! item.1 = Some item.2.
Proof.
  destruct item as [i x]. rewrite list_elem_of_lookup. simpl. split.
  - intros [j Hj]. rewrite list_lookup_imap in Hj.
    apply fmap_Some in Hj as (y & Hy & [= -> ->]). done.
  - intros Hi. exists i. by rewrite list_lookup_imap, Hi.
Qed.

(** Every job [generate_joblist] returns stands for one pair of the list,
    at some position [idx]: it carries the pair's genomes and the two
    commands built for them, its output file is the fourth word of the
    NUCmer command with the suffix of the filter mode, and its node is a
    chain of exactly two nodes, the filter node depending on the NUCmer
    node only.  No node depends on a node of another pair. *)
Theorem generate_joblist_chains env comparisons ef args st joblist :
  Args.recovery args = false ∨ is_Some ef →
  (generate_joblist env comparisons ef args st).1 = Ok joblist →
  Forall (λ cj,
      ∃ idx outprefix,
        comparisons !! idx
        = Some (ComparisonJob.query cj, ComparisonJob.subject cj)
        ∧ (ComparisonJob.nucmercmd cj, ComparisonJob.filtercmd cj)
          = construct_nucmer_cmdline env
              (Genome.path (ComparisonJob.query cj))
              (Genome.path (ComparisonJob.subject cj))
              (Args.outdir args) (Args.nucmer_exe args) (Args.filter_exe args)
              (Args.maxmatch args)
        ∧ PyStr.split (ComparisonJob.nucmercmd cj) !! 3%nat = Some outprefix
        ∧ ComparisonJob.outfile cj = outprefix +:+ expected_suffix args
        ∧ chain_of args idx cj) joblist.
Proof.
  intros Hcase Hgen.
  rewrite generate_joblist_files, for_fold_generate_job_outcome in Hgen by done.
  simpl in Hgen. destruct (forallb _ _); [|done]. injection Hgen as <-.
  apply Forall_forall. intros cj Hcj.
  apply list_elem_of_omap in Hcj as ([idx [query subject]] & Hitem & Hem).
  apply elem_of_imap_pair in Hitem. simpl in Hitem.
  unfold emitted in Hem.
  destruct (job_for env args (idx, (query, subject))) as [job|] eqn:Hjob;
    [|done].
  simpl in Hem. destruct (recovered _ _ _); [done|]. injection Hem as ->.
  unfold job_for in Hjob.
  destruct (construct_nucmer_cmdline env _ _ _ _ _ _) as [ncmd dcmd] eqn:Hcmd.
  simpl in Hjob.
  destruct (PyStr.split ncmd !! 3%nat) as [outprefix|] eqn:Hsplit; [|done].
  simpl in Hjob. injection Hjob as <-. simpl.
  exists idx, outprefix. rewrite Hcmd.
  split; [done|]. split; [done|]. split; [done|].
  split; [|done].
  unfold expected_outfname, expected_suffix. by destruct (Args.nofilter args).
Qed.

Lemma generate_joblist_chains_witness :
  let env :=
    Scenario.env [Scenario.gA; Scenario.gB; Scenario.gC] 0 (2400000, 600000) in
  let comparisons := [(Scenario.gA, Scenario.gC); (Scenario.gB, Scenario.gC)] in
  let joblist := [Scenario.job Scenario.gA Scenario.gC 0;
                  Scenario.job Scenario.gB Scenario.gC 1] in
  (generate_joblist env comparisons None (Scenario.args false) (start [])).1
  = Ok joblist
  ∧ Forall (λ cj, ∃ idx, chain_of (Scenario.args false) idx cj) joblist.
Proof.
  intros env comparisons joblist.
  assert (H : (generate_joblist env comparisons None (Scenario.args false)
                 (start [])).1 = Ok joblist) by (vm_compute; reflexivity).
  split; [exact H|].
  eapply Forall_impl;
    [exact (generate_joblist_chains env comparisons None (Scenario.args false)
              (start []) joblist (or_introl eq_refl) H)|].
  intros cj (idx & _ & _ & _ & _ & _ & Hchain). by exists idx.
Defined.

(** What [collect_existing_output] returns when it is called as declared,
    with three arguments, cannot be used by [generate_joblist]: in recovery
    mode and with at least one pair, the job builder raises, [TypeError]
    from the membership test on [None], or [IndexError] when already the
    first NUCmer command has fewer than four words.  Recovery mode can thus
    never produce a job list. *)
Theorem recovery_scan_is_unusable env dirpath args comparisons st ef st' :
  Args.recovery args = true →
  comparisons ≠ [] →
  py_call (collect_existing_output env) [VStr dirpath; VArgs args; VLogger] st
  = (Ok ef, st') →
  ∃ e, (generate_joblist env comparisons ef args st').1 = Raise e
       ∧ (e = TypeError ∨ e = IndexError).
Proof.
  intros Hrec Hne Hscan.
  assert (ef = None) as ->.
  { revert Hscan. unfold py_call. simpl.
    unfold collect_existing_output_body, os_listdir, emit, modify, lift,
      bind, ret. simpl.
    destruct (listdir env dirpath); [by intros [= <- _]|done]. }
  destruct comparisons as [|[query subject] comparisons]; [done|].
  unfold generate_joblist. simpl. unfold bind at 1.
  unfold generate_job at 1.
  destruct (construct_nucmer_cmdline env _ _ _ _ _ _) as [ncmd dcmd].
  unfold getitem, bind, py_in, raise. rewrite Hrec.
  destruct (PyStr.split ncmd !! 3%nat) as [outprefix|]; simpl.
  - exists TypeError. split; [done|by left].
  - exists IndexError. split; [done|by right].
Qed.

Lemma recovery_scan_is_unusable_witness :
  let env :=
    Scenario.env [Scenario.gA; Scenario.gB; Scenario.gC] 0 (2400000, 600000) in
  let scan :=
    py_call (collect_existing_output env)
      [VStr "out/nucmer_output"; VArgs (Scenario.args true); VLogger]
      (start []) in
  scan.1 = Ok None
  ∧ ∃ e, (generate_joblist env [(Scenario.gA, Scenario.gC)] None
            (Scenario.args true) scan.2).1 = Raise e
         ∧ (e = TypeError ∨ e = IndexError).
Proof.
  intros env scan. split; [reflexivity|].
  apply (recovery_scan_is_unusable env "out/nucmer_output" (Scenario.args true)
           [(Scenario.gA, Scenario.gC)] (start []) None scan.2);
    [reflexivity | discriminate | reflexivity].
Defined.

(** ** Ingestion is all or nothing *)

Lemma ingest_job_Ok_ingestible env v args job st st' :
  ingest_job env v args job st = (Ok tt, st') →
  ∃ parsed, ingestible env job parsed.
Proof.
  unfold ingest_job, anim_parse_delta, emit, modify, lift, bind. simpl.
  destruct (parse_delta env _) as [[aln errs]|e] eqn:Hp; [|done].
  divisions job aln errs ltac:(done).
  intros _. exists (aln, errs). by repeat split.
Qed.

Lemma for_each_ingest_Ok_ingestible env v args joblist st st' :
  for_each joblist (ingest_job env v args) st = (Ok tt, st') →
  ∃ parsed, Forall2 (ingestible env) joblist parsed.
Proof.
  revert st. induction joblist as [|job joblist IH]; intros st.
  - intros _. exists []. constructor.
  - simpl. unfold bind.
    destruct (ingest_job env v args job st) as [[[]|e] st1] eqn:Hjob; [|done].
    apply ingest_job_Ok_ingestible in Hjob as [p Hp].
    intros [parsed Hall]%IH. exists (p :: parsed). by constructor.
Qed.

(** [update_comparison_results] returns normally exactly when every job
    of the list can be ingested: its output parses, to a non-zero alignment
    length, neither genome has length zero, and none of the three
    quotients is beyond the largest float.  Then the table gains one
    row per job; otherwise the call raises and the table gains nothing, not
    even the rows of the jobs that came before the failing one. *)
Theorem update_comparison_results_all_or_nothing env joblist v args st :
  let r := update_comparison_results env joblist v args st in
  (r.1 = Ok tt ↔ ∃ parsed, Forall2 (ingestible env) joblist parsed)
  ∧ (r.1 = Ok tt →
       ∃ new, length new = length joblist
              ∧ db_comparisons r.2
                = db_comparisons st ++ session_new st ++ new)
  ∧ (∀ e, r.1 = Raise e → db_comparisons r.2 = db_comparisons st).
Proof.
  cbv zeta. unfold update_comparison_results, bind.
  pose proof (for_each_ingest_frame env v args joblist st) as (Hdb & _ & _).
  destruct (for_each joblist (ingest_job env v args) st)
    as [[[]|e] st1] eqn:Hing; simpl in Hdb.
  - destruct (for_each_ingest_Ok_ingestible _ _ _ _ _ _ Hing) as [parsed Hall].
    rewrite (for_each_ingest env v args joblist parsed st Hall) in Hing.
    injection Hing as <-.
    destruct (foldl_ingested v args st (zip joblist parsed))
      as (Hd & Hn & _).
    split; [split; [by exists parsed|done]|]. split; [|done].
    intros _. unfold session_commit, modify. simpl.
    exists (expected_comparisons v args joblist parsed). split.
    + unfold expected_comparisons. rewrite length_zip_with.
      apply Forall2_length in Hall. lia.
    + rewrite Hd, Hn, expected_comparisons_zip. done.
  - split; [|split; [done|]].
    + split; [done|]. intros [parsed Hall].
      rewrite (for_each_ingest env v args joblist parsed st Hall) in Hing.
      done.
    + intros e' _. simpl. done.
Qed.

(** ** Symmetry of the matrices *)

Lemma position_None l x : x ∉ l → DataFrame.position l x = None.
Proof.
  intros Hx. unfold DataFrame.position.
  destruct (list_find _ l) as [[i y]|] eqn:Hf; [|done].
  apply list_find_Some in Hf as (Hi & -> & _).
  by apply list_elem_of_lookup_2 in Hi.
Qed.

(** A label that is not on the axes reads as a missing key. *)
Lemma loc_missing ids df a b :
  square_over ids df → a ∉ ids ∨ b ∉ ids → DataFrame.loc df a b = None.
Proof.
  intros (Hi & Hc & _) Hab. unfold DataFrame.loc. rewrite Hi, Hc.
  destruct Hab as [Ha|Hb].
  - by rewrite (position_None _ _ Ha).
  - rewrite (position_None _ _ Hb). by destruct (DataFrame.position ids a).
Qed.

Lemma compares_elem_of cs a b :
  Exists (λ c, compares c a b) cs ∨ Forall (λ c, ¬ compares c a b) cs.
Proof.
  destruct (decide (Exists (λ c, compares c a b) cs)) as [H|H]; [by left|].
  right. by apply Forall_Exists_neg in H || apply not_Exists_Forall.
Qed.

(** A frame filled with the same value on both sides of every comparison
    is symmetric if it was symmetric before the loop. *)
Lemma filled_frame_symmetric ids f df cs :
  square_over ids df →
  Forall (λ c, Comparison.query_id c ≠ Comparison.subject_id c
               ∧ Comparison.query_id c ∈ ids
               ∧ Comparison.subject_id c ∈ ids) cs →
  distinct_pairs cs →
  (∀ a b, a ∈ ids → b ∈ ids → DataFrame.loc df a b = DataFrame.loc df b a) →
  ∀ a b, DataFrame.loc (foldl (fill_pair f f) df cs) a b
         = DataFrame.loc (foldl (fill_pair f f) df cs) b a.
Proof.
  intros Hsq Hall Hdist Hsym a b.
  destruct (filled_frame ids f f df cs Hsq Hall Hdist) as (Hsq' & _ & Hat & Hun).
  destruct (decide (a ∈ ids)) as [Ha|Ha];
    [|by rewrite !(loc_missing ids) by (done || auto)].
  destruct (decide (b ∈ ids)) as [Hb|Hb];
    [|by rewrite !(loc_missing ids) by (done || auto)].
  destruct (compares_elem_of cs a b) as [Hex|Hno].
  - apply Exists_exists in Hex as (c & Hc & Hcmp).
    destruct (Hat c Hc) as [H1 H2].
    destruct Hcmp as [[<- <-]|[<- <-]]; congruence.
  - assert (Hno' : Forall (λ c, ¬ compares c b a) cs).
    { eapply Forall_impl; [exact Hno|]. intros c Hc ?%compares_sym. done. }
    rewrite (Hun a b Ha Hb Hno), (Hun b a Hb Ha Hno'). by apply Hsym.
Qed.

(** After [update_comparison_matrices] on a consistent run, the identity,
    alignment-length and similarity-error matrices are symmetric in every
    pair of labels, compared or not; a label that is not a genome of the
    run reads as a missing key on both sides. *)
Theorem stored_matrices_symmetric args st mi ma ms :
  run_consistent (run st) →
  let r := update_comparison_matrices args st in
  Run.df_identity (run r.2) = Some mi →
  Run.df_alnlength (run r.2) = Some ma →
  Run.df_simerrors (run r.2) = Some ms →
  ∀ a b, DataFrame.loc mi a b = DataFrame.loc mi b a
         ∧ DataFrame.loc ma a b = DataFrame.loc ma b a
         ∧ DataFrame.loc ms a b = DataFrame.loc ms b a.
Proof.
  intros Hrun. cbv zeta.
  rewrite update_comparison_matrices_run. simpl.
  rewrite comparison_matrices_unfold. cbv zeta. simpl.
  intros [= <-] [= <-] [= <-] a b.
  set (ids := genome_ids_of (run st)).
  destruct (run_consistent_labels _ Hrun) as (Hgs & Hcs & _).
  fold ids in Hgs, Hcs.
  pose proof (comparisons_distinct _ Hrun) as Hdist.
  assert (Hdiag : ∀ a b, a ∈ ids → b ∈ ids →
            DataFrame.loc (DataFrame.fill_diagonal 1%float
                             (DataFrame.new ids ids)) a b
            = DataFrame.loc (DataFrame.fill_diagonal 1%float
                               (DataFrame.new ids ids)) b a).
  { intros x y Hx Hy. rewrite !(loc_diagonal_frame ids) by done.
    repeat case_decide; congruence. }
  split; [|split].
  - apply (filled_frame_symmetric ids); try done.
    apply square_over_diagonal_frame.
  - apply (filled_frame_symmetric ids); try done.
    + apply foldl_set_genome_length_square; [apply square_over_new|done].
    + intros x y Hx Hy. destruct (decide (x = y)) as [->|Hxy]; [done|].
      rewrite !(foldl_set_genome_length_untouched ids);
        try (done || apply square_over_new).
      * by rewrite !loc_new.
      * apply Forall_forall. intros g _ [? ?]. congruence.
      * apply Forall_forall. intros g _ [? ?]. congruence.
  - apply (filled_frame_symmetric ids); try done.
    apply square_over_diagonal_frame.
Qed.

Lemma stored_matrices_symmetric_witness :
  let st := mkState [Scenario.cAB] [] Scenario.run_CAB [] in
  let r := update_comparison_matrices (Scenario.args false) st in
  run_consistent (run st)
  ∧ ∃ ma, Run.df_alnlength (run r.2) = Some ma
          ∧ DataFrame.loc ma 1 2 = Some 2400000%float
          ∧ DataFrame.loc ma 1 2 = DataFrame.loc ma 2 1
          ∧ DataFrame.loc ma 1 3 = DataFrame.loc ma 3 1.
Proof.
  intros st r.
  assert (Hrun : run_consistent (run st)).
  { split; simpl.
    - repeat (apply NoDup_cons; split; [rewrite ?elem_of_cons, ?elem_of_nil; lia|]).
      apply NoDup_nil_2.
    - apply Forall_cons. split; [|by apply Forall_nil].
      unfold Comparison.query_id, Comparison.subject_id. simpl.
      rewrite !elem_of_cons. split; [lia|].
      split; [right; left; reflexivity | right; right; left; reflexivity].
    - simpl. split; [by apply Forall_nil|done]. }
  split; [exact Hrun|].
  destruct (Run.df_identity (run r.2)) as [mi|] eqn:Hi; [|discriminate Hi].
  destruct (Run.df_alnlength (run r.2)) as [ma|] eqn:Ha; [|discriminate Ha].
  destruct (Run.df_simerrors (run r.2)) as [ms|] eqn:Hs; [|discriminate Hs].
  exists ma. split; [reflexivity|].
  split; [injection Ha as <-; vm_compute; reflexivity|].
  pose proof (stored_matrices_symmetric (Scenario.args false) st mi ma ms
                Hrun Hi Ha Hs) as Hsym.
  split; [apply (Hsym 1 2)|apply (Hsym 1 3)].
Defined.

(** ** The matrices do not depend on the order of the rows *)

Lemma same_pair_sym c c' : same_pair c c' → same_pair c' c.
Proof. unfold same_pair. intuition congruence. Qed.

Lemma distinct_pairs_Permutation cs1 cs2 :
  cs1 ≡ₚ cs2 → distinct_pairs cs1 → distinct_pairs cs2.
Proof.
  induction 1 as [|c cs1 cs2 Hp IH|c c' cs|cs1 cs2 cs3 _ IH1 _ IH2].
  - done.
  - cbn. intros [Hc Hd]. split; [by rewrite <- Hp|by apply IH].
  - cbn. intros [[Hcc' Hc']%Forall_cons [Hc Hd]].
    split; [|done]. apply Forall_cons. split; [|done].
    intros ?%same_pair_sym. done.
  - auto.
Qed.

Lemma filled_frame_Permutation ids f g df cs1 cs2 :
  square_over ids df →
  Forall (λ c, Comparison.query_id c ≠ Comparison.subject_id c
               ∧ Comparison.query_id c ∈ ids
               ∧ Comparison.subject_id c ∈ ids) cs1 →
  distinct_pairs cs1 →
  cs1 ≡ₚ cs2 →
  ∀ a b, DataFrame.loc (foldl (fill_pair f g) df cs1) a b
         = DataFrame.loc (foldl (fill_pair f g) df cs2) a b.
Proof.
  intros Hsq Hall1 Hdist1 Hp a b.
  assert (Hall2 := Hall1). rewrite Hp in Hall2.
  pose proof (distinct_pairs_Permutation _ _ Hp Hdist1) as Hdist2.
  destruct (filled_frame ids f g df cs1 Hsq Hall1 Hdist1)
    as (Hsq1 & _ & Hat1 & Hun1).
  destruct (filled_frame ids f g df cs2 Hsq Hall2 Hdist2)
    as (Hsq2 & _ & Hat2 & Hun2).
  destruct (decide (a ∈ ids)) as [Ha|Ha];
    [|by rewrite !(loc_missing ids) by (done || auto)].
  destruct (decide (b ∈ ids)) as [Hb|Hb];
    [|by rewrite !(loc_missing ids) by (done || auto)].
  destruct (compares_elem_of cs1 a b) as [Hex|Hno].
  - apply Exists_exists in Hex as (c & Hc & Hcmp).
    assert (c ∈ cs2) as Hc' by (by rewrite <- Hp).
    destruct (Hat1 c Hc) as [H1 H1'], (Hat2 c Hc') as [H2 H2'].
    destruct Hcmp as [[<- <-]|[<- <-]]; congruence.
  - assert (Hno' := Hno). rewrite Hp in Hno'.
    by rewrite (Hun1 a b Ha Hb Hno), (Hun2 a b Ha Hb Hno').
Qed.

Lemma genome_ids_of_Permutation r1 r2 :
  Run.genomes r1 ≡ₚ Run.genomes r2 → genome_ids_of r1 = genome_ids_of r2.
Proof.
  intros Hp. unfold genome_ids_of.
  apply (Sorted_unique Z.le); [apply Sorted_merge_sort, _..|].
  by rewrite !merge_sort_Permutation, Hp.
Qed.

Lemma genome_lengths_Permutation ids gs1 gs2 :
  Forall (λ g, Genome.genome_id g ∈ ids) gs1 →
  NoDup (Genome.genome_id <$> gs1) →
  gs1 ≡ₚ gs2 →
  ∀ a b, a ∈ ids → b ∈ ids →
    DataFrame.loc (foldl set_genome_length (DataFrame.new ids ids) gs1) a b
    = DataFrame.loc (foldl set_genome_length (DataFrame.new ids ids) gs2) a b.
Proof.
  intros Hall1 Hnd1 Hp a b Ha Hb.
  assert (Hall2 := Hall1). rewrite Hp in Hall2.
  assert (Hnd2 := Hnd1). rewrite Hp in Hnd2.
  destruct (decide (Exists (λ g, a = Genome.genome_id g
                                 ∧ b = Genome.genome_id g) gs1))
    as [Hex|Hno].
  - apply Exists_exists in Hex as (g & Hg & -> & ->).
    rewrite !(foldl_set_genome_length_at ids);
      try (done || apply square_over_new).
    by rewrite <- Hp.
  - apply not_Exists_Forall in Hno; [|apply _].
    assert (Hno' := Hno). rewrite Hp in Hno'.
    by rewrite !(foldl_set_genome_length_untouched ids)
      by (done || apply square_over_new).
Qed.

(** For a consistent run, the five matrices depend neither on the order
    in which the store lists the genomes of the run nor on the order in
    which it lists its comparisons: the labels are the same and every cell
    reads the same. *)
Theorem matrices_independent_of_order (r1 r2 : Run) :
  run_consistent r1 →
  Run.genomes r1 ≡ₚ Run.genomes r2 →
  Run.comparisons r1 ≡ₚ Run.comparisons r2 →
  let m1 := comparison_matrices r1 in
  let m2 := comparison_matrices r2 in
  genome_ids_of r1 = genome_ids_of r2
  ∧ ∀ a b,
      DataFrame.loc (Matrices.df_identity m1) a b
      = DataFrame.loc (Matrices.df_identity m2) a b
      ∧ DataFrame.loc (Matrices.df_coverage m1) a b
        = DataFrame.loc (Matrices.df_coverage m2) a b
      ∧ DataFrame.loc (Matrices.df_alnlength m1) a b
        = DataFrame.loc (Matrices.df_alnlength m2) a b
      ∧ DataFrame.loc (Matrices.df_simerrors m1) a b
        = DataFrame.loc (Matrices.df_simerrors m2) a b
      ∧ DataFrame.loc (Matrices.df_hadamard m1) a b
        = DataFrame.loc (Matrices.df_hadamard m2) a b.
Proof.
  intros Hrun Hgs Hcs. cbv zeta.
  pose proof (genome_ids_of_Permutation _ _ Hgs) as Hids.
  split; [done|]. intros a b.
  rewrite !comparison_matrices_unfold. cbv zeta. cbn [Matrices.df_identity
    Matrices.df_coverage Matrices.df_alnlength Matrices.df_simerrors
    Matrices.df_hadamard].
  rewrite <- Hids. set (ids := genome_ids_of r1).
  destruct (run_consistent_labels _ Hrun) as (Hall & Hcmp & _).
  fold ids in Hall, Hcmp.
  pose proof (comparisons_distinct _ Hrun) as Hdist.
  pose proof (genome_ids_unique _ Hrun) as Hnd.
  pose proof (square_over_diagonal_frame ids) as Hdiag.
  repeat split; try (by apply (filled_frame_Permutation ids)).
  assert (Hall2 := Hall). rewrite Hgs in Hall2.
  assert (Hcmp2 := Hcmp). rewrite Hcs in Hcmp2.
  pose proof (distinct_pairs_Permutation _ _ Hcs Hdist) as Hdist2.
  etrans; [by apply (filled_frame_Permutation ids);
             [apply foldl_set_genome_length_square;
                [apply square_over_new|done]|..]|].
  set (f := λ c, PyNum.float_of_int (Comparison.aln_length c)).
  destruct (filled_frame ids f f
              (foldl set_genome_length (DataFrame.new ids ids) (Run.genomes r1))
              (Run.comparisons r2))
    as (Hsq1 & _ & Hat1 & Hun1);
    [by apply foldl_set_genome_length_square; [apply square_over_new|]
    |done|done|].
  destruct (filled_frame ids f f
              (foldl set_genome_length (DataFrame.new ids ids) (Run.genomes r2))
              (Run.comparisons r2))
    as (Hsq2 & _ & Hat2 & Hun2);
    [by apply foldl_set_genome_length_square; [apply square_over_new|]
    |done|done|].
  destruct (decide (a ∈ ids)) as [Ha|Ha];
    [|by rewrite !(loc_missing ids) by (done || auto)].
  destruct (decide (b ∈ ids)) as [Hb|Hb];
    [|by rewrite !(loc_missing ids) by (done || auto)].
  destruct (compares_elem_of (Run.comparisons r2) a b) as [Hex|Hno].
  - apply Exists_exists in Hex as (c & Hc & Hab).
    destruct (Hat1 c Hc) as [H1 H1'], (Hat2 c Hc) as [H2 H2'].
    destruct Hab as [[<- <-]|[<- <-]]; congruence.
  - rewrite (Hun1 a b Ha Hb Hno), (Hun2 a b Ha Hb Hno).
    by apply genome_lengths_Permutation.
Qed.

Lemma matrices_independent_of_order_witness :
  let r1 := Scenario.run_CAB in
  let r2 := with_genomes [Scenario.gA; Scenario.gB; Scenario.gC] r1 in
  genome_ids_of r1 = genome_ids_of r2
  ∧ DataFrame.loc (Matrices.df_alnlength (comparison_matrices r1)) 3 3
    = DataFrame.loc (Matrices.df_alnlength (comparison_matrices r2)) 3 3.
Proof.
  intros r1 r2.
  assert (Hrun : run_consistent r1).
  { split; simpl.
    - repeat (apply NoDup_cons; split;
              [rewrite ?elem_of_cons, ?elem_of_nil; lia|]).
      apply NoDup_nil_2.
    - apply Forall_cons. split; [|by apply Forall_nil].
      unfold Comparison.query_id, Comparison.subject_id. simpl.
      rewrite !elem_of_cons. split; [lia|].
      split; [right; left; reflexivity | right; right; left; reflexivity].
    - simpl. split; [by apply Forall_nil|done]. }
  assert (Hgs : Run.genomes r1 ≡ₚ Run.genomes r2).
  { simpl. etrans; [apply Permutation_swap|].
    apply Permutation_skip, Permutation_swap. }
  assert (Hcs : Run.comparisons r1 ≡ₚ Run.comparisons r2) by reflexivity.
  destruct (matrices_independent_of_order r1 r2 Hrun Hgs Hcs) as [Hids Hloc].
  split; [exact Hids|]. apply (Hloc 3 3).
Defined.

(** * Strings and paths *)

Lemma string_app_cons (c : ascii) (s1 s2 : string) :
  String c s1 +:+ s2 = String c (s1 +:+ s2).
Proof. done. Qed.

Lemma string_app_nil_r (s : string) : s +:+ "" = s.
Proof.
  induction s as [|c s IH]; [done|]. by rewrite string_app_cons, IH.
Qed.

Lemma string_app_assoc (s1 s2 s3 : string) :
  (s1 +:+ s2) +:+ s3 = s1 +:+ s2 +:+ s3.
Proof.
  induction s1 as [|c s1 IH]; [done|]. by rewrite !string_app_cons, IH.
Qed.

Lemma string_length_app (s1 s2 : string) :
  String.length (s1 +:+ s2) = (String.length s1 + String.length s2)%nat.
Proof.
  induction s1 as [|c s1 IH]; [done|]. rewrite string_app_cons. cbn.
  by rewrite IH.
Qed.

Lemma count_char_app (sep : ascii) (a b : string) :
  count_char sep (a +:+ b) = (count_char sep a + count_char sep b)%nat.
Proof.
  induction a as [|c a IH]; [done|].
  rewrite string_app_cons. cbn [count_char]. rewrite IH. lia.
Qed.

(** ** [os.path] *)

Lemma rev_app_spec (s t : string) :
  String.rev_app s t = String.rev s +:+ t.
Proof.
  unfold String.rev. revert t. induction s as [|c s IH]; intros t; [done|].
  cbn [String.rev_app]. rewrite (IH (String c t)), (IH (String c "")).
  by rewrite string_app_assoc.
Qed.

Lemma rev_app_rev_app (s t u : string) :
  String.rev_app (String.rev_app s t) u = String.rev_app t (s +:+ u).
Proof.
  revert t. induction s as [|c s IH]; intros t; [done|].
  cbn [String.rev_app]. by rewrite IH.
Qed.

Lemma string_rev_involutive (s : string) : String.rev (String.rev s) = s.
Proof.
  unfold String.rev. rewrite rev_app_rev_app. cbn [String.rev_app].
  apply string_app_nil_r.
Qed.

Lemma basename_go_after_slash (cur a x : string) :
  PyStr.basename_go cur (a +:+ String "/" x) = PyStr.basename_go "" x.
Proof.
  revert cur. induction a as [|c a IH]; intros cur.
  - change ("" +:+ String "/" x) with (String "/" x).
    cbn [PyStr.basename_go]. by rewrite decide_True.
  - rewrite string_app_cons. cbn [PyStr.basename_go].
    case_decide; apply IH.
Qed.

Lemma basename_go_no_slash (cur x : string) :
  count_char "/" x = 0%nat →
  PyStr.basename_go cur x = String.rev cur +:+ x.
Proof.
  revert cur. induction x as [|c x IH]; intros cur Hx.
  - cbn [PyStr.basename_go]. by rewrite string_app_nil_r.
  - cbn [count_char] in Hx. destruct (decide (c = "/"%char)) as [|Hc]; [lia|].
    cbn [PyStr.basename_go]. rewrite decide_False by done.
    rewrite IH by lia. unfold String.rev at 1. cbn [String.rev_app].
    rewrite rev_app_spec. by rewrite string_app_assoc.
Qed.

Lemma join_relative (a x : string) :
  count_char "/" x = 0%nat →
  PyStr.join a x
  = if decide (a = "") then x
    else if PyStr.endswith_slash a then a +:+ x
         else a +:+ "/" +:+ x.
Proof.
  intros Hx. unfold PyStr.join. destruct x as [|c x]; [done|].
  cbn [count_char] in Hx. destruct (decide (c = "/"%char)) as [|Hc]; [lia|].
  destruct c as [[] [] [] [] [] [] [] []]; try reflexivity.
  by destruct Hc.
Qed.

Lemma basename_join (a x : string) :
  count_char "/" x = 0%nat → PyStr.basename (PyStr.join a x) = x.
Proof.
  intros Hx. rewrite join_relative by done. unfold PyStr.basename.
  case_decide.
  - by rewrite basename_go_no_slash.
  - destruct (PyStr.endswith_slash a) eqn:Hend.
    + unfold PyStr.endswith_slash in Hend.
      destruct (String.rev a) as [|c r] eqn:Hrev; [done|].
      apply bool_decide_eq_true_1 in Hend as ->.
      rewrite <- (string_rev_involutive a), Hrev.
      unfold String.rev at 1. cbn [String.rev_app]. rewrite rev_app_spec.
      rewrite string_app_assoc.
      change (String "/" "" +:+ x) with (String "/" x).
      rewrite basename_go_after_slash. by rewrite basename_go_no_slash.
    + change (a +:+ "/" +:+ x) with (a +:+ String "/" x).
      rewrite basename_go_after_slash. by rewrite basename_go_no_slash.
Qed.

(** ** The names of the scan and the names of the jobs *)

Lemma count_char_rev_app (c : ascii) (s t : string) :
  count_char c (String.rev_app s t) = (count_char c s + count_char c t)%nat.
Proof.
  revert t. induction s as [|c' s IH]; intros t; [done|].
  cbn [String.rev_app]. rewrite IH. cbn [count_char]. lia.
Qed.

Lemma basename_go_count (cur p : string) :
  count_char "/" cur = 0%nat →
  count_char "/" (PyStr.basename_go cur p) = 0%nat.
Proof.
  revert cur. induction p as [|c p IH]; intros cur Hcur.
  - cbn [PyStr.basename_go]. unfold String.rev.
    rewrite count_char_rev_app. cbn. lia.
  - cbn [PyStr.basename_go]. case_decide; apply IH; [done|].
    cbn [count_char]. rewrite decide_False by done. lia.
Qed.

Lemma basename_go_app (cur p suffix : string) :
  count_char "/" suffix = 0%nat →
  PyStr.basename_go cur (p +:+ suffix) = PyStr.basename_go cur p +:+ suffix.
Proof.
  intros Hs. revert cur. induction p as [|c p IH]; intros cur.
  - change ("" +:+ suffix) with suffix. cbn [PyStr.basename_go].
    by apply basename_go_no_slash.
  - rewrite string_app_cons. cbn [PyStr.basename_go]. case_decide; apply IH.
Qed.

Lemma ext_go_stem (b s : string) (seen : bool) (ext : option string) :
  count_char "/" b = 0%nat →
  ∃ ext', PyStr.ext_go seen ext (b +:+ s)
          = PyStr.ext_go (seen || negb (only_dots b)) ext' s.
Proof.
  revert seen ext. induction b as [|c b IH]; intros seen ext Hb.
  - exists ext. by rewrite orb_false_r.
  - cbn [count_char] in Hb. destruct (decide (c = "/"%char)) as [|Hc]; [lia|].
    rewrite string_app_cons. cbn [PyStr.ext_go].
    unfold only_dots. cbn [all_chars]. fold (only_dots b).
    destruct (decide (c = "."%char)) as [->|Hdot].
    + rewrite bool_decide_eq_true_2 by done. cbn [andb].
      apply IH. lia.
    + rewrite decide_False by done.
      rewrite bool_decide_eq_false_2 by done. cbn [andb negb].
      rewrite orb_true_r.
      destruct (IH true ext ltac:(lia)) as (ext' & ->). by exists ext'.
Qed.

Lemma ext_go_only_dots (b s : string) (ext : option string) :
  only_dots b = true →
  PyStr.ext_go false ext (b +:+ s) = PyStr.ext_go false ext s.
Proof.
  induction b as [|c b IH]; intros Hb; [done|].
  unfold only_dots in Hb. cbn [all_chars] in Hb.
  apply andb_true_iff in Hb as [->%bool_decide_eq_true_1 Hb].
  rewrite string_app_cons. cbn [PyStr.ext_go]. rewrite decide_True by done.
  by apply IH.
Qed.

(** The scan of [collect_existing_output] and the job builder agree on
    file names: the name under which [generate_joblist] looks up the
    output of a job is kept by the scan's filter whenever a file of that
    name is listed, unless the output prefix ends in a name that is empty
    or made of dots only, in which case the scan never keeps it. *)
Theorem scan_keeps_job_outputs (args : Args) (outprefix : string)
    (names : list string) :
  let outfname := expected_outfname outprefix args in
  PyStr.basename outfname ∈ existing_output_files names args
  ↔ PyStr.basename outfname ∈ names
    ∧ only_dots (PyStr.basename outprefix) = false.
Proof.
  cbv zeta. unfold existing_output_files. rewrite list_elem_of_filter.
  assert (expected_outfname outprefix args
          = outprefix +:+ expected_suffix args) as ->.
  { unfold expected_outfname, expected_suffix. by destruct (Args.nofilter args). }
  assert (count_char "/" (expected_suffix args) = 0%nat) as Hsuffix.
  { unfold expected_suffix. by destruct (Args.nofilter args). }
  unfold PyStr.basename. rewrite basename_go_app by done.
  fold (PyStr.basename outprefix).
  assert (count_char "/" (PyStr.basename outprefix) = 0%nat) as Hbase
    by (by apply basename_go_count).
  unfold PyStr.splitext_ext.
  destruct (only_dots (PyStr.basename outprefix)) eqn:Hdots.
  - rewrite ext_go_only_dots by done.
    unfold expected_suffix. destruct (Args.nofilter args); cbn;
      split; intros [? ?]; done.
  - destruct (ext_go_stem (PyStr.basename outprefix) (expected_suffix args)
                false None Hbase) as (ext' & ->).
    rewrite Hdots. cbn [orb negb].
    unfold expected_suffix. destruct (Args.nofilter args); cbn; tauto.
Qed.

(** ** The names of the nodes *)

Lemma pretty_N_go_leading (x : N) (s : string) :
  (0 < x)%N →
  ∃ c s', pretty_N_go x s = String c s' ∧ c ≠ "0"%char.
Proof.
  revert s. induction (N.lt_wf_0 x) as [x _ IH]; intros s Hx.
  rewrite pretty_N_go_step by done.
  assert (0 < x < 10 ∨ 10 ≤ x)%N as [[_ Hlt]|Hge] by lia.
  - rewrite N.div_small, N.mod_small, pretty_N_go_0 by done.
    eexists _, _. split; [done|].
    assert (x = 1 ∨ x = 2 ∨ x = 3 ∨ x = 4 ∨ x = 5 ∨ x = 6
            ∨ x = 7 ∨ x = 8 ∨ x = 9)%N as Hcases by lia.
    destruct Hcases as [->|[->|[->|[->|[->|[->|[->|[->| ->]]]]]]]]; done.
  - apply IH.
    + by apply N.div_lt.
    + apply N.div_str_pos. lia.
Qed.

(** A decimal numeral is ["0"] or starts with another digit. *)
Lemma pretty_nat_canonical (n : nat) :
  pretty n = "0" ∨ ∃ c s, pretty n = String c s ∧ c ≠ "0"%char.
Proof.
  unfold pretty, pretty_nat, pretty, pretty_N.
  case_decide; [by left|]. right. apply pretty_N_go_leading. lia.
Qed.

Lemma zeros_cons (k : nat) :
  String.concat "" (replicate (S k) "0")
  = String "0" (String.concat "" (replicate k "0")).
Proof. by destruct k. Qed.

Lemma zeros_canonical (j k : nat) (p q : string) :
  (p = "0" ∨ ∃ c s, p = String c s ∧ c ≠ "0"%char) →
  (q = "0" ∨ ∃ c s, q = String c s ∧ c ≠ "0"%char) →
  String.concat "" (replicate j "0") +:+ p
  = String.concat "" (replicate k "0") +:+ q →
  p = q.
Proof.
  intros Hp Hq. revert k. induction j as [|j IH]; intros [|k].
  - done.
  - rewrite zeros_cons, string_app_cons.
    change (String.concat "" (replicate 0 "0") +:+ p) with p.
    destruct Hp as [->|(c & s & -> & Hc)]; [|by intros [= ? _]].
    intros [= Hq']. destruct k; [|by rewrite zeros_cons in Hq'].
    destruct Hq as [->|(c & s & -> & Hc)]; done.
  - rewrite zeros_cons, string_app_cons.
    change (String.concat "" (replicate 0 "0") +:+ q) with q.
    destruct Hq as [->|(c & s & -> & Hc)]; [|by intros [= ? _]].
    intros [= Hp']. destruct j; [|by rewrite zeros_cons in Hp'].
    destruct Hp as [->|(c & s & -> & Hc)]; done.
  - rewrite !zeros_cons, !string_app_cons. intros [= H]. by apply IH in H.
Qed.

(** Different positions give different six-digit fields. *)
Lemma fmt_06d_inj (a b : nat) : fmt_06d a = fmt_06d b → a = b.
Proof.
  unfold fmt_06d. cbv zeta. intros H.
  apply zeros_canonical in H; [|apply pretty_nat_canonical..].
  by apply (inj pretty) in H.
Qed.

Lemma string_app_inj_length (x y s t : string) :
  String.length s = String.length t → x +:+ s = y +:+ t → x = y ∧ s = t.
Proof.
  intros Hlen H.
  assert (String.length x = String.length y) as Hxy.
  { apply (f_equal String.length) in H. rewrite !string_length_app in H. lia. }
  clear Hlen. revert y Hxy H. induction x as [|c x IH]; intros [|c' y] Hxy H;
    try done.
  rewrite !string_app_cons in H. injection H as -> H.
  cbn in Hxy. destruct (IH y) as [-> ->]; [lia|done|done].
Qed.

Lemma node_name_inj (jobprefix sfx sfx' : string) (a b : nat) :
  String.length sfx = String.length sfx' →
  jobprefix +:+ "_" +:+ fmt_06d a +:+ sfx
  = jobprefix +:+ "_" +:+ fmt_06d b +:+ sfx' →
  a = b ∧ sfx = sfx'.
Proof.
  intros Hlen H. apply (inj (String.app jobprefix)) in H.
  apply (inj (String.app "_")) in H.
  apply string_app_inj_length in H as [H ->]; [|done].
  by apply fmt_06d_inj in H.
Qed.

Lemma emitted_node_names env args files idx pair cj :
  emitted env args files (idx, pair) = Some cj →
  node_names cj
  = [Args.jobprefix args +:+ "_" +:+ fmt_06d idx +:+ "-f";
     Args.jobprefix args +:+ "_" +:+ fmt_06d idx +:+ "-n"].
Proof.
  unfold emitted, job_for. destruct pair as [query subject].
  destruct (PyStr.split _ !! 3%nat) as [outprefix|]; [|done].
  cbn [mbind option_bind]. destruct (recovered _ _ _); [done|].
  by intros [= <-].
Qed.

Lemma imap_pair_fst {A} (l : list A) : (imap pair l).*1 = seq 0 (length l).
Proof.
  assert (H : ∀ g : nat → nat,
            (imap (λ i x, (g i, x)) l).*1 = g <$> seq 0 (length l)).
  { induction l as [|x l IH]; intros g; [done|].
    cbn [imap length seq fmap list_fmap]. f_equal.
    rewrite <- fmap_S_seq, <- list_fmap_compose. apply (IH (g ∘ S)). }
  rewrite <- (list_fmap_id (seq 0 (length l))). apply (H id).
Qed.

Lemma emitted_names_distinct env args files
    (items : list (nat * (Genome * Genome))) :
  NoDup items.*1 →
  NoDup (omap (emitted env args files) items ≫= node_names)
  ∧ ∀ name, name ∈ omap (emitted env args files) items ≫= node_names →
      ∃ idx sfx, idx ∈ items.*1 ∧ String.length sfx = 2%nat
        ∧ name = Args.jobprefix args +:+ "_" +:+ fmt_06d idx +:+ sfx.
Proof.
  induction items as [|[idx pair] items IH]; intros Hnd.
  { split; [constructor|]. by intros name ?%elem_of_nil. }
  apply NoDup_cons in Hnd as [Hidx Hnd].
  destruct (IH Hnd) as [IHnd IHin].
  change (omap (emitted env args files) ((idx, pair) :: items))
    with (match emitted env args files (idx, pair) with
          | Some cj => cj :: omap (emitted env args files) items
          | None => omap (emitted env args files) items
          end).
  destruct (emitted env args files (idx, pair)) as [cj|] eqn:Hcj.
  2:{ split; [done|]. intros name (i & sfx & Hi & ?)%IHin.
      exists i, sfx. split; [|done].
      rewrite fmap_cons. by apply list_elem_of_further. }
  rewrite bind_cons, (emitted_node_names _ _ _ _ _ _ Hcj). split.
  - apply NoDup_app. split; [|split; [|done]].
    + apply NoDup_cons. split; [|apply NoDup_singleton].
      intros Heq%list_elem_of_singleton.
      by apply node_name_inj in Heq as [_ [=]].
    + intros name Hname (i & sfx & Hi & Hlen & ->)%IHin.
      apply elem_of_cons in Hname as [Heq|Heq%list_elem_of_singleton];
        symmetry in Heq; apply node_name_inj in Heq as [-> _]; done.
  - intros name [Hname|Hname]%elem_of_app.
    + assert (idx ∈ ((idx, pair) :: items).*1) as Hidx'
        by (rewrite fmap_cons; apply list_elem_of_here).
      exists idx. apply elem_of_cons in Hname
        as [->| ->%list_elem_of_singleton].
      * by exists "-f".
      * by exists "-n".
    + apply IHin in Hname as (i & sfx & Hi & ?).
      exists i, sfx. split; [|done].
      rewrite fmap_cons. by apply list_elem_of_further.
Qed.

(** The nodes of the jobs that [generate_joblist] returns have pairwise
    different names: no two jobs share a name, and within a job the filter
    node and the NUCmer node are named differently. *)
Theorem generate_joblist_names_distinct env comparisons ef args st joblist :
  Args.recovery args = false ∨ is_Some ef →
  (generate_joblist env comparisons ef args st).1 = Ok joblist →
  NoDup (joblist ≫= node_names).
Proof.
  intros Hcase Hgen.
  rewrite generate_joblist_files, for_fold_generate_job_outcome in Hgen by done.
  destruct (forallb _ _); [|done]. simpl in Hgen. injection Hgen as <-.
  apply emitted_names_distinct.
  rewrite imap_pair_fst. apply NoDup_seq.
Qed.

Lemma generate_joblist_names_distinct_witness :
  let env :=
    Scenario.env [Scenario.gA; Scenario.gB; Scenario.gC] 0 (2400000, 600000) in
  let comparisons := [(Scenario.gA, Scenario.gC); (Scenario.gB, Scenario.gC)] in
  NoDup ["ANIm_000000-f"; "ANIm_000000-n"; "ANIm_000001-f"; "ANIm_000001-n"].
Proof.
  intros env comparisons.
  apply (generate_joblist_names_distinct env comparisons None
           (Scenario.args false) (start [])
           [Scenario.job Scenario.gA Scenario.gC 0;
            Scenario.job Scenario.gB Scenario.gC 1]).
  - left. reflexivity.
  - vm_compute. reflexivity.
Defined.

(** * Properties of download.py *)

Section download.
Import Download.

(** ** [entrez_retry] *)

Lemma entrez_retry_loop_outcome {W A} (func : IO W A) (n : nat) (w : W) :
  ∃ k, (k ≤ n)%nat
    ∧ (entrez_retry_loop func n w).2 = world_after func k w
    ∧ (∀ j, (S j < k)%nat → network_failure (call func j w))
    ∧ match (entrez_retry_loop func n w).1 with
      | Ok output => ∃ j, k = S j ∧ call func j w = Ok output
      | Raise e =>
          (e = NCBIDownloadException "Too many Entrez failures"
           ∧ k = n
           ∧ ∀ j, (j < k)%nat → network_failure (call func j w))
          ∨ (∃ j, k = S j ∧ call func j w = Raise e ∧ is_URLError e = false)
      end.
Proof.
  revert w. induction n as [|n IH]; intros w.
  - exists 0%nat. cbn. repeat split; try lia. left. repeat split; intros; lia.
  - cbn [entrez_retry_loop].
    destruct (func w) as [[output|e] w'] eqn:Hcall.
    + exists 1%nat. cbn. rewrite Hcall. repeat split; try lia.
      exists 0%nat. unfold call. cbn. by rewrite Hcall.
    + destruct (is_URLError e) eqn:He.
      * destruct (IH w') as (k & Hk & Hw & Hbefore & Hres).
        assert (Hshift : ∀ j, call func (S j) w = call func j w').
        { intros j. unfold call. cbn. by rewrite Hcall. }
        assert (H0 : network_failure (call func 0 w)).
        { unfold call. cbn. by rewrite Hcall. }
        exists (S k). split; [lia|]. split; [cbn; by rewrite Hcall|].
        split.
        { intros [|j] Hj; [done|]. rewrite Hshift. apply Hbefore. lia. }
        destruct ((entrez_retry_loop func n w').1) as [output|e'].
        -- destruct Hres as (j & -> & Hj). exists (S j). by rewrite Hshift.
        -- destruct Hres as [(-> & -> & Hall)|(j & -> & Hj & He')].
           ++ left. repeat split. intros [|j] Hj; [done|].
              rewrite Hshift. apply Hall. lia.
           ++ right. exists (S j). by rewrite Hshift.
      * exists 1%nat. cbn. rewrite Hcall. repeat split; try lia.
        right. exists 0%nat. unfold call. cbn. by rewrite Hcall.
Qed.

(** [entrez_retry] calls [func] at most [retries] times, one call after
    the other, and stops at the first call that does not fail with
    [HTTPError] or [URLError]: it returns what that call returns, or raises
    what it raises.  After [retries] such failures (none, if [retries] is
    not positive) it raises [NCBIDownloadException]. *)
Theorem entrez_retry_outcome {W A} (func : IO W A) (retries : Z) (w : W) :
  ∃ k : nat,
    Z.of_nat k ≤ Z.max 0 retries
    ∧ (entrez_retry func retries w).2 = world_after func k w
    ∧ (∀ j, (S j < k)%nat → network_failure (call func j w))
    ∧ match (entrez_retry func retries w).1 with
      | Ok output => ∃ j, k = S j ∧ call func j w = Ok output
      | Raise e =>
          (e = NCBIDownloadException "Too many Entrez failures"
           ∧ Z.of_nat k = Z.max 0 retries
           ∧ ∀ j, (j < k)%nat → network_failure (call func j w))
          ∨ (∃ j, k = S j ∧ call func j w = Raise e ∧ is_URLError e = false)
      end.
Proof.
  unfold entrez_retry.
  destruct (entrez_retry_loop_outcome func (Z.to_nat retries) w)
    as (k & Hk & Hw & Hbefore & Hres).
  exists k. split; [lia|]. split; [done|]. split; [done|].
  destruct ((entrez_retry_loop func (Z.to_nat retries) w).1); [done|].
  destruct Hres as [(-> & -> & Hall)|Hres]; [|by right].
  left. repeat split; [lia|done].
Qed.

(** ** [entrez_batch_webhistory] *)

Lemma bind_lift_Ok {W A B} (a : A) (k : A → IO W B) (w : W) :
  bind (lift (Ok a)) k w = k a w.
Proof. done. Qed.

Lemma bind_lift_Raise {W A B} (e : exn) (k : A → IO W B) (w : W) :
  bind (lift (Raise e)) k w = (Raise e, w).
Proof. done. Qed.

Lemma py_range_positive (stop step : Z) :
  0 < step →
  py_range 0 stop step
  = Ok ((λ i : nat, Z.of_nat i * step)
          <$> seq 0 (Z.to_nat ((stop + step - 1) `div` step))).
Proof.
  intros Hstep. unfold py_range.
  rewrite decide_False by lia. rewrite decide_True by done.
  f_equal. replace (stop - 0 + step - 1) with (stop + step - 1) by lia.
  apply list_fmap_ext. intros _ i _. lia.
Qed.

(** [entrez_batch_webhistory] makes no request when the range of batch
    starts is empty or invalid: a batch size of zero raises [ValueError];
    a negative batch size with a non-negative [expected], like a positive
    one with no result expected, gives the empty list.  With a batch to
    fetch, a record without ["WebEnv"] or ["QueryKey"] raises [KeyError]
    before any request. *)
Theorem entrez_batch_webhistory_no_request {W Handle Item}
    (E : Entrez W Handle Item) (record : gmap string string)
    (expected batchsize retries : Z) (w : W) :
  (batchsize = 0 →
   entrez_batch_webhistory E record expected batchsize retries w
   = (Raise ValueError, w))
  ∧ (0 < batchsize → expected ≤ 0 →
     entrez_batch_webhistory E record expected batchsize retries w
     = (Ok [], w))
  ∧ (batchsize < 0 → 0 ≤ expected →
     entrez_batch_webhistory E record expected batchsize retries w
     = (Ok [], w))
  ∧ (0 < batchsize → 0 < expected →
     record !! "WebEnv" = None ∨ record !! "QueryKey" = None →
     entrez_batch_webhistory E record expected batchsize retries w
     = (Raise KeyError, w)).
Proof.
  unfold entrez_batch_webhistory. repeat split.
  - intros ->. done.
  - intros Hb He. rewrite py_range_positive by done.
    replace (Z.to_nat ((expected + batchsize - 1) `div` batchsize))
      with 0%nat; [done|].
    assert ((expected + batchsize - 1) `div` batchsize ≤ 0); [|lia].
    assert ((expected + batchsize - 1) `div` batchsize < 1); [|lia].
    apply Z.div_lt_upper_bound; lia.
  - intros Hb He. unfold py_range.
    rewrite decide_False by lia. rewrite decide_False by lia.
    replace (Z.to_nat ((0 - expected - batchsize - 1) `div` (- batchsize)))
      with 0%nat; [done|].
    assert ((0 - expected - batchsize - 1) `div` (- batchsize) < 1); [|lia].
    apply Z.div_lt_upper_bound; lia.
  - intros Hb He Hkey. rewrite py_range_positive by done.
    assert (1 ≤ (expected + batchsize - 1) `div` batchsize) as Hn.
    { apply Z.div_le_lower_bound; lia. }
    destruct (Z.to_nat ((expected + batchsize - 1) `div` batchsize))
      as [|n] eqn:Hcount; [lia|].
    rewrite bind_lift_Ok. cbn [seq fmap list_fmap batch_loop].
    destruct Hkey as [->| Hq]; [done|].
    destruct (record !! "WebEnv"); [|done].
    cbn [subscript]. rewrite bind_lift_Ok, Hq. done.
Qed.

Lemma entrez_batch_webhistory_no_request_witness :
  let E := mkEntrez unit unit nat
             (λ _ _ _ _ w, (Ok tt, w)) (λ _ w, (Ok [7%nat], w)) in
  entrez_batch_webhistory E ∅ 10 0 3 tt = (Raise ValueError, tt)
  ∧ entrez_batch_webhistory E ∅ 0 5 3 tt = (Ok [], tt)
  ∧ entrez_batch_webhistory E ∅ 10 (-5) 3 tt = (Ok [], tt)
  ∧ entrez_batch_webhistory E ∅ 10 5 3 tt = (Raise KeyError, tt).
Proof.
  intros E.
  destruct (entrez_batch_webhistory_no_request E ∅ 10 0 3 tt)
    as (H1 & _ & _ & _).
  destruct (entrez_batch_webhistory_no_request E ∅ 0 5 3 tt)
    as (_ & H2 & _ & _).
  destruct (entrez_batch_webhistory_no_request E ∅ 10 (-5) 3 tt)
    as (_ & _ & H3 & _).
  destruct (entrez_batch_webhistory_no_request E ∅ 10 5 3 tt)
    as (_ & _ & _ & H4).
  split; [apply H1; reflexivity|].
  split; [apply H2; lia|].
  split; [apply H3; lia|].
  apply H4; [lia|lia|left; reflexivity].
Defined.

Lemma entrez_retry_first_call {W A} (func : IO W A) (retries : Z) (w w1 : W)
    (a : A) :
  1 ≤ retries → func w = (Ok a, w1) → entrez_retry func retries w = (Ok a, w1).
Proof.
  intros Hr Hcall. unfold entrez_retry.
  destruct (Z.to_nat retries) as [|n] eqn:Hn; [lia|].
  cbn [entrez_retry_loop]. by rewrite Hcall.
Qed.

Lemma batch_loop_collects {W Handle Item} (E : Entrez W Handle Item)
    (record : gmap string string) (items : list Item)
    (batchsize retries : Z) (webenv query_key : string) :
  0 < batchsize → 1 ≤ retries →
  record !! "WebEnv" = Some webenv →
  record !! "QueryKey" = Some query_key →
  (∀ start w, 0 ≤ start →
     ∃ h w1 w2,
       efetch E start batchsize webenv query_key w = (Ok h, w1)
       ∧ read E h w1
         = (Ok (take (Z.to_nat batchsize) (drop (Z.to_nat start) items)), w2)) →
  ∀ (m k : nat) (w : W),
    ∃ w',
      batch_loop E record batchsize retries
        ((λ i : nat, Z.of_nat i * batchsize) <$> seq k m)
        (take (k * Z.to_nat batchsize) items) w
      = (Ok (take ((k + m) * Z.to_nat batchsize) items), w').
Proof.
  intros Hb Hr Hwe Hqk Hserver m.
  induction m as [|m IH]; intros k w.
  - exists w. cbn. by rewrite Nat.add_0_r.
  - cbn [seq fmap list_fmap batch_loop].
    rewrite Hwe, Hqk. cbn [subscript]. rewrite !bind_lift_Ok.
    destruct (Hserver (Z.of_nat k * batchsize) w ltac:(lia))
      as (h & w1 & w2 & Hfetch & Hread).
    unfold bind at 1.
    rewrite (entrez_retry_first_call _ _ _ _ _ Hr Hfetch).
    unfold bind at 1. rewrite Hread.
    replace (Z.to_nat (Z.of_nat k * batchsize))
      with (k * Z.to_nat batchsize)%nat by lia.
    rewrite take_take_drop.
    replace (k * Z.to_nat batchsize + Z.to_nat batchsize)%nat
      with (S k * Z.to_nat batchsize)%nat by lia.
    destruct (IH (S k) w2) as (w' & Hloop).
    exists w'. rewrite Hloop. f_equal. f_equal. f_equal. lia.
Qed.

(** Against a server that answers every request for [retmax] items from
    [retstart] on with that slice of its result list, and with at least
    one try allowed, [entrez_batch_webhistory] returns the whole list, in
    order, when [expected] is the number of results and the batch size is
    positive. *)
Theorem entrez_batch_webhistory_collects {W Handle Item}
    (E : Entrez W Handle Item) (record : gmap string string)
    (items : list Item) (batchsize retries : Z) (webenv query_key : string)
    (w : W) :
  0 < batchsize → 1 ≤ retries →
  record !! "WebEnv" = Some webenv →
  record !! "QueryKey" = Some query_key →
  (∀ start w, 0 ≤ start →
     ∃ h w1 w2,
       efetch E start batchsize webenv query_key w = (Ok h, w1)
       ∧ read E h w1
         = (Ok (take (Z.to_nat batchsize) (drop (Z.to_nat start) items)), w2)) →
  ∃ w',
    entrez_batch_webhistory E record (Z.of_nat (length items)) batchsize
      retries w
    = (Ok items, w').
Proof.
  intros Hb Hr Hwe Hqk Hserver. unfold entrez_batch_webhistory.
  rewrite py_range_positive by done. rewrite bind_lift_Ok.
  set (m := Z.to_nat ((Z.of_nat (length items) + batchsize - 1) `div` batchsize)).
  destruct (batch_loop_collects E record items batchsize retries webenv
              query_key Hb Hr Hwe Hqk Hserver m 0%nat w) as (w' & Hloop).
  exists w'. change (take (0 * Z.to_nat batchsize) items) with (@nil Item) in Hloop.
  change (0 + m)%nat with m in Hloop. rewrite Hloop.
  f_equal. f_equal. apply take_ge.
  assert (Z.of_nat (length items)
          ≤ ((Z.of_nat (length items) + batchsize - 1) `div` batchsize)
            * batchsize) as Hle.
  { pose proof (Z.div_mod (Z.of_nat (length items) + batchsize - 1) batchsize
                  ltac:(lia)) as Hdm.
    pose proof (Z.mod_pos_bound (Z.of_nat (length items) + batchsize - 1)
                  batchsize Hb) as Hmod.
    lia. }
  assert (0 ≤ (Z.of_nat (length items) + batchsize - 1) `div` batchsize).
  { apply Z.div_pos; lia. }
  subst m. nia.
Qed.

Lemma entrez_batch_webhistory_collects_witness :
  let items := [11; 12; 13; 14; 15; 16; 17]%nat in
  let E := mkEntrez nat (Z * Z) nat
             (λ start retmax _ _ w, (Ok (start, retmax), S w))
             (λ h w, (Ok (take (Z.to_nat h.2) (drop (Z.to_nat h.1) items)),
                      w)) in
  let record : gmap string string :=
    <["WebEnv" := "env"]> (<["QueryKey" := "1"]> ∅) in
  ∃ w', entrez_batch_webhistory E record 7 3 1 0%nat = (Ok items, w').
Proof.
  intros items E record.
  apply (entrez_batch_webhistory_collects E record items 3 1 "env" "1" 0%nat);
    [lia|lia|reflexivity|reflexivity|].
  intros start w _. exists (start, 3), (S w), (S w). split; reflexivity.
Defined.

(** ** [split_taxa] *)

Lemma is_digit_not_comma (c : ascii) : is_digit c = true → c ≠ ","%char.
Proof. intros H ->. discriminate H. Qed.

Lemma taxonregex_groups_digit (c c' : ascii) (s : string) :
  is_digit c = true → c' ≠ ","%char →
  taxonregex_groups (String c (String c' s))
  = S (taxonregex_groups (String c' s)).
Proof.
  intros Hc Hne.
  change (taxonregex_groups (String c (String c' s)))
    with (if is_digit c then
            match String c' s with
            | String "," s'' => S (S (taxonregex_groups s''))
            | _ => S (taxonregex_groups (String c' s))
            end
          else 0%nat).
  rewrite Hc.
  destruct c' as [[] [] [] [] [] [] [] []]; try reflexivity.
  by destruct Hne.
Qed.

Lemma taxonregex_groups_comma (c : ascii) (s : string) :
  is_digit c = true →
  taxonregex_groups (String c (String "," s)) = S (S (taxonregex_groups s)).
Proof. intros Hc. cbn. by rewrite Hc. Qed.

Lemma taxonregex_groups_single (c : ascii) :
  is_digit c = true → taxonregex_groups (String c "") = 1%nat.
Proof. intros Hc. cbn. by rewrite Hc. Qed.

Lemma taxonregex_groups_not_digit (c : ascii) (s : string) :
  is_digit c = false → taxonregex_groups (String c s) = 0%nat.
Proof. intros Hc. cbn. by rewrite Hc. Qed.

Lemma split_on_other (sep c : ascii) (s : string) :
  c ≠ sep →
  split_on sep None (String c s)
  = match split_on sep None s with
    | h :: t => String c h :: t
    | [] => [String c ""]
    end.
Proof. intros Hc. cbn. by rewrite bool_decide_eq_false_2. Qed.

Lemma split_on_sep (sep : ascii) (s : string) :
  split_on sep None (String sep s) = "" :: split_on sep None s.
Proof. cbn. by rewrite bool_decide_eq_true_2. Qed.

Lemma string_concat_cons_char (sep : string) (c : ascii) (t : string)
    (ts : list string) :
  String.concat sep (String c t :: ts) = String c (String.concat sep (t :: ts)).
Proof. by destruct ts. Qed.

Lemma taxon_cons (c : ascii) (t : string) :
  is_digit c = true → t = "" ∨ taxon t → taxon (String c t).
Proof.
  intros Hc Ht. split; [done|]. cbn. rewrite Hc.
  destruct Ht as [->|[_ Ht]]; done.
Qed.

(** What the pattern matches in full is a list of taxon identifiers, and
    [split] finds them. *)
Lemma taxonregex_full (n : nat) (s : string) :
  (String.length s ≤ n)%nat → s ≠ "" →
  taxonregex_groups s = String.length s →
  ∃ ts, ts ≠ [] ∧ Forall taxon ts
    ∧ ((s = String.concat "," ts ∧ split_on "," None s = ts)
       ∨ (s = String.concat "," ts +:+ ","
          ∧ split_on "," None s = ts ++ [""])).
Proof.
  revert s. induction n as [|n IH]; intros s Hlen Hne Hfull.
  { destruct s; [done|]. cbn in Hlen. lia. }
  destruct s as [|c s']; [done|].
  destruct (is_digit c) eqn:Hc;
    [|rewrite taxonregex_groups_not_digit in Hfull by done; discriminate].
  pose proof (is_digit_not_comma c Hc) as Hcomma.
  destruct s' as [|c' s''].
  - exists [String c ""]. split; [done|].
    split; [apply Forall_singleton, taxon_cons; auto|].
    left. split; [done|]. by rewrite split_on_other.
  - destruct (decide (c' = ","%char)) as [->|Hc'].
    + rewrite taxonregex_groups_comma in Hfull by done.
      cbn [String.length] in Hfull, Hlen.
      destruct s'' as [|c2 s3].
      * exists [String c ""]. split; [done|].
        split; [apply Forall_singleton, taxon_cons; auto|].
        right. split; [done|].
        by rewrite split_on_other, split_on_sep.
      * destruct (IH (String c2 s3)) as (ts & Hts & Hall & Hform);
          [lia|done|lia|].
        exists (String c "" :: ts). split; [done|].
        split; [apply Forall_cons; split; [apply taxon_cons; auto|done]|].
        rewrite split_on_other, split_on_sep by done.
        destruct ts as [|t ts]; [done|].
        destruct Hform as [[Hs Hsplit]|[Hs Hsplit]]; rewrite Hsplit, Hs.
        -- by left.
        -- by right.
    + rewrite taxonregex_groups_digit in Hfull by done.
      cbn [String.length] in Hfull, Hlen.
      destruct (IH (String c' s'')) as (ts & Hts & Hall & Hform);
        [cbn [String.length]; lia|done|cbn [String.length]; lia|].
      destruct ts as [|t ts]; [done|].
      exists (String c t :: ts). split; [done|].
      apply Forall_cons in Hall as [Ht Hall].
      split; [apply Forall_cons; split; [apply taxon_cons; auto|done]|].
      rewrite split_on_other by done.
      rewrite string_concat_cons_char.
      destruct Hform as [[Hs Hsplit]|[Hs Hsplit]]; rewrite Hsplit, Hs.
      * by left.
      * right. by rewrite string_app_cons.
Qed.

Lemma taxon_groups (t : string) :
  taxon t → taxonregex_groups t = String.length t.
Proof.
  intros [Hne Hd]. induction t as [|c t IH]; [done|].
  cbn in Hd. apply andb_true_iff in Hd as [Hc Hd].
  destruct t as [|c' t'].
  - by rewrite taxonregex_groups_single.
  - assert (is_digit c' = true) as Hc'.
    { cbn in Hd. by apply andb_true_iff in Hd as [? _]. }
    rewrite taxonregex_groups_digit
      by (done || by apply is_digit_not_comma).
    cbn [String.length]. f_equal. by apply IH.
Qed.

Lemma taxon_groups_comma (t r : string) :
  taxon t →
  taxonregex_groups (t +:+ "," +:+ r)
  = (String.length t + 1 + taxonregex_groups r)%nat.
Proof.
  intros [Hne Hd]. induction t as [|c t IH]; [done|].
  cbn in Hd. apply andb_true_iff in Hd as [Hc Hd].
  destruct t as [|c' t'].
  - change (String c "" +:+ "," +:+ r) with (String c (String "," r)).
    by rewrite taxonregex_groups_comma.
  - assert (is_digit c' = true) as Hc'.
    { cbn in Hd. by apply andb_true_iff in Hd as [? _]. }
    change (String c (String c' t') +:+ "," +:+ r)
      with (String c (String c' (t' +:+ "," +:+ r))).
    rewrite taxonregex_groups_digit
      by (done || by apply is_digit_not_comma).
    change (String c' (t' +:+ "," +:+ r))
      with (String c' t' +:+ "," +:+ r).
    rewrite IH by done. cbn [String.length]. lia.
Qed.

Lemma taxon_split_on (t : string) :
  all_chars is_digit t = true → split_on "," None t = [t].
Proof.
  induction t as [|c t IH]; intros Hd; [done|].
  cbn in Hd. apply andb_true_iff in Hd as [Hc Hd].
  rewrite split_on_other by (by apply is_digit_not_comma).
  by rewrite IH.
Qed.

Lemma taxon_split_on_comma (t r : string) :
  all_chars is_digit t = true →
  split_on "," None (t +:+ "," +:+ r) = t :: split_on "," None r.
Proof.
  induction t as [|c t IH]; intros Hd.
  - change ("" +:+ "," +:+ r) with (String "," r). by rewrite split_on_sep.
  - cbn in Hd. apply andb_true_iff in Hd as [Hc Hd].
    rewrite string_app_cons.
    rewrite split_on_other by (by apply is_digit_not_comma).
    by rewrite IH.
Qed.

Lemma taxon_list_matches (ts : list string) :
  ts ≠ [] → Forall taxon ts →
  let s := String.concat "," ts in
  taxonregex_groups s = String.length s
  ∧ split_on "," None s = ts
  ∧ taxonregex_groups (s +:+ ",") = String.length (s +:+ ",")
  ∧ split_on "," None (s +:+ ",") = ts ++ [""].
Proof.
  intros Hne Hall. cbv zeta.
  induction Hall as [|t ts Ht Hall IH]; [done|]. clear Hne.
  destruct ts as [|t2 ts].
  - cbn [String.concat].
    replace (t +:+ ",") with (t +:+ "," +:+ "") by done.
    rewrite taxon_groups, taxon_groups_comma by done.
    rewrite taxon_split_on, taxon_split_on_comma by apply Ht.
    rewrite string_length_app. done.
  - destruct (IH ltac:(done)) as (Hg & Hs & Hgc & Hsc).
    change (String.concat "," (t :: t2 :: ts))
      with (t +:+ "," +:+ String.concat "," (t2 :: ts)).
    rewrite !string_app_assoc.
    rewrite !taxon_groups_comma by done.
    rewrite !taxon_split_on_comma by apply Ht.
    rewrite Hg, Hs, Hgc, Hsc.
    rewrite !string_length_app. cbn [String.length]. split; [lia|].
    split; [done|]. split; [|done].
    rewrite ?string_length_app. cbn [String.length]. lia.
Qed.

Lemma filter_taxa (ts : list string) :
  Forall taxon ts →
  filter (λ taxon, String.length taxon ≠ 0%nat) ts = ts
  ∧ filter (λ taxon, String.length taxon ≠ 0%nat) (ts ++ [""]) = ts.
Proof.
  intros Hall.
  assert (filter (λ taxon, String.length taxon ≠ 0%nat) ts = ts) as Hf.
  { induction Hall as [|t ts [Ht _] _ IH]; [done|].
    rewrite filter_cons_True; [by rewrite IH|]. by destruct t. }
  split; [done|]. rewrite filter_app, Hf.
  rewrite filter_cons_False by (cbn; lia). by rewrite filter_nil, app_nil_r.
Qed.

(** [split_taxa] accepts exactly the strings that list one taxon
    identifier or more, each a non-empty run of digits, separated by single
    commas, with or without a comma at the end; it returns the identifiers
    in order.  Every other string raises [ValueError]. *)
Theorem split_taxa_outcome (taxa : string) :
  (∀ ts, split_taxa taxa = Ok ts ↔ taxon_list taxa ts)
  ∧ (∀ e, split_taxa taxa = Raise e → e = ValueError).
Proof.
  split.
  - intros ts. unfold split_taxa, taxonregex_match. split.
    + destruct (decide (taxonregex_groups taxa = 0%nat)) as [|Hn]; [done|].
      destruct (decide (taxonregex_groups taxa ≠ String.length taxa))
        as [|Hfull%dec_stable]; [done|].
      intros [= <-].
      destruct (taxonregex_full (String.length taxa) taxa)
        as (ts & Hts & Hall & Hform); [done| |done|].
      { intros ->. done. }
      destruct (filter_taxa ts Hall) as [Hf1 Hf2].
      destruct Hform as [[Hs ->]|[Hs ->]].
      * rewrite Hf1. split; [done|]. split; [done|]. by left.
      * rewrite Hf2. split; [done|]. split; [done|]. by right.
    + intros (Hts & Hall & Hform).
      destruct (taxon_list_matches ts Hts Hall) as (Hg & Hs & Hgc & Hsc).
      destruct (filter_taxa ts Hall) as [Hf1 Hf2].
      assert (String.concat "," ts ≠ "") as Hne.
      { destruct Hall as [|t ts [Ht _] _]; [done|].
        destruct t; [done|]. by destruct ts. }
      destruct Hform as [->| ->].
      * rewrite decide_False by (rewrite Hg; by destruct (String.concat "," ts)).
        rewrite decide_False by (by intros []).
        by rewrite Hs, Hf1.
      * rewrite decide_False.
        2:{ rewrite Hgc, string_length_app. cbn. lia. }
        rewrite decide_False by (by intros []).
        by rewrite Hsc, Hf2.
  - intros e. unfold split_taxa.
    destruct (taxonregex_match taxa); [|by intros [= <-]].
    case_decide; [by intros [= <-]|done].
Qed.

(** ** [str.split] with a separator *)

Lemma split_on_zero (sep : ascii) (s : string) :
  split_on sep (Some 0%nat) s = [s].
Proof.
  induction s as [|c s IH]; [done|].
  cbn [split_on]. rewrite (bool_decide_eq_true_2 (Some 0%nat = Some 0%nat)) by done.
  rewrite andb_false_r. by rewrite IH.
Qed.

Lemma split_on_no_sep (sep : ascii) (maxsplit : option nat) (s : string) :
  count_char sep s = 0%nat → split_on sep maxsplit s = [s].
Proof.
  induction s as [|c s IH]; intros Hs; [done|].
  cbn [count_char] in Hs. destruct (decide (c = sep)) as [|Hc]; [lia|].
  cbn [split_on]. rewrite (bool_decide_eq_false_2 (c = sep)) by done.
  cbn [andb]. by rewrite IH by lia.
Qed.

Lemma split_on_app_sep (sep : ascii) (maxsplit : option nat) (a r : string) :
  count_char sep a = 0%nat → maxsplit ≠ Some 0%nat →
  split_on sep maxsplit (a +:+ String sep r)
  = a :: split_on sep (Nat.pred <$> maxsplit) r.
Proof.
  intros Ha Hm. induction a as [|c a IH].
  - change ("" +:+ String sep r) with (String sep r). cbn [split_on].
    rewrite (bool_decide_eq_true_2 (sep = sep)) by done.
    by rewrite (bool_decide_eq_false_2 (maxsplit = Some 0%nat)) by done.
  - cbn [count_char] in Ha. destruct (decide (c = sep)) as [|Hc]; [lia|].
    rewrite string_app_cons. cbn [split_on].
    rewrite (bool_decide_eq_false_2 (c = sep)) by done.
    cbn [andb]. by rewrite IH by lia.
Qed.

Lemma split_on_length (sep : ascii) (n : nat) (s : string) :
  length (split_on sep (Some n) s) = S (n `min` count_char sep s).
Proof.
  revert n. induction s as [|c s IH]; intros n.
  - cbn. by rewrite Nat.min_0_r.
  - cbn [split_on count_char].
    destruct (decide (c = sep)) as [Hc|Hc].
    + rewrite (bool_decide_eq_true_2 (c = sep)) by done.
      destruct n as [|n].
      * rewrite (bool_decide_eq_true_2 (Some 0%nat = Some 0%nat)) by done.
        cbn [andb negb]. by rewrite split_on_zero.
      * rewrite (bool_decide_eq_false_2 (Some (S n) = Some 0%nat)) by done.
        cbn [andb negb fmap option_fmap option_map Nat.pred length].
        rewrite IH. lia.
    + rewrite (bool_decide_eq_false_2 (c = sep)) by done. cbn [andb].
      specialize (IH n).
      destruct (split_on sep (Some n) s); cbn [length] in *; lia.
Qed.

Lemma count_char_split (sep : ascii) (s : string) :
  (1 ≤ count_char sep s)%nat →
  ∃ a r, s = a +:+ String sep r
    ∧ count_char sep a = 0%nat
    ∧ count_char sep s = S (count_char sep r).
Proof.
  induction s as [|c s IH]; intros Hs; [cbn in Hs; lia|].
  cbn [count_char] in *.
  destruct (decide (c = sep)) as [->|Hc].
  - exists "", s. done.
  - destruct IH as (a & r & -> & Ha & Hr); [lia|].
    exists (String c a), r. split; [done|]. split; [|lia].
    cbn [count_char]. rewrite decide_False by done. lia.
Qed.


(** ** [compile_url] *)

Lemma substring_chunks3 (m : nat) (aa : string) :
  (m ≤ length (chunks3 aa))%nat →
  (λ i : nat, String.substring (3 * i) 3 aa) <$> seq 0 m
  = take m (chunks3 aa).
Proof.
  revert aa. induction m as [|m IH]; intros aa Hm; [done|].
  destruct aa as [|a [|b [|c aa]]].
  - cbn in Hm. lia.
  - cbn in Hm. assert (m = 0%nat) as -> by lia. done.
  - cbn in Hm. assert (m = 0%nat) as -> by lia. done.
  - cbn [chunks3 length] in Hm.
    change (seq 0 (S m)) with (0%nat :: seq 1 m). rewrite fmap_cons.
    cbn [chunks3 take]. f_equal; [by destruct aa|].
    rewrite <- fmap_S_seq, <- list_fmap_compose, <- IH by lia.
    apply list_fmap_ext. intros _ i _. cbn [compose].
    replace (3 * S i)%nat with (S (S (S (3 * i)))) by lia. done.
Qed.

Lemma chunks3_length (n : nat) (s : string) :
  (String.length s ≤ n)%nat →
  (String.length s ≤ 3 * length (chunks3 s))%nat.
Proof.
  revert s. induction n as [|n IH]; intros s Hs.
  - destruct s; [done|]. cbn in Hs. lia.
  - destruct s as [|a [|b [|c s]]]; cbn [chunks3 length String.length] in *;
      try lia.
    specialize (IH s ltac:(lia)). lia.
Qed.

Lemma chunks3_app (k : nat) (a r : string) :
  String.length a = (3 * k)%nat →
  chunks3 (a +:+ r) = chunks3 a ++ chunks3 r ∧ length (chunks3 a) = k.
Proof.
  revert a. induction k as [|k IH]; intros a Ha.
  - destruct a; [done|]. cbn in Ha. lia.
  - destruct a as [|c1 [|c2 [|c3 a]]]; cbn [String.length] in Ha; try lia.
    destruct (IH a ltac:(lia)) as [Happ Hlen].
    rewrite !string_app_cons. cbn [chunks3 length app].
    by rewrite Happ, Hlen.
Qed.

Lemma compile_url_parts (gc aa an aaval rest suffix ftpstem : string) :
  count_char "_" gc = 0%nat → count_char "_" aa = 0%nat →
  aa = aaval +:+ rest → count_char "." aaval = 0%nat →
  (rest = "" ∨ ∃ v, rest = String "." v) →
  let filestem := gc +:+ "_" +:+ aa +:+ "_" +:+ an in
  let subdirs :=
    String.concat "/"
      (take ((String.length aaval + 2) / 3)%nat (chunks3 aa)) in
  compile_url filestem suffix ftpstem
  = Ok (ftpstem +:+ "/" +:+ gc +:+ "/" +:+ subdirs +:+ "/" +:+ filestem
        +:+ "/" +:+ filestem +:+ "_" +:+ suffix,
        ftpstem +:+ "/" +:+ gc +:+ "/" +:+ subdirs +:+ "/" +:+ filestem
        +:+ "/" +:+ "md5checksums.txt").
Proof.
  intros Hgc Haa Hsplit Haaval Hrest filestem subdirs.
  unfold compile_url. subst filestem.
  change (gc +:+ "_" +:+ aa +:+ "_" +:+ an)
    with (gc +:+ String "_" (aa +:+ String "_" an)).
  rewrite split_on_app_sep by done. cbn [fmap option_fmap option_map Nat.pred].
  rewrite split_on_app_sep by done. cbn [fmap option_fmap option_map Nat.pred].
  rewrite split_on_zero.
  assert (split_on "." None aa !! 0%nat = Some aaval) as Hhead.
  { rewrite Hsplit. destruct Hrest as [->|[v ->]].
    - rewrite string_app_nil_r. by rewrite split_on_no_sep.
    - by rewrite split_on_app_sep. }
  unfold getitem. rewrite Hhead. cbn [mbind res_bind].
  rewrite py_range_positive by lia. cbn [mbind res_bind].
  assert ((λ i, slice aa (Z.to_nat i) (Z.to_nat (i + 3)))
            <$> ((λ i : nat, Z.of_nat i * 3)
                   <$> seq 0 (Z.to_nat
                                ((Z.of_nat (String.length aaval) + 3 - 1)
                                   `div` 3)))
          = take ((String.length aaval + 2) / 3)%nat (chunks3 aa)) as ->;
    [|done].
  rewrite <- list_fmap_compose.
  replace (Z.to_nat ((Z.of_nat (String.length aaval) + 3 - 1) `div` 3))
    with ((String.length aaval + 2) / 3)%nat.
  2:{ rewrite <- (Nat2Z.id ((String.length aaval + 2) / 3)).
      f_equal. rewrite Nat2Z.inj_div. f_equal. lia. }
  rewrite <- substring_chunks3.
  - apply list_fmap_ext. intros _ i _. cbn [compose]. unfold slice.
    f_equal; lia.
  - pose proof (chunks3_length _ aa (le_n _)) as Hlen.
    assert (String.length aaval ≤ String.length aa)%nat as Hle
      by (rewrite Hsplit, string_length_app; lia).
    pose proof (Nat.div_mod_eq (String.length aaval + 2) 3) as Hdm.
    pose proof (Nat.mod_upper_bound (String.length aaval + 2) 3) as Hmod.
    lia.
Qed.

Lemma compile_url_few_underscores (filestem suffix ftpstem : string) :
  (count_char "_" filestem < 2)%nat →
  compile_url filestem suffix ftpstem = Raise ValueError.
Proof.
  intros Hcount. unfold compile_url.
  pose proof (split_on_length "_" 2 filestem) as Hlen.
  destruct (split_on "_" (Some 2%nat) filestem) as [|gc [|aa [|an [|]]]];
    cbn [length] in Hlen; try done; lia.
Qed.

Lemma compile_url_not_IOError (filestem suffix ftpstem : string) (e : exn) :
  compile_url filestem suffix ftpstem = Raise e → is_IOError e = false.
Proof.
  unfold compile_url.
  destruct (split_on "_" (Some 2%nat) filestem) as [|gc [|aa [|an [|]]]];
    try (by intros [= <-]).
  unfold getitem. destruct (split_on "." None aa !! 0%nat) as [aaval|];
    [|by intros [= <-]].
  cbn [mbind res_bind]. rewrite py_range_positive by lia. done.
Qed.

(** [compile_url] raises [ValueError] for a filestem with fewer than two
    underscores.  Otherwise the filestem is [<gc>_<aa>_<an>], where [gc]
    and [aa] have no underscore and [aa] is [aaval], the part before its
    first dot if it has one, followed by the rest; then both URLs lie in
    the directory [<ftpstem>/<gc>/<subdirs>/<filestem>], the file URL
    being [<filestem>_<suffix>] and the hash URL [md5checksums.txt] there.
    [subdirs] has one directory for every three characters of [aaval],
    taken three by three from [aa]: these are the characters of [aaval]
    when its length is a multiple of three. *)
Theorem compile_url_outcome (filestem suffix ftpstem : string) :
  ((count_char "_" filestem < 2)%nat →
   compile_url filestem suffix ftpstem = Raise ValueError)
  ∧ ((2 ≤ count_char "_" filestem)%nat →
     ∃ gc aa an aaval rest,
       filestem = gc +:+ "_" +:+ aa +:+ "_" +:+ an
       ∧ count_char "_" gc = 0%nat ∧ count_char "_" aa = 0%nat
       ∧ aa = aaval +:+ rest ∧ count_char "." aaval = 0%nat
       ∧ (rest = "" ∨ ∃ v, rest = String "." v)
       ∧ let subdirs :=
           String.concat "/"
             (take ((String.length aaval + 2) / 3)%nat (chunks3 aa)) in
         let dir :=
           ftpstem +:+ "/" +:+ gc +:+ "/" +:+ subdirs +:+ "/" +:+ filestem in
         compile_url filestem suffix ftpstem
         = Ok (dir +:+ "/" +:+ filestem +:+ "_" +:+ suffix,
               dir +:+ "/" +:+ "md5checksums.txt")
         ∧ ((String.length aaval `mod` 3 = 0)%nat →
            subdirs = String.concat "/" (chunks3 aaval))).
Proof.
  split; [apply compile_url_few_underscores|].
  - intros Hcount.
    destruct (count_char_split "_" filestem) as (gc & r & -> & Hgc & Hr);
      [lia|].
    destruct (count_char_split "_" r) as (aa & an & -> & Haa & _); [lia|].
    assert (∃ aaval rest, aa = aaval +:+ rest ∧ count_char "." aaval = 0%nat
                          ∧ (rest = "" ∨ ∃ v, rest = String "." v))
      as (aaval & rest & Hsplit & Haaval & Hrest).
    { destruct (decide (count_char "." aa = 0%nat)) as [Hdot|Hdot].
      - exists aa, "". by rewrite string_app_nil_r; auto.
      - destruct (count_char_split "." aa) as (aaval & v & -> & Hv & _);
          [lia|].
        exists aaval, (String "." v). eauto. }
    change (gc +:+ String "_" (aa +:+ String "_" an))
      with (gc +:+ "_" +:+ aa +:+ "_" +:+ an) in *.
    exists gc, aa, an, aaval, rest.
    do 6 (split; [done|]). cbv zeta. split.
    + rewrite (compile_url_parts gc aa an aaval rest suffix ftpstem)
        by done.
      by rewrite !string_app_assoc.
    + intros Hmod. f_equal.
      assert (∃ k, String.length aaval = (3 * k)%nat) as [k Hk].
      { exists (String.length aaval / 3)%nat.
        pose proof (Nat.div_mod_eq (String.length aaval) 3). lia. }
      destruct (chunks3_app k aaval rest Hk) as [Happ Hlen].
      rewrite Hsplit, Happ, Hk.
      replace ((3 * k + 2) / 3)%nat with k
        by (apply (Nat.div_unique _ _ _ 2); lia).
      by rewrite <- Hlen, take_app_length.
Qed.

(** ** [extract_filestem] *)

Lemma escapes_class (c : ascii) :
  escapes c = bool_decide (c ∈ escaped_class).
Proof. destruct c as [[] [] [] [] [] [] [] []]; vm_compute; reflexivity. Qed.

Lemma string_map_length (f : ascii → ascii) (s : string) :
  String.length (string_map f s) = String.length s.
Proof. induction s as [|c s IH]; [done|]. cbn. by rewrite IH. Qed.

Lemma string_map_get (f : ascii → ascii) (s : string) (i : nat) :
  String.get i (string_map f s) = f <$> String.get i s.
Proof.
  revert i. induction s as [|c s IH]; intros i; [by destruct i|].
  destruct i as [|i]; [done|]. cbn [string_map String.get]. apply IH.
Qed.

(** [extract_filestem] raises [KeyError] if the summary has no
    ["AssemblyName"] or no ["AssemblyAccession"].  Otherwise it returns the
    accession, an underscore and the escaped assembly name: a string as
    long as the name, with an underscore in place of every blank (the
    ASCII ones, next line and no-break space), slash, comma, hash or round
    bracket of the name and its other characters unchanged, so that none
    of these characters is left in it. *)
Theorem extract_filestem_outcome (esummary : ESummary) :
  match extract_filestem esummary with
  | Ok stem =>
      ∃ accession name escname,
        AssemblyAccession esummary = Some accession
        ∧ AssemblyName esummary = Some name
        ∧ stem = accession +:+ "_" +:+ escname
        ∧ String.length escname = String.length name
        ∧ (∀ i,
             String.get i escname
             = (λ c, if bool_decide (c ∈ escaped_class) then "_"%char else c)
                 <$> String.get i name)
        ∧ (∀ i c, String.get i escname = Some c → c ∉ escaped_class)
  | Raise e =>
      e = KeyError
      ∧ (AssemblyName esummary = None ∨ AssemblyAccession esummary = None)
  end.
Proof.
  unfold extract_filestem.
  destruct (AssemblyName esummary) as [name|]; [|cbn; by auto].
  destruct (AssemblyAccession esummary) as [accession|]; [|cbn; by auto].
  cbn [subscript mbind res_bind String.concat].
  assert (Hget : ∀ i,
            String.get i (re_sub_escapes name)
            = (λ c, if bool_decide (c ∈ escaped_class) then "_"%char else c)
                <$> String.get i name).
  { intros i. unfold re_sub_escapes. rewrite string_map_get.
    destruct (String.get i name) as [c|]; [|done].
    cbn. by rewrite escapes_class. }
  exists accession, name, (re_sub_escapes name).
  do 3 (split; [done|]). split; [apply string_map_length|].
  split; [exact Hget|].
  intros i c. rewrite Hget.
  destruct (String.get i name) as [c'|]; [|done]. cbn.
  case_bool_decide as Hc'; intros [= <-]; [|done].
  apply (bool_decide_unpack _). vm_compute. exact I.
Qed.

Lemma split_at_dot (aa : string) :
  ∃ aaval rest,
    aa = aaval +:+ rest ∧ count_char "." aaval = 0%nat
    ∧ (rest = "" ∨ ∃ v, rest = String "." v).
Proof.
  destruct (decide (count_char "." aa = 0%nat)) as [Hdot|Hdot].
  - exists aa, "". by rewrite string_app_nil_r; auto.
  - destruct (count_char_split "." aa) as (aaval & v & -> & Hv & _); [lia|].
    exists aaval, (String "." v). eauto.
Qed.

(** The filestem of a summary whose accession is [<gc>_<aa>], with no
    other underscore, always gives URLs, whatever the assembly name: they
    lie under [<ftpstem>/<gc>/], and the underscores of the name, its own
    or those that replace escaped characters, play no part. *)
Theorem filestem_gives_urls (esummary : ESummary)
    (gc aa stem suffix ftpstem : string) :
  extract_filestem esummary = Ok stem →
  AssemblyAccession esummary = Some (gc +:+ "_" +:+ aa) →
  count_char "_" gc = 0%nat → count_char "_" aa = 0%nat →
  ∃ subdirs,
    let dir := ftpstem +:+ "/" +:+ gc +:+ "/" +:+ subdirs +:+ "/" +:+ stem in
    compile_url stem suffix ftpstem
    = Ok (dir +:+ "/" +:+ stem +:+ "_" +:+ suffix,
          dir +:+ "/" +:+ "md5checksums.txt").
Proof.
  unfold extract_filestem. intros Hstem Hacc Hgc Haa.
  destruct (AssemblyName esummary) as [name|]; [|done].
  rewrite Hacc in Hstem. cbn [subscript mbind res_bind String.concat] in Hstem.
  injection Hstem as <-.
  destruct (split_at_dot aa) as (aaval & rest & Hsplit & Haaval & Hrest).
  assert ((gc +:+ "_" +:+ aa) +:+ "_" +:+ re_sub_escapes name
          = gc +:+ "_" +:+ aa +:+ "_" +:+ re_sub_escapes name) as ->.
  { by rewrite (string_app_assoc gc), (string_app_assoc "_" aa). }
  exists (String.concat "/"
            (take ((String.length aaval + 2) / 3)%nat (chunks3 aa))).
  cbv zeta.
  rewrite (compile_url_parts gc aa (re_sub_escapes name) aaval rest)
    by done.
  by rewrite !string_app_assoc.
Qed.

Lemma filestem_gives_urls_witness :
  let esummary :=
    mkESummary (Some "ASM584v2 (K-12)") (Some "GCF_000005845.2") None None in
  extract_filestem esummary = Ok "GCF_000005845.2_ASM584v2__K-12_"
  ∧ ∃ subdirs,
      compile_url "GCF_000005845.2_ASM584v2__K-12_" "genomic.fna.gz" "ftp"
      = Ok ((("ftp" +:+ "/" +:+ "GCF" +:+ "/" +:+ subdirs +:+ "/"
              +:+ "GCF_000005845.2_ASM584v2__K-12_")
             +:+ "/" +:+ "GCF_000005845.2_ASM584v2__K-12_" +:+ "_"
             +:+ "genomic.fna.gz"),
            (("ftp" +:+ "/" +:+ "GCF" +:+ "/" +:+ subdirs +:+ "/"
              +:+ "GCF_000005845.2_ASM584v2__K-12_")
             +:+ "/" +:+ "md5checksums.txt")).
Proof.
  intros esummary. split; [reflexivity|].
  apply (filestem_gives_urls esummary "GCF" "000005845.2");
    reflexivity.
Defined.

(** ** [get_ncbi_classification] and [create_labels] *)

Lemma infraspecies_sub_value_spec (esummary : ESummary) :
  match infraspecies_sub_value esummary with
  | Ok strain =>
      first_sub_value esummary = Some strain
  | Raise e =>
      is_KeyError_or_IndexError e = true
      ∧ first_sub_value esummary = None
  end.
Proof.
  unfold infraspecies_sub_value, first_sub_value.
  destruct (Biosource_ esummary) as [[[[|[[sub|]] l]|]]|]; cbn; auto.
Qed.

(** [get_ncbi_classification] raises [KeyError] if the summary has no
    ["SpeciesName"], and [ValueError] if the species name has no space.
    Otherwise the organism is the species name, cut at its first space
    into genus and species; the strain is the ["Sub_value"] of the first
    entry of the ["InfraspeciesList"] of ["Biosource"], and the empty
    string if one of these is missing. *)
Theorem get_ncbi_classification_outcome (esummary : ESummary) :
  match get_ncbi_classification esummary with
  | Ok c =>
      SpeciesName esummary = Some (organism c)
      ∧ organism c = genus c +:+ " " +:+ species c
      ∧ count_char " " (genus c) = 0%nat
      ∧ strain c = default "" (first_sub_value esummary)
  | Raise e =>
      (e = KeyError ∧ SpeciesName esummary = None)
      ∨ (e = ValueError
         ∧ ∃ name, SpeciesName esummary = Some name
                   ∧ count_char " " name = 0%nat)
  end.
Proof.
  unfold get_ncbi_classification.
  destruct (SpeciesName esummary) as [name|]; [|cbn; by auto].
  cbn [subscript mbind res_bind].
  pose proof (infraspecies_sub_value_spec esummary) as Hstrain.
  destruct (infraspecies_sub_value esummary) as [strain|e].
  - cbn [mbind res_bind].
    destruct (decide (count_char " " name = 0%nat)) as [Hsp|Hsp].
    + rewrite split_on_no_sep by done. right. eauto.
    + destruct (count_char_split " " name) as (g & sp & -> & Hg & _); [lia|].
      rewrite split_on_app_sep by done.
      cbn [fmap option_fmap option_map Nat.pred]. rewrite split_on_zero.
      cbn. by rewrite Hstrain.
  - destruct Hstrain as [-> Hnone]. cbn [mbind res_bind].
    destruct (decide (count_char " " name = 0%nat)) as [Hsp|Hsp].
    + rewrite split_on_no_sep by done. right. eauto.
    + destruct (count_char_split " " name) as (g & sp & -> & Hg & _); [lia|].
      rewrite split_on_app_sep by done.
      cbn [fmap option_fmap option_map Nat.pred]. rewrite split_on_zero.
      cbn. by rewrite Hnone.
Qed.

Lemma get_ncbi_classification_genus (esummary : ESummary)
    (c : Classification) :
  get_ncbi_classification esummary = Ok c →
  SpeciesName esummary = Some (organism c)
  ∧ organism c = genus c +:+ " " +:+ species c
  ∧ count_char " " (genus c) = 0%nat.
Proof.
  unfold get_ncbi_classification.
  destruct (SpeciesName esummary) as [name|]; [|done].
  cbn [subscript mbind res_bind].
  destruct (match infraspecies_sub_value esummary with
            | Ok strain => Ok strain
            | Raise e => if is_KeyError_or_IndexError e then Ok "" else Raise e
            end) as [strain|e]; [|done].
  cbn [mbind res_bind].
  destruct (decide (count_char " " name = 0%nat)) as [Hsp|Hsp].
  - by rewrite split_on_no_sep.
  - destruct (count_char_split " " name) as (g & sp & -> & Hg & _); [lia|].
    rewrite split_on_app_sep by done.
    cbn [fmap option_fmap option_map Nat.pred]. rewrite split_on_zero.
    by intros [= <-].
Qed.

(** For a classification that [get_ncbi_classification] returns,
    [create_labels] raises [IndexError] exactly when the species name of
    the summary starts with a space, which leaves the genus empty.
    Otherwise the species name starts with the genus, whose initial is
    not a space; the label text is the hash, the filestem with
    [_genomic], and that initial with the species and the strain; the
    class text ends with the whole species name instead. *)
Theorem create_labels_of_classification (esummary : ESummary)
    (c : Classification) (filestem hash : string) :
  get_ncbi_classification esummary = Ok c →
  match create_labels c filestem hash with
  | Ok (labeltxt, classtxt) =>
      ∃ g rest name,
        genus c = String g rest ∧ g ≠ " "%char
        ∧ SpeciesName esummary = Some name
        ∧ name = String g rest +:+ " " +:+ species c
        ∧ labeltxt
          = hash +:+ tab +:+ filestem +:+ "_genomic" +:+ tab
            +:+ String g "." +:+ " " +:+ species c +:+ " " +:+ strain c
        ∧ classtxt = hash +:+ tab +:+ filestem +:+ "_genomic" +:+ tab +:+ name
  | Raise e =>
      e = IndexError
      ∧ ∃ species, SpeciesName esummary = Some (String " " species)
  end.
Proof.
  intros Hc.
  destruct (get_ncbi_classification_genus esummary c Hc)
    as (Hname & Horg & Hgenus).
  unfold create_labels.
  destruct (genus c) as [|g rest] eqn:Hg.
  - cbn. split; [done|]. exists (species c). by rewrite Hname, Horg.
  - cbn [first_char mbind res_bind].
    exists g, rest, (organism c). split; [done|]. split.
    { intros ->. cbn [count_char] in Hgenus.
      rewrite decide_True in Hgenus by done. lia. }
    by rewrite Hname.
Qed.

Lemma create_labels_of_classification_witness :
  let esummary :=
    mkESummary None None (Some "Escherichia coli")
      (Some (mkBiosource (Some [mkInfraspecies (Some "K-12")]))) in
  let c := mkClassification "Escherichia coli" "Escherichia" "coli" "K-12" in
  get_ncbi_classification esummary = Ok c
  ∧ match create_labels c "GCF_000005845.2_ASM584v2" "abc" with
    | Ok (labeltxt, classtxt) =>
        ∃ g rest name,
          genus c = String g rest ∧ g ≠ " "%char
          ∧ SpeciesName esummary = Some name
          ∧ name = String g rest +:+ " " +:+ species c
          ∧ labeltxt
            = "abc" +:+ tab +:+ "GCF_000005845.2_ASM584v2" +:+ "_genomic"
              +:+ tab +:+ String g "." +:+ " " +:+ species c +:+ " "
              +:+ strain c
          ∧ classtxt
            = "abc" +:+ tab +:+ "GCF_000005845.2_ASM584v2" +:+ "_genomic"
              +:+ tab +:+ name
    | Raise e =>
        e = IndexError
        ∧ ∃ species, SpeciesName esummary = Some (String " " species)
    end.
Proof.
  intros esummary c. split; [reflexivity|].
  apply (create_labels_of_classification esummary c). reflexivity.
Defined.

(** ** [extract_hash] and [check_hash] *)

Lemma extract_hash_loop_short (name : string) (ls : list (list string))
    (filehash : option string) :
  Exists (λ l, (length l < 2)%nat) ls →
  extract_hash_loop name ls filehash = Raise IndexError.
Proof.
  intros Hex. revert filehash.
  induction Hex as [l ls Hl|l ls Hex IH]; intros filehash.
  - cbn [extract_hash_loop].
    destruct l as [|hash [|path l]]; cbn in Hl; try lia; done.
  - cbn [extract_hash_loop].
    destruct l as [|hash [|path l]]; try done.
    cbn [getitem lookup list_lookup mbind res_bind].
    case_decide; apply IH.
Qed.

Lemma extract_hash_loop_last (name : string) (ls : list (list string))
    (filehash : option string) :
  Forall (λ l, (2 ≤ length l)%nat) ls →
  extract_hash_loop name ls filehash
  = Ok (match last (omap (hash_for name) ls) with
        | Some hash => Some hash
        | None => filehash
        end).
Proof.
  intros Hall. revert filehash.
  induction Hall as [|l ls Hl _ IH]; intros filehash; [done|].
  destruct l as [|hash [|path l]]; cbn in Hl; try lia.
  cbn [extract_hash_loop getitem lookup list_lookup mbind res_bind].
  change (omap (hash_for name) ((hash :: path :: l) :: ls))
    with (match hash_for name (hash :: path :: l) with
          | Some h => h :: omap (hash_for name) ls
          | None => omap (hash_for name) ls
          end).
  cbn [hash_for]. case_decide; rewrite IH; [|done].
  rewrite last_cons. by destruct (last (omap (hash_for name) ls)).
Qed.

(** [extract_hash] reads the stripped, non-blank lines of the hash file,
    split into words.  If one of them has a single word it raises
    [IndexError], wherever the line stands.  Otherwise it returns the first
    word of the last line whose second word is a path ending in [name],
    and [None] if there is no such line.  An error on opening the file is
    passed on. *)
Theorem extract_hash_outcome (F : Files) (hashfile name : string) :
  match readlines F hashfile with
  | Raise e => extract_hash F hashfile name = Raise e
  | Ok lines =>
      (Exists (λ l, (length l < 2)%nat) (hash_lines lines) →
       extract_hash F hashfile name = Raise IndexError)
      ∧ (Forall (λ l, (2 ≤ length l)%nat) (hash_lines lines) →
         extract_hash F hashfile name
         = Ok (last (omap (hash_for name) (hash_lines lines))))
      ∧ (last (omap (hash_for name) (hash_lines lines)) = None ↔
         Forall (λ l, hash_for name l = None) (hash_lines lines))
  end.
Proof.
  unfold extract_hash.
  destruct (readlines F hashfile) as [lines|e]; [|done].
  cbn [mbind res_bind]. split; [|split].
  - apply extract_hash_loop_short.
  - intros Hall. rewrite extract_hash_loop_last by done.
    by destruct (last _).
  - rewrite last_None. generalize (hash_lines lines). intros ls.
    induction ls as [|l ls IH].
    + split; [by constructor|done].
    + change (omap (hash_for name) (l :: ls))
        with (match hash_for name l with
              | Some h => h :: omap (hash_for name) ls
              | None => omap (hash_for name) ls
              end).
      destruct (hash_for name l) eqn:Hl.
      * split; [done|]. intros Hall. apply Forall_cons in Hall as [? _].
        congruence.
      * rewrite IH. split.
        -- intros ?. by constructor.
        -- by intros [_ ?]%Forall_cons.
Qed.

(** For a download whose filestem and suffix have no slash, [check_hash]
    on the paths of [construct_output_paths] looks the file up in the hash
    file under the name [<filestem>_<suffix>], whatever the output
    directory.  It returns only if every non-blank line of the hash file
    has two words or more, and then the check has passed exactly when the
    last line for that name carries the MD5 of the downloaded file. *)
Theorem check_hash_of_download (F : Files)
    (filestem suffix outdir : string) (status : Hashstatus) :
  count_char "/" filestem = 0%nat → count_char "/" suffix = 0%nat →
  let paths := construct_output_paths filestem suffix outdir in
  check_hash F paths.1 paths.2 = Ok status →
  create_hash F paths.1 = Ok (localhash status)
  ∧ ∃ lines,
      readlines F paths.2 = Ok lines
      ∧ Forall (λ l, (2 ≤ length l)%nat) (hash_lines lines)
      ∧ filehash status
        = last (omap (hash_for (filestem +:+ "_" +:+ suffix))
                  (hash_lines lines))
      ∧ (passed status = true ↔ filehash status = Some (localhash status)).
Proof.
  intros Hstem Hsuffix paths. unfold check_hash.
  assert (PyStr.basename paths.1 = filestem +:+ "_" +:+ suffix) as ->.
  { apply basename_join. rewrite count_char_app. cbn [String.concat].
    change ("_" +:+ suffix) with (String "_" suffix).
    cbn [count_char]. rewrite decide_False by done. lia. }
  destruct (create_hash F paths.1) as [local|e]; [|done].
  cbn [mbind res_bind]. unfold extract_hash.
  destruct (readlines F paths.2) as [lines|e]; [|done].
  cbn [mbind res_bind].
  destruct (decide (Forall (λ l, (2 ≤ length l)%nat) (hash_lines lines)))
    as [Hall|Hex].
  - rewrite extract_hash_loop_last by done. cbn [mbind res_bind].
    intros [= <-]. cbn [localhash filehash passed]. split; [done|].
    exists lines. split; [done|]. split; [done|].
    split; [by destruct (last _)|]. apply bool_decide_eq_true.
  - rewrite extract_hash_loop_short; [done|].
    apply not_Forall_Exists in Hex; [|apply _].
    eapply Exists_impl; [exact Hex|]. cbn. intros l Hl. lia.
Qed.

Lemma check_hash_of_download_witness :
  let F :=
    mkFiles (λ _, Ok ["0f0f  ./GCF_1.1_A_genomic.fna.gz"; "";
                      "a1b2  ./GCF_1.1_A_rm.out.gz"])
            (λ _, Ok "0f0f") in
  let paths := construct_output_paths "GCF_1.1_A" "genomic.fna.gz" "out" in
  check_hash F paths.1 paths.2 = Ok (mkHashstatus true "0f0f" (Some "0f0f"))
  ∧ create_hash F paths.1 = Ok "0f0f".
Proof.
  intros F paths.
  assert (check_hash F paths.1 paths.2
          = Ok (mkHashstatus true "0f0f" (Some "0f0f"))) as Hcheck
    by reflexivity.
  split; [exact Hcheck|].
  apply (check_hash_of_download F "GCF_1.1_A" "genomic.fna.gz" "out"
           (mkHashstatus true "0f0f" (Some "0f0f")));
    [reflexivity|reflexivity|exact Hcheck].
Defined.

(** ** [retrieve_genome_and_hash] *)

(** [retrieve_genome_and_hash] raises [ValueError], without a download,
    for a filestem with fewer than two underscores, and never raises an
    [IOError].  The status it returns has the URLs of [compile_url] and
    the paths of [construct_output_paths], is never marked as skipped, and
    has no error exactly when both downloads returned; if the first
    download fails with an [IOError], the second is not attempted and the
    error is the text of that exception. *)
Theorem retrieve_genome_and_hash_outcome {W} (N : Net W)
    (filestem suffix ftpstem outdir : string) (timeout : Z) (w : W) :
  let r := retrieve_genome_and_hash N filestem suffix ftpstem outdir timeout w in
  ((count_char "_" filestem < 2)%nat → r = (Raise ValueError, w))
  ∧ match r.1 with
    | Raise e => is_IOError e = false
    | Ok status =>
        skipped status = false
        ∧ compile_url filestem suffix ftpstem
          = Ok (url status, hashurl status)
        ∧ construct_output_paths filestem suffix outdir
          = (outfname status, outfhash status)
        ∧ match download_url N (url status) (outfname status) timeout w with
          | (Raise e, w1) =>
              is_IOError e = true
              ∧ error status = Some (last_exception N e) ∧ r.2 = w1
          | (Ok _, w1) =>
              match
                download_url N (hashurl status) (outfhash status) timeout w1
              with
              | (Raise e, w2) =>
                  is_IOError e = true
                  ∧ error status = Some (last_exception N e) ∧ r.2 = w2
              | (Ok _, w2) => error status = None ∧ r.2 = w2
              end
          end
    end.
Proof.
  cbv zeta. unfold retrieve_genome_and_hash. split.
  - intros Hcount. by rewrite compile_url_few_underscores.
  - destruct (compile_url filestem suffix ftpstem) as [[u h]|e] eqn:Hurl.
    2:{ rewrite bind_lift_Raise. cbn. by eapply compile_url_not_IOError. }
    rewrite bind_lift_Ok.
    destruct (construct_output_paths filestem suffix outdir) as [o oh].
    unfold bind, try_except_IOError, ret.
    destruct (download_url N u o timeout w) as [[[]|e1] w1] eqn:Hd1.
    + destruct (download_url N h oh timeout w1) as [[[]|e2] w2] eqn:Hd2.
      * cbn. rewrite Hd1, Hd2. done.
      * destruct (is_IOError e2) eqn:He2; cbn; [|done].
        rewrite Hd1, Hd2. done.
    + destruct (is_IOError e1) eqn:He1; cbn; [|done].
      rewrite Hd1. done.
Qed.

(** ** Checks of the Python primitives of download.py *)

Example split_on_cases :
  split_on "_" (Some 2%nat) "GCF_000005845.2_ASM584v2_x"
  = ["GCF"; "000005845.2"; "ASM584v2_x"]
  ∧ split_on "_" (Some 2%nat) "a_b" = ["a"; "b"]
  ∧ split_on "," None "1,,2," = ["1"; ""; "2"; ""]
  ∧ split_on "," None "" = [""]
  ∧ split_on " " (Some 1%nat) " x" = [""; "x"]
  ∧ split_on "_" (Some 0%nat) "a_b" = ["a_b"].
Proof. repeat split; reflexivity. Qed.

Example py_range_cases :
  py_range 0 10 3 = Ok [0; 3; 6; 9]
  ∧ py_range 0 9 3 = Ok [0; 3; 6]
  ∧ py_range 0 0 3 = Ok []
  ∧ py_range 0 (-5) (-2) = Ok [0; -2; -4]
  ∧ py_range 0 5 (-1) = Ok []
  ∧ py_range 0 5 0 = Raise ValueError.
Proof. repeat split; reflexivity. Qed.

Example taxonregex_cases :
  taxonregex_match "1,2," = Some 4%nat
  ∧ taxonregex_match "1,,2" = Some 2%nat
  ∧ taxonregex_match "1a" = Some 1%nat
  ∧ taxonregex_match ",1" = None
  ∧ taxonregex_match "" = None.
Proof. repeat split; reflexivity. Qed.

Example split_taxa_cases :
  split_taxa "561,562," = Ok ["561"; "562"]
  ∧ split_taxa "561" = Ok ["561"]
  ∧ split_taxa "561,,562" = Raise ValueError
  ∧ split_taxa ",561" = Raise ValueError
  ∧ split_taxa "" = Raise ValueError.
Proof. repeat split; reflexivity. Qed.

Example compile_url_cases :
  compile_url "GCF_000005845.2_ASM584v2" "genomic.fna.gz" "ftp://host/all"
  = Ok ("ftp://host/all/GCF/000/005/845/GCF_000005845.2_ASM584v2/GCF_000005845.2_ASM584v2_genomic.fna.gz",
        "ftp://host/all/GCF/000/005/845/GCF_000005845.2_ASM584v2/md5checksums.txt")
  ∧ compile_url "GCF_0000058451.2_ASM584v2" "genomic.fna.gz" "ftp"
    = Ok ("ftp/GCF/000/005/845/1.2/GCF_0000058451.2_ASM584v2/GCF_0000058451.2_ASM584v2_genomic.fna.gz",
          "ftp/GCF/000/005/845/1.2/GCF_0000058451.2_ASM584v2/md5checksums.txt")
  ∧ compile_url "GCF_000005845.2" "genomic.fna.gz" "ftp" = Raise ValueError.
Proof. repeat split; reflexivity. Qed.

Example hash_lines_cases :
  hash_lines ["0f0f  ./x/GCF_1_genomic.fna.gz"; "   "; ""; " a1b2 ./GCF_2.fna "]
  = [["0f0f"; "./x/GCF_1_genomic.fna.gz"]; ["a1b2"; "./GCF_2.fna"]]
  ∧ hash_for "GCF_1_genomic.fna.gz" ["0f0f"; "./x/GCF_1_genomic.fna.gz"]
    = Some "0f0f".
Proof. split; reflexivity. Qed.

Example classification_cases :
  get_ncbi_classification
    (mkESummary None None (Some "Escherichia coli K-12")
       (Some (mkBiosource (Some []))))
  = Ok (mkClassification "Escherichia coli K-12" "Escherichia" "coli K-12" "")
  ∧ get_ncbi_classification (mkESummary None None (Some "Escherichia") None)
    = Raise ValueError
  ∧ get_ncbi_classification (mkESummary None None None None)
    = Raise KeyError
  ∧ extract_filestem
      (mkESummary (Some "ASM (v2)/x,y#z a") (Some "GCF_000005845.2") None None)
    = Ok "GCF_000005845.2_ASM__v2__x_y_z_a"
  ∧ extract_filestem
      (mkESummary (Some (String "a" (String "160" "b"))) (Some "GCF_1.1")
         None None)
    = Ok "GCF_1.1_a_b".
Proof. repeat split; reflexivity. Qed.

End download.
